(** * PrimeLog / Postmare: routing table, mailbag chunking, transport
      signature gate and export bridge.

    A shallow embedding of

      - primelog/postoffice/node.py      (PostmareNode, v2.5)
      - primelog/postoffice/mailbag.py   (FragmentState, PostmareMailbag, v3.0)
      - primelog/postoffice/transport.py (PostmareTransport, v3.0)
      - primelog/postoffice/bridge.py    (Bridge, v2.5)

    Python floats are IEEE-754 binary64 numbers and are modelled by the
    kernel's primitive floats, so [float('inf')], NaN, negative reports and
    rounding behave as they do in the interpreter.  Dictionaries are finite
    maps ([gmap]), Python sets are finite sets ([gset]), and every read of the
    wall clock ([time.time()]) is an explicit argument. *)

From Stdlib Require Import ZArith Floats List Lia Zpower.
From Stdlib.Strings Require Import Byte.
From stdpp Require Import gmap strings list sorting.
From Equations Require Import Equations.

Local Open Scope string_scope.
Local Open Scope list_scope.

(** ** Vocabulary for the binary64 specification *)

Module Binary64.
Local Open Scope Z_scope.

(** "Less or equal" on specification-level floats: the comparison answers
    [Lt] or [Eq] (never for NaN). *)
Definition SFle (x y : spec_float) : Prop :=
  match SFcompare x y with
  | Some Lt | Some Eq => True
  | _ => False
  end.

(** The exponent function of binary64 ([prec = 53], [emax = 1024]). *)
Definition fexp64 (e : Z) : Z := Z.max (e - 53) (-1074).

(** [signed_as sx r]: [r] is a zero, a finite number or an infinity of sign
    [sx], and not NaN. *)
Definition signed_as (sx : bool) (r : spec_float) : Prop :=
  match r with
  | S754_zero s | S754_infinity s | S754_finite s _ _ => s = sx
  | S754_nan => False
  end.

(** The specification-level float [1.0]. *)
Definition one_sf : spec_float := S754_finite false 4503599627370496 (-52).

(** Read the mantissa comparison of [SFcompare] as [Pos.compare]. *)
Ltac fold_pcmp :=
  repeat match goal with
  | |- context [Pos.compare_cont Eq ?a ?b] =>
      change (Pos.compare_cont Eq a b) with (Pos.compare a b)
  | H : context [Pos.compare_cont Eq ?a ?b] |- _ =>
      change (Pos.compare_cont Eq a b) with (Pos.compare a b) in H
  end.

End Binary64.

(** ** Floating-point comparisons as Python writes them *)

Module PyFloat.

(** [float('inf')] *)
Definition INF : float := infinity.

(** [a < b], [a > b], [a >= b] on Python floats. *)
Definition lt (a b : float) : bool := PrimFloat.ltb a b.
Definition gt (a b : float) : bool := PrimFloat.ltb b a.
Definition ge (a b : float) : bool := PrimFloat.leb b a.
Definition le (a b : float) : bool := PrimFloat.leb a b.

(** [x != x] holds exactly for NaN. *)
Definition is_nan (a : float) : bool := PrimFloat.is_nan a.

End PyFloat.

(** ** node.py *)

Module Node.
Import PyFloat.

(** [PHEROMONE_MAX_AGE = 120] *)
Definition PHEROMONE_MAX_AGE : float := 120%float.

(** [class PheromoneEntry] with slots [value], [next_hop], [timestamp]. *)
Record PheromoneEntry := mkEntry {
  value     : float;
  next_hop  : option string;
  timestamp : float
}.

(** The fields of [PostmareNode] that the table operations read or write;
    the lock, the running flag and the broadcast callback play no part in
    them. *)
Record PostmareNode := mkNode {
  self_fp : string;
  host_fp : string;
  _table  : gmap string PheromoneEntry
}.

(** [PostmareNode.__init__]: an empty table, except that a node which is
    the host starts with the entry [(0.0, None, time.time())]. *)
Definition __init__ (self_fp host_fp : string) (now : float) : PostmareNode :=
  mkNode self_fp host_fp
    (if decide (self_fp = host_fp)
     then <[host_fp := mkEntry 0%float None now]> ∅
     else ∅).

(** [get_next_hop]: [entry.next_hop] when an entry exists and
    [entry.value < INF], otherwise [None]. *)
Definition get_next_hop (n : PostmareNode) (target_fp : string) : option string :=
  match _table n !! target_fp with
  | Some entry => if lt (value entry) INF then next_hop entry else None
  | None => None
  end.

(** [get_pheromone_value]: [entry.value if entry else INF]. *)
Definition get_pheromone_value (n : PostmareNode) (target_fp : string) : float :=
  match _table n !! target_fp with
  | Some entry => value entry
  | None => INF
  end.

(** [has_route] *)
Definition has_route (n : PostmareNode) (target_fp : string) : bool :=
  match get_next_hop n target_fp with Some _ => true | None => false end.

(** [self._table[target] = entry] *)
Definition table_set (n : PostmareNode) (target : string) (entry : PheromoneEntry) : PostmareNode :=
  mkNode (self_fp n) (host_fp n) (<[target := entry]> (_table n)).

(** [update(neighbor_fp, reported_value)]; [now] is the value of
    [time.time()] read when the entry is written.  Returns Python's boolean
    result and the node after the call. *)
Definition update (n : PostmareNode) (neighbor_fp : string)
    (reported_value : float) (now : float) : bool * PostmareNode :=
  if ge reported_value INF then (false, n)
  else
    let new_cost := (reported_value + 1)%float in
    let target := host_fp n in
    match _table n !! target with
    | None => (true, table_set n target (mkEntry new_cost (Some neighbor_fp) now))
    | Some current =>
        if lt new_cost (value current)
        then (true, table_set n target (mkEntry new_cost (Some neighbor_fp) now))
        else (false, n)
    end.

(** One pass of [_decay_loop]'s body after its sleep: every entry whose key
    is not [self_fp] and whose age [now - e.timestamp] exceeds
    [PHEROMONE_MAX_AGE] is deleted. *)
Definition stale (n : PostmareNode) (now : float) (fp : string) (e : PheromoneEntry) : bool :=
  negb (bool_decide (fp = self_fp n)) && gt (now - timestamp e)%float PHEROMONE_MAX_AGE.

Definition _decay_loop_pass (n : PostmareNode) (now : float) : PostmareNode :=
  mkNode (self_fp n) (host_fp n)
    (filter (fun kv => stale n now kv.1 kv.2 = false) (_table n)).

(** The operations that act on the table: calls of [update] and passes of
    the aging loop, each with the clock value it reads. *)
Inductive op :=
  | Update (neighbor_fp : string) (reported_value : float) (now : float)
  | Decay (now : float).

Definition step (n : PostmareNode) (o : op) : PostmareNode :=
  match o with
  | Update nb c now => snd (update n nb c now)
  | Decay now => _decay_loop_pass n now
  end.

Definition run (n : PostmareNode) (ops : list op) : PostmareNode := foldl step n ops.

(** The cost to the host the node stores (what it broadcasts). *)
Definition stored_cost (n : PostmareNode) : float := get_pheromone_value n (host_fp n).

(** A heartbeat report, and the stored costs seen along a sequence of them:
    before the first call and after each call. *)
Record report := mkReport {
  r_neighbor : string;
  r_cost     : float;
  r_now      : float
}.

Definition apply_report (n : PostmareNode) (r : report) : PostmareNode :=
  snd (update n (r_neighbor r) (r_cost r) (r_now r)).

Fixpoint cost_trace (n : PostmareNode) (rs : list report) : list float :=
  stored_cost n ::
  match rs with
  | [] => []
  | r :: rs' => cost_trace (apply_report n r) rs'
  end.

(** [chain R l]: every element of [l] is related to the next one. *)
Fixpoint chain (R : float -> float -> Prop) (l : list float) : Prop :=
  match l with
  | x :: ((y :: _) as l') => R x y /\ chain R l'
  | _ => True
  end.

(** Each cost is at most the one before it; and, for traces that may hold
    NaN (which compares false with everything): no cost is greater than the
    one before it. *)
Definition non_increasing (l : list float) : Prop := chain (fun old new => le new old = true) l.
Definition never_rises (l : list float) : Prop := chain (fun old new => gt new old = false) l.

(** Reports whose candidate [c + 1.0] is not below zero (all reports of a
    cost [c >= 0] are such) and aging passes leave the host's initial entry
    [(0.0, None)] in place. *)
Definition harmless (o : op) : Prop :=
  match o with
  | Update _ c _ => lt (c + 1)%float 0%float = false
  | Decay _ => True
  end.

(** An entry that routes: it names a next hop and its cost is not [+inf]. *)
Definition routed (e : PheromoneEntry) : Prop := next_hop e <> None /\ value e <> INF.

End Node.

(** ** mailbag.py *)

Module Mailbag.

Definition bytes := list Byte.byte.

(** [CHUNK_SIZE = 2 * 1024 * 1024], [RETRY_DELAY = 60], [MAX_RETRIES = 5]. *)
Definition CHUNK_SIZE : nat := 2 * 1024 * 1024.
Definition RETRY_DELAY : float := 60%float.
Definition MAX_RETRIES : Z := 5.

(** [class FragmentState].  Python ints are unbounded, so [total], the
    indices in [sent] and [retries] are integers. *)
Record FragmentState := mkFS {
  file_path : string;
  file_id   : string;
  total     : Z;
  sent      : gset Z;
  retries   : Z;
  last_try  : float
}.

(** [FragmentState.__init__] *)
Definition new_state (path fid : string) (n : Z) : FragmentState :=
  mkFS path fid n ∅ 0 0%float.

(** [done]: [len(self.sent) == self.total]. *)
Definition done (fs : FragmentState) : bool :=
  bool_decide (Z.of_nat (size (sent fs)) = total fs).

(** [pending_indices]: [[i for i in range(self.total) if i not in self.sent]]. *)
Definition pending_indices (fs : FragmentState) : list Z :=
  filter (fun i => i ∉ sent fs) (seqZ 0 (total fs)).

(** The JSON object of a [.state/<file_id>.json] record.  ['file_id'] and
    ['total'] are read with [d[...]] and must be present; the other keys are
    read with [d.get(key, default)]. *)
Record state_dict := mkDict {
  d_file_id  : string;
  d_total    : Z;
  d_sent     : option (list Z);
  d_retries  : option Z;
  d_last_try : option float
}.

(** [to_dict]; [sorted(self.sent)] lists the set in ascending order. *)
Definition to_dict (fs : FragmentState) : state_dict :=
  mkDict (file_id fs) (total fs)
         (Some (merge_sort Z.le (elements (sent fs))))
         (Some (retries fs)) (Some (last_try fs)).

(** [from_dict] *)
Definition from_dict (path : string) (d : state_dict) : FragmentState :=
  mkFS path (d_file_id d) (d_total d)
       (list_to_set (default [] (d_sent d)))
       (default 0%Z (d_retries d))
       (default 0%float (d_last_try d)).

(** A file [.state/<stem>.json].  [sf_record] is the record when it holds
    what [from_dict] needs.  Otherwise [sf_file_id] is the ['file_id'] of a
    record that has one but from which [from_dict] raises (it lacks
    ['total'], say): the original is still looked up for such a record.
    Both are [None] when reading raises before the lookup ([json.load], or
    a missing ['file_id']). *)
Record state_file := mkStateFileOf {
  sf_stem    : string;
  sf_record  : option state_dict;
  sf_file_id : option string
}.

(** A state file that holds a complete record, or cannot be read at all. *)
Definition mkStateFile (stem : string) (record : option state_dict) : state_file :=
  mkStateFileOf stem record None.

(** [sub] occurs in [s]. *)
Fixpoint contains (sub s : string) : bool :=
  String.prefix sub s ||
  match s with
  | EmptyString => false
  | String _ s' => contains sub s'
  end.

(** [_load_states], run by [__init__] after a restart: each readable record
    is looked up among the names in the mailbag directory with the pattern
    [*<file_id[:8]>*] (for the hexadecimal ids the mailbag writes: the names
    that contain the first eight characters of the id); without a match the
    state file is deleted, otherwise the job is rebuilt by [from_dict] on
    the first match.  A record from which [from_dict] raises is deleted in
    the same way when nothing matches, and left alone (the exception is
    logged) when something does.  Returns the table and the stems of the
    deleted files. *)
Definition load_one (mailbag_dir : string) (names : list string)
    (st : gmap string FragmentState * list string) (sp : state_file)
    : gmap string FragmentState * list string :=
  match sf_record sp with
  | None =>
      match sf_file_id sp with
      | None => st
      | Some fid =>
          match filter (fun name => contains (String.substring 0 8 fid) name = true) names with
          | [] => (st.1, st.2 ++ [sf_stem sp])
          | _ :: _ => st
          end
      end
  | Some d =>
      match filter (fun name => contains (String.substring 0 8 (d_file_id d)) name = true) names with
      | [] => (st.1, st.2 ++ [sf_stem sp])
      | candidate :: _ =>
          (<[d_file_id d := from_dict (mailbag_dir +:+ "/" +:+ candidate) d]> st.1, st.2)
      end
  end.

Definition _load_states (mailbag_dir : string) (names : list string)
    (state_files : list state_file) : gmap string FragmentState * list string :=
  foldl (load_one mailbag_dir names) (∅, []) state_files.

(** Obtain the value of an expression together with the equation that
    defines it (used for the chunk read below). *)
Definition inspect {A} (a : A) : {b | a = b} := exist _ a eq_refl.

Section Chunking.

(** The module constant [CHUNK_SIZE], kept as a parameter of the chunking
    functions so that statements can range over every chunk size. *)
Variable chunk_size : nat.

(** The [while True] loop of [_iter_chunks]: [rest] is what the file
    object has not read yet, [f.read(CHUNK_SIZE)] returns its first
    [CHUNK_SIZE] bytes (fewer at the end of the file, none after it). *)
Equations? iter_chunks_loop (rest : bytes) (idx : Z) : list (Z * bytes)
  by wf (length rest) lt :=
  iter_chunks_loop rest idx with inspect (take chunk_size rest) := {
    | exist _ [] _ => [];
    | exist _ (b :: data) Hread =>
        (idx, b :: data) :: iter_chunks_loop (drop chunk_size rest) (idx + 1)
  }.
Proof.
  rewrite length_drop.
  assert (Hlen : length (take chunk_size rest) = S (length data)) by (rewrite Hread; reflexivity).
  rewrite length_take in Hlen. lia.
Qed.

(** [_iter_chunks(path, start)] on a readable file with the given
    content: seek to [start * CHUNK_SIZE], then yield [(idx, data)]. *)
Definition _iter_chunks (content : bytes) (start : Z) : list (Z * bytes) :=
  iter_chunks_loop (drop (Z.to_nat start * chunk_size) content) start.

(** [_total_chunks]: [max(1, (size + CHUNK_SIZE - 1) // CHUNK_SIZE)]. *)
Definition _total_chunks (content : bytes) : Z :=
  let size := Z.of_nat (length content) in
  Z.max 1 ((size + Z.of_nat chunk_size - 1) / Z.of_nat chunk_size).

End Chunking.

(** In-place updates of a [FragmentState]. *)
Definition mark_sent (idx : Z) (fs : FragmentState) : FragmentState :=
  mkFS (file_path fs) (file_id fs) (total fs) ({[idx]} ∪ sent fs) (retries fs) (last_try fs).
Definition bump_retries (fs : FragmentState) : FragmentState :=
  mkFS (file_path fs) (file_id fs) (total fs) (sent fs) (retries fs + 1) (last_try fs).
Definition touch (now : float) (fs : FragmentState) : FragmentState :=
  mkFS (file_path fs) (file_id fs) (total fs) (sent fs) (retries fs) now.

(** A remote fragment path [/tmp/postmare_incoming/<file_id>.frag.<idx>]
    (and its twin under [incoming_dir]) is identified by the pair
    [(file_id, idx)] it is formatted from. *)
Definition frag_key : Type := string * Z.

(** One call of [send_file_fn], as the mailbag sees it. *)
Record attempt := mkAttempt {
  a_index   : Z;
  a_payload : option bytes;
  a_ok      : bool
}.

Section Sending.

Variable chunk_size : nat.

(** What [PostmareMailbag.__init__] is given: the route lookup of the
    node, the send callable of the transport (whose effect on the outside
    world is a transition on [Net]; its local file argument is the content
    found at the local path, if any), and the host fingerprint. *)
Variable Net : Type.
Variable get_next_hop : string -> option string.
Variable send_file : string -> option bytes -> frag_key -> Net -> bool * Net.
Variable host_fp : string.

(** The outcome of one [_send_task]: the job, the outside world, the
    sends attempted in order, and the records [_save_state] wrote. *)
Record round := mkRound {
  r_state    : FragmentState;
  r_net      : Net;
  r_attempts : list attempt;
  r_saved    : list state_dict
}.

(** [next((i, d) for i, d in self._iter_chunks(path, idx) if i == idx)]:
    [None] stands for the exception raised when the file cannot be opened
    or the generator is exhausted ([StopIteration]). *)
Definition chunk_at (file : option bytes) (idx : Z) : option bytes :=
  match file with
  | None => None
  | Some content =>
      snd <$> head (filter (fun p => p.1 = idx) (_iter_chunks chunk_size content idx))
  end.

(** The [for idx in list(fs.pending_indices)] loop of [_send_task]. *)
Fixpoint send_chunks (files : gmap string bytes) (next_hop : string)
    (idxs : list Z) (r : round) : round :=
  match idxs with
  | [] => r
  | idx :: rest =>
      let fs := r_state r in
      match chunk_at (files !! file_path fs) idx with
      | None =>
          (* except Exception: fs.retries += 1; break *)
          mkRound (bump_retries fs) (r_net r) (r_attempts r) (r_saved r)
      | Some data =>
          let '(ok, net') := send_file next_hop (Some data) (file_id fs, idx) (r_net r) in
          let att := r_attempts r ++ [mkAttempt idx (Some data) ok] in
          if ok then
            let fs' := mark_sent idx fs in
            send_chunks files next_hop rest
              (mkRound fs' net' att (r_saved r ++ [to_dict fs']))
          else
            let fs' := bump_retries fs in
            mkRound fs' net' att (r_saved r ++ [to_dict fs'])
      end
  end.

(** [_send_task(fs)]; [now] is the clock read for [fs.last_try]. *)
Definition _send_task (files : gmap string bytes) (now : float)
    (fs : FragmentState) (net : Net) : round :=
  match get_next_hop host_fp with
  | None => mkRound fs net [] []
  | Some next_hop =>
      if bool_decide (next_hop = "") then mkRound fs net [] []
      else
        let fs := touch now fs in
        if bool_decide (total fs = 1%Z) && bool_decide (0%Z ∉ sent fs) then
          let '(ok, net') := send_file next_hop (files !! file_path fs) (file_id fs, 0%Z) net in
          let fs' := if ok then mark_sent 0%Z fs else bump_retries fs in
          mkRound fs' net' [mkAttempt 0%Z (files !! file_path fs) ok] [to_dict fs']
        else
          send_chunks files next_hop (pending_indices fs) (mkRound fs net [] [])
  end.

End Sending.

Arguments mkRound {Net} _ _ _ _.
Arguments r_state {Net} _.
Arguments r_net {Net} _.
Arguments r_attempts {Net} _.
Arguments r_saved {Net} _.
Arguments send_chunks chunk_size {Net} send_file files next_hop idxs r.
Arguments _send_task chunk_size {Net} get_next_hop send_file host_fp files now fs net.

(** [_assemble]: concatenate the fragments [0 .. total-1], each read from
    [incoming_dir] or, failing that, from [/tmp/postmare_incoming]; [None]
    when a fragment is missing (the exception is logged and the job stays). *)
Definition read_frag (incoming tmp : gmap frag_key bytes) (k : frag_key) : option bytes :=
  match incoming !! k with
  | Some b => Some b
  | None => tmp !! k
  end.

Definition _assemble (incoming tmp : gmap frag_key bytes) (fs : FragmentState) : option bytes :=
  @concat Byte.byte <$> mapM (fun idx => read_frag incoming tmp (file_id fs, idx)) (seqZ 0 (total fs)).

Section Discovery.

Variable chunk_size : nat.

(** [_file_id]: the SHA-256 hex digest of the content. *)
Variable sha256_hex : bytes -> string.

(** An entry of [mailbag_dir.iterdir()]; [e_content] is [None] when the
    file cannot be read ([_file_id] raises and the entry is skipped). *)
Record dir_entry := mkDirEntry {
  e_name    : string;
  e_is_file : bool;
  e_content : option bytes
}.

(** The body of the discovery loop of [_scan_and_send] for one entry;
    the second component collects what [_save_state] writes. *)
Definition discover_one (mailbag_dir : string)
    (st : gmap string FragmentState * list state_dict) (e : dir_entry)
    : gmap string FragmentState * list state_dict :=
  if String.prefix "." (e_name e) || negb (e_is_file e) then st
  else
    match e_content e with
    | None => st
    | Some content =>
        let fid := sha256_hex content in
        match st.1 !! fid with
        | Some _ => st
        | None =>
            let fs := new_state (mailbag_dir +:+ "/" +:+ e_name e) fid
                                (_total_chunks chunk_size content) in
            (<[fid := fs]> st.1, st.2 ++ [to_dict fs])
        end
    end.

(** The discovery phase of [_scan_and_send]; a host returns at once. *)
Definition _scan_and_send_discover (is_host : bool) (mailbag_dir : string)
    (entries : list dir_entry) (_states : gmap string FragmentState)
    : gmap string FragmentState * list state_dict :=
  if is_host then (_states, [])
  else foldl (discover_one mailbag_dir) (_states, []) entries.

(** The job the scan creates for an entry it takes. *)
Definition job_of (mailbag_dir : string) (e : dir_entry) (fid : string) (fs : FragmentState) : Prop :=
  String.prefix "." (e_name e) = false /\ e_is_file e = true /\
  exists content,
    e_content e = Some content /\ fid = sha256_hex content /\
    fs = new_state (mailbag_dir +:+ "/" +:+ e_name e) fid (_total_chunks chunk_size content).

End Discovery.

(** *** Vocabulary of the statements about chunking *)

(** [ceil(s / k)] as the specification writes it: the quotient, plus one
    when the division leaves a remainder. *)
Definition ceil_div (s k : Z) : Z := (s / k + (if (s mod k =? 0)%Z then 0 else 1))%Z.

(** A transport on which every send of an existing local file succeeds and
    leaves the payload at the remote fragment path. *)
Definition landing_send (_ : string) (payload : option bytes) (remote : frag_key)
    (net : gmap frag_key bytes) : bool * gmap frag_key bytes :=
  match payload with
  | Some b => (true, <[remote := b]> net)
  | None => (false, net)
  end.

(** The chunk of [content] with index [j]: [chunk_size] bytes at offset
    [j * chunk_size]. *)
Definition chunk (k : nat) (content : bytes) (j : nat) : bytes := take k (drop (j * k) content).

(** How many chunks the generator yields, as a natural number. *)
Definition nchunks (k len : nat) : nat := (len + k - 1) / k.

(** The remote store after every listed chunk has landed. *)
Definition landed (k : nat) (content : bytes) (fid : string)
    (net : gmap frag_key bytes) (idxs : list Z) : gmap frag_key bytes :=
  foldl (fun net i => <[(fid, i) := chunk k content (Z.to_nat i)]> net) net idxs.

(** *** File ids, the state directory, the scan loop and the host side *)

Section FileId.

(** [hashlib.sha256()]: the fresh hash object, [h.update(chunk)] and
    [h.hexdigest()]. *)
Variable Hash : Type.
Variable sha256 : Hash.
Variable hash_update : Hash -> bytes -> Hash.
Variable hexdigest : Hash -> string.

(** The blocks [f.read(n)] returns until the empty one. *)
Definition read_blocks (n : nat) (content : bytes) : list bytes :=
  snd <$> iter_chunks_loop n content 0.

(** The loop [while chunk := f.read(n): h.update(chunk)] and the digest. *)
Definition digest_by_blocks (n : nat) (content : bytes) : string :=
  hexdigest (foldl hash_update sha256 (read_blocks n content)).

(** [_file_id]: blocks of 8192 bytes. *)
Definition _file_id (content : bytes) : string := digest_by_blocks (8 * 1024) content.

End FileId.

Arguments read_blocks n content : simpl never.
Arguments digest_by_blocks {Hash} sha256 hash_update hexdigest n content.
Arguments _file_id {Hash} sha256 hash_update hexdigest content.

(** The directory [.state]: the record in [<file_id>.json], by file id.
    [_save_state] overwrites the record of the job ([write_saved]: the
    directory after a sequence of such writes); [_finish] deletes the
    record and takes the job out of the table, leaving the local file. *)
Definition write_saved (saved : list state_dict) (disk : gmap string state_dict)
    : gmap string state_dict :=
  foldl (fun disk d => <[d_file_id d := d]> disk) disk saved.

Definition _finish (fs : FragmentState)
    (st : gmap string FragmentState * gmap string state_dict)
    : gmap string FragmentState * gmap string state_dict :=
  (delete (file_id fs) st.1, delete (file_id fs) st.2).

Section Advance.

Variable chunk_size : nat.
Variable Net : Type.
Variable get_next_hop : string -> option string.
Variable send_file : string -> option bytes -> frag_key -> Net -> bool * Net.
Variable host_fp : string.

(** What the mailbag holds between scans: the job table, the state
    directory, and the outside world its sends act on. *)
Record scan_state := mkScan {
  s_states : gmap string FragmentState;
  s_disk   : gmap string state_dict;
  s_net    : Net
}.

(** The body of the loop over [tasks] in [_scan_and_send], for the job
    [fs] of the table; [t_check] is the clock read by the back-off test and
    [t_try] the one read by [_send_task].  The job object is the one stored
    in the table, so what [_send_task] changes in it shows there.  The
    second component lists the sends attempted. *)
Definition advance_task (files : gmap string bytes) (t_check t_try : float)
    (fs : FragmentState) (st : scan_state) : scan_state * list attempt :=
  if done fs then
    let '(states, disk) := _finish fs (s_states st, s_disk st) in
    (mkScan states disk (s_net st), [])
  else if (MAX_RETRIES <=? retries fs)%Z then (st, [])
  else if PyFloat.lt (t_check - last_try fs)%float RETRY_DELAY && (0 <? retries fs)%Z
  then (st, [])
  else
    let r := _send_task chunk_size get_next_hop send_file host_fp files t_try fs (s_net st) in
    (mkScan (<[file_id fs := r_state r]> (s_states st))
            (write_saved (r_saved r) (s_disk st))
            (r_net r),
     r_attempts r).

End Advance.

Arguments mkScan {Net} _ _ _.
Arguments s_states {Net} _.
Arguments s_disk {Net} _.
Arguments s_net {Net} _.
Arguments advance_task chunk_size {Net} get_next_hop send_file host_fp files t_check t_try fs st.

(** The host's disk: fragments under [incoming_dir] and under
    [/tmp/postmare_incoming] (by file id and index), and the assembled
    files [incoming_dir/<file_id[:16]>.log.gz] (by that prefix of the id). *)
Record host_store := mkStore {
  incoming     : gmap frag_key bytes;
  tmp_incoming : gmap frag_key bytes;
  assembled    : gmap string bytes
}.

(** The loop of [_assemble]: each fragment is read from [incoming_dir] or,
    when it is not there, from [/tmp/postmare_incoming], appended to the
    output and unlinked; a fragment found in neither place raises, which
    ends the loop ([false]) with what was written and deleted so far. *)
Fixpoint assemble_loop (fid : string) (idxs : list Z) (written : bytes)
    (inc tmp : gmap frag_key bytes) : bool * bytes * gmap frag_key bytes * gmap frag_key bytes :=
  match idxs with
  | [] => (true, written, inc, tmp)
  | idx :: rest =>
      match inc !! (fid, idx) with
      | Some data => assemble_loop fid rest (written ++ data) (delete (fid, idx) inc) tmp
      | None =>
          match tmp !! (fid, idx) with
          | Some data => assemble_loop fid rest (written ++ data) inc (delete (fid, idx) tmp)
          | None => (false, written, inc, tmp)
          end
      end
  end.

(** [_assemble] with its effects: the output file is opened for writing
    before the loop, so it exists afterwards whatever happens; the job
    leaves the table only when every fragment was read. *)
Definition _assemble_on_disk (fs : FragmentState)
    (st : gmap string FragmentState * host_store) : gmap string FragmentState * host_store :=
  let '(ok, written, inc, tmp) :=
    assemble_loop (file_id fs) (seqZ 0 (total fs)) [] (incoming st.2) (tmp_incoming st.2) in
  let store := mkStore inc tmp (<[String.substring 0 16 (file_id fs) := written]> (assembled st.2)) in
  (if ok then delete (file_id fs) st.1 else st.1, store).

(** [receive_fragment(file_id, frag_idx, frag_total, frag_path)] *)
Definition receive_fragment (fid : string) (frag_idx frag_total : Z) (frag_path : string)
    (st : gmap string FragmentState * host_store) : gmap string FragmentState * host_store :=
  let fs0 := default (new_state frag_path fid frag_total) (st.1 !! fid) in
  let fs := mark_sent frag_idx fs0 in
  let states := <[fid := fs]> st.1 in
  if done fs then _assemble_on_disk fs (states, st.2) else (states, st.2).

(** A job whose sent indices all lie in [range(total)]. *)
Definition sent_in_range (fs : FragmentState) : Prop :=
  forall i, i ∈ sent fs -> (0 <= i < total fs)%Z.

(** The indices of the sends that succeeded, and whether a send failed. *)
Definition succeeded (atts : list attempt) : list Z :=
  a_index <$> filter (fun a => a_ok a = true) atts.

(** Every fragment named by [idxs] lies in [net] with the bytes of its
    chunk of [content]. *)
Definition chunks_present (k : nat) (content : bytes) (fid : string)
    (net : gmap frag_key bytes) (idxs : gset Z) : Prop :=
  forall i, i ∈ idxs -> net !! (fid, i) = Some (chunk k content (Z.to_nat i)).

(** The shape of the sends of a round: successes, then at most one
    failure. *)
Definition round_shape (oks failed : list attempt) : Prop :=
  Forall (fun a => a_ok a = true) oks /\
  (failed = [] \/ exists a, failed = [a] /\ a_ok a = false).

(** The first name of the directory listing that the pattern
    [*<file_id[:8]>*] of [_load_states] matches. *)
Definition first_candidate (names : list string) (fid : string) : option string :=
  head (filter (fun name => contains (String.substring 0 8 fid) name = true) names).

(** An entry the discovery loop does not skip: not hidden, a regular file,
    readable. *)
Definition eligible (e : dir_entry) (content : bytes) : Prop :=
  String.prefix "." (e_name e) = false /\ e_is_file e = true /\ e_content e = Some content.

End Mailbag.

(** ** transport.py *)

Module Transport.

Definition bytes := list Byte.byte.

(** What [json.loads] returns.  Numbers are kept as floats; [JObj] holds
    the items of the resulting dictionary. *)
#[warnings="-register-all"]
Inductive json :=
  | JNull
  | JBool (b : bool)
  | JNum (x : float)
  | JStr (s : string)
  | JArr (items : list json)
  | JObj (items : list (string * json)).

Fixpoint assoc (key : string) (items : list (string * json)) : option json :=
  match items with
  | [] => None
  | (k, v) :: rest => if bool_decide (k = key) then Some v else assoc key rest
  end.

(** [v[key]]: [None] stands for the [KeyError] of a dictionary without the
    key and for the [TypeError] of a value that is not a dictionary. *)
Definition subscript (v : json) (key : string) : option json :=
  match v with
  | JObj items => assoc key items
  | _ => None
  end.

(** The result of calling into a library or a callback: a value, or an
    exception. *)
Inductive call_result (A : Type) :=
  | Returned (a : A)
  | Raised.
Arguments Returned {A} a.
Arguments Raised {A}.

Section Transport.

(** [paramiko.Ed25519Key], and the library calls [_verify_signed] makes:
    [json.dumps(v, sort_keys=True).encode()], [bytes.fromhex] ([None] for
    its [ValueError]) and [PKey.verify_ssh_sig(data, msg)], which paramiko
    documents as returning [True] if the signature verifies and [False]
    otherwise. *)
Variable Key : Type.
Variable dumps_sorted : json -> bytes.
Variable fromhex : string -> option bytes.
Variable verify_ssh_sig : Key -> bytes -> bytes -> call_result bool.

(** [json.loads(buf.decode())], [None] for any exception. *)
Variable json_loads : bytes -> option json.

(** The state registered handlers act on (for the ['pheromone'] handler:
    the node's routing table).  A handler [callback(sender_fp, payload)]
    returns the state it leaves behind. *)
Variable St : Type.
Definition handler : Type := string -> json -> St -> call_result St.

Record PostmareTransport := mkTransport {
  _known_keys : gmap string Key;
  _handlers   : gmap string handler
}.

(** [register_handler] *)
Definition register_handler (t : PostmareTransport) (msg_type : string) (cb : handler)
    : PostmareTransport :=
  mkTransport (_known_keys t) (<[msg_type := cb]> (_handlers t)).

(** [_verify_signed(packet, sender_fp)].  Every exception inside the
    [try] gives [False]; the value [verify_ssh_sig] returns is not
    looked at, and the function returns [True] once the call returns. *)
Definition _verify_signed (t : PostmareTransport) (packet : json) (sender_fp : string) : bool :=
  match _known_keys t !! sender_fp with
  | None => false
  | Some known_key =>
      match subscript packet "data" with
      | None => false
      | Some data =>
          let payload := dumps_sorted data in
          match subscript packet "signature" with
          | Some (JStr hex) =>
              match fromhex hex with
              | None => false
              | Some sig =>
                  match verify_ssh_sig known_key payload sig with
                  | Returned _ => true
                  | Raised => false
                  end
              end
          | _ => false
          end
      end
  end.

(** What a connection handler leaves behind: the handlers' state, the
    handler calls made [(msg_type, sender_fp, payload)], and whether an
    exception escaped [_handle_conn]. *)
Record handled := mkHandled {
  h_state   : St;
  h_invoked : list (string * string * json);
  h_escaped : bool
}.

(** [_handle_conn] from [if not buf] on: [peer_fp] is [iface.peer_fp] of
    the authenticated session and [buf] the bytes read from it. *)
Definition _handle_conn (t : PostmareTransport) (peer_fp : string) (buf : bytes) (st : St)
    : handled :=
  match buf with
  | [] => mkHandled st [] false
  | _ =>
      match json_loads buf with
      | None => mkHandled st [] false
      | Some packet =>
          if negb (_verify_signed t packet peer_fp) then mkHandled st [] false
          else
            (* packet.get('data', {}).get('type') *)
            let data := default (JObj []) (subscript packet "data") in
            match data with
            | JObj items =>
                match assoc "type" items with
                | Some (JStr msg_type) =>
                    match _handlers t !! msg_type with
                    | Some h =>
                        match h peer_fp data st with
                        | Returned st' => mkHandled st' [(msg_type, peer_fp, data)] false
                        | Raised => mkHandled st [(msg_type, peer_fp, data)] false
                        end
                    | None => mkHandled st [] false
                    end
                | Some (JArr _) | Some (JObj _) =>
                    (* unhashable key: TypeError out of [_handlers.get] *)
                    mkHandled st [] true
                | _ => mkHandled st [] false
                end
            | _ =>
                (* AttributeError: the payload has no [get] *)
                mkHandled st [] true
            end
      end
  end.

End Transport.

Arguments mkTransport {Key St} _ _.
Arguments _known_keys {Key St} _.
Arguments _handlers {Key St} _.
Arguments register_handler {Key St} t msg_type cb.
Arguments _verify_signed {Key} dumps_sorted fromhex verify_ssh_sig {St} t packet sender_fp.
Arguments mkHandled {St} _ _ _.
Arguments h_state {St} _.
Arguments h_invoked {St} _.
Arguments h_escaped {St} _.
Arguments _handle_conn {Key} dumps_sorted fromhex verify_ssh_sig json_loads {St} t peer_fp buf st.

(** The ['pheromone'] handler the daemon registers:
    [lambda sender_fp, data: node.update(sender_fp, data.get('value', inf))].
    A JSON boolean is a Python [bool], which is a number ([True] is [1],
    [False] is [0]); any other value that is not a number makes [update]
    raise at its first comparison. *)
Definition pheromone_handler (now : float) : handler Node.PostmareNode :=
  fun sender_fp data n =>
    match subscript data "value" with
    | None => Returned (snd (Node.update n sender_fp PyFloat.INF now))
    | Some (JNum v) => Returned (snd (Node.update n sender_fp v now))
    | Some (JBool b) =>
        Returned (snd (Node.update n sender_fp (if b then 1%float else 0%float) now))
    | Some _ => Raised
    end.

Section Sending.

(** The node's private key with [sign_ssh_data] (the signature taken as
    the bytes [msg.asbytes()]), [bytes.hex], and the two serialisations:
    [json.dumps(v, sort_keys=True).encode()] for what is signed and
    [json.dumps(v).encode()] for what is sent. *)
Variable PrivKey : Type.
Variable sign_ssh_data : PrivKey -> bytes -> bytes.
Variable hex : bytes -> string.
Variable dumps_sorted : json -> bytes.
Variable json_dumps : json -> bytes.

(** The dictionary [msg] that [send_heartbeat] builds; [now] is its clock
    read. *)
Definition heartbeat_msg (self_fp host_fp : string) (pheromone_value now : float) : json :=
  JObj [("type", JStr "pheromone"); ("sender", JStr self_fp); ("target", JStr host_fp);
        ("value", JNum pheromone_value); ("timestamp", JNum now)].

(** [_wrap_signed(data)] *)
Definition _wrap_signed (key : PrivKey) (data : json) : json :=
  let payload := dumps_sorted data in
  let sig := sign_ssh_data key payload in
  JObj [("data", data); ("signature", JStr (hex sig))].

(** The bytes [send_heartbeat] hands to [chan.sendall] through
    [_send_json]: the signed packet, serialised. *)
Definition heartbeat_bytes (key : PrivKey) (self_fp host_fp : string)
    (pheromone_value now : float) : bytes :=
  json_dumps (_wrap_signed key (heartbeat_msg self_fp host_fp pheromone_value now)).

End Sending.

Arguments _wrap_signed {PrivKey} sign_ssh_data hex dumps_sorted key data.
Arguments heartbeat_bytes {PrivKey} sign_ssh_data hex dumps_sorted json_dumps key
  self_fp host_fp pheromone_value now.

Section ServerInterface.

(** [_PostmareServerInterface]: the dictionary of known keys it is given,
    and [peer_fp], set by a public-key authentication that succeeds.
    [fingerprint_of key] is [sha256(key.get_base64().encode()).hexdigest()]. *)
Variable Key : Type.
Variable PubKey : Type.
Variable fingerprint_of : PubKey -> string.

Inductive auth_result := AUTH_SUCCESSFUL | AUTH_FAILED.

Record server_interface := mkIface {
  _known  : gmap string Key;
  peer_fp : option string
}.

(** [check_auth_publickey(username, key)] *)
Definition check_auth_publickey (iface : server_interface) (key : PubKey)
    : auth_result * server_interface :=
  let fp := fingerprint_of key in
  match _known iface !! fp with
  | Some _ => (AUTH_SUCCESSFUL, mkIface (_known iface) (Some fp))
  | None => (AUTH_FAILED, iface)
  end.

(** The interface after the authentication requests of a session. *)
Definition authenticate (known : gmap string Key) (keys : list PubKey) : server_interface :=
  foldl (fun iface key => snd (check_auth_publickey iface key)) (mkIface known None) keys.

End ServerInterface.

Arguments mkIface {Key} _ _.
Arguments _known {Key} _.
Arguments peer_fp {Key} _.
Arguments check_auth_publickey {Key PubKey} fingerprint_of iface key.
Arguments authenticate {Key PubKey} fingerprint_of known keys.

Section Serving.

Variable Key : Type.
Variable PubKey : Type.
Variable fingerprint_of : PubKey -> string.
Variable dumps_sorted : json -> bytes.
Variable fromhex : string -> option bytes.
Variable verify_ssh_sig : Key -> bytes -> bytes -> call_result bool.
Variable json_loads : bytes -> option json.
Variable St : Type.

(** What the first [try] of [_handle_conn] sees of a connection: the keys
    offered for authentication, whether [transport.accept] gave a channel,
    and the chunks [chan.recv] returned ([None]: an exception from the
    session calls). *)
Record session := mkSession {
  offered  : list PubKey;
  accepted : bool;
  received : option (list bytes)
}.

(** [buf]: the chunks up to the first empty one, which ends the loop. *)
Fixpoint read_until_closed (chunks : list bytes) : bytes :=
  match chunks with
  | [] => []
  | [] :: _ => []
  | chunk :: rest => chunk ++ read_until_closed rest
  end.

(** [_handle_conn(conn, addr)] from its first line. *)
Definition _handle_conn_session (t : PostmareTransport Key St) (s : session) (st : St)
    : handled St :=
  let iface := authenticate fingerprint_of (_known_keys t) (offered s) in
  if negb (accepted s) then mkHandled st [] false
  else
    match peer_fp iface with
    | None => mkHandled st [] false
    | Some fp =>
        match received s with
        | None => mkHandled st [] false
        | Some chunks =>
            _handle_conn dumps_sorted fromhex verify_ssh_sig json_loads t fp
              (read_until_closed chunks) st
        end
    end.

End Serving.

Arguments mkSession {PubKey} _ _ _.
Arguments offered {PubKey} _.
Arguments accepted {PubKey} _.
Arguments received {PubKey} _.
Arguments _handle_conn_session {Key PubKey} fingerprint_of dumps_sorted fromhex verify_ssh_sig
  json_loads {St} t s st.

End Transport.

(** ** bridge.py *)

Module Bridge.
Import PyFloat.

(** An entry of [scan_dir.iterdir()]: its name, [is_file()], [Path.suffix]
    and [stat().st_mtime]. *)
Record file_info := mkFile {
  f_name    : string;
  f_is_file : bool;
  f_suffix  : string;
  st_mtime  : float
}.

(** [exts = {'.json', '.wl', '.gz', '.csv', '.jsonl'}] *)
Definition exts : list string := [".json"; ".wl"; ".gz"; ".csv"; ".jsonl"].

(** The [manifest.json] member and the packaged archive. *)
Record manifest := mkManifest {
  m_project   : string;
  m_timestamp : string;
  m_files     : list string;
  m_node_id   : string
}.

Record package := mkPackage {
  p_manifest : manifest;
  p_members  : list string
}.

(** The part of the file system [Bridge] touches: the directories that exist
    with their listings, the marker files [.bridge_marker_<project>] of the
    mailbag directory (by project, holding the float written there), and the
    archives in the mailbag directory (by file name).  Export directories are
    taken to be distinct from the mailbag directory, as in the daemon's
    layout ([logs/<project>] against [<config>/mailbag]).  A path is either
    a directory, with its listing in [dirs], or absent: a world in which the
    path to scan exists without being a directory, where [iterdir] raises
    [NotADirectoryError] out of [deliver], is not among those described. *)
Record world := mkWorld {
  dirs    : gmap string (list file_info);
  markers : gmap string float;
  outbox  : gmap string package
}.

Record Bridge := mkBridge {
  mailbag_dir   : string;
  log_base      : string;
  keep_original : bool
}.

(** [sorted(files, key=lambda f: f.stat().st_mtime)]: a stable sort that
    compares keys with [<]. *)
Fixpoint insert_by_mtime (x : file_info) (l : list file_info) : list file_info :=
  match l with
  | [] => [x]
  | y :: rest =>
      if lt (st_mtime y) (st_mtime x) then y :: insert_by_mtime x rest
      else x :: y :: rest
  end.

Definition sorted_by_mtime (l : list file_info) : list file_info :=
  foldr insert_by_mtime [] l.

(** The test of the loop of [_collect_new_files]. *)
Definition is_new (since_ts : float) (f : file_info) : bool :=
  f_is_file f && bool_decide (f_suffix f ∈ exts) && gt (st_mtime f) since_ts.

(** [_collect_new_files(scan_dir, since_ts)] *)
Definition _collect_new_files (listing : list file_info) (since_ts : float) : list file_info :=
  sorted_by_mtime (filter (fun f => is_new since_ts f = true) listing).

(** [_read_marker]: the float in the marker file, [0.0] when it cannot be
    read. *)
Definition _read_marker (w : world) (project : string) : float :=
  default 0%float (markers w !! project).

(** [_write_marker]: [marker.write_text(str(time.time()))]; [float(str(x))]
    gives [x] back. *)
Definition _write_marker (w : world) (project : string) (now : float) : world :=
  mkWorld (dirs w) (<[project := now]> (markers w)) (outbox w).

Section Deliver.

(** [time.strftime('%Y%m%d_%H%M%S')] of the clock read in [_pack], the
    result of [_node_id()], and whether [f.unlink()] succeeds. *)
Variable strftime : float -> string.
Variable node_id : string.
Variable unlink_ok : file_info -> bool.

(** [_pack(project, files)]: writes [<project>_<ts>.tar.gz] into the mailbag
    directory and returns its path. *)
Definition _pack (b : Bridge) (project : string) (files : list file_info)
    (t_pack : float) (w : world) : string * world :=
  let ts := strftime t_pack in
  let tar_name := project +:+ "_" +:+ ts +:+ ".tar.gz" in
  let names := f_name <$> files in
  let pkg := mkPackage (mkManifest project ts names node_id) ("manifest.json" :: names) in
  (mailbag_dir b +:+ "/" +:+ tar_name,
   mkWorld (dirs w) (markers w) (<[tar_name := pkg]> (outbox w))).

(** The directory [deliver] scans: [export_dir] if it is given and not
    empty, else [log_base / project]. *)
Definition scan_dir_of (b : Bridge) (project : string) (export_dir : option string) : string :=
  match export_dir with
  | Some d => if bool_decide (d = "") then log_base b +:+ "/" +:+ project else d
  | None => log_base b +:+ "/" +:+ project
  end.

(** The deletion loop run when [keep_original] is false: [f.unlink()]
    removes the directory entry of that name; a file whose [unlink] fails
    stays. *)
Definition remove_originals (scan_dir : string) (files : list file_info) (w : world) : world :=
  mkWorld
    (alter (filter (fun f => ~ (f_name f ∈ (f_name <$> files) /\ unlink_ok f = true))) scan_dir (dirs w))
    (markers w) (outbox w).

(** [deliver(project, export_dir)]; [t_pack] and [t_mark] are the clock
    reads of [_pack] and [_write_marker].  [dirs w !! scan_dir = None] is
    [not scan_dir.exists()]; the file-system calls made on a directory are
    taken to succeed. *)
Definition deliver (b : Bridge) (project : string) (export_dir : option string)
    (t_pack t_mark : float) (w : world) : option string * world :=
  let scan_dir := scan_dir_of b project export_dir in
  match dirs w !! scan_dir with
  | None => (None, w)
  | Some listing =>
      let last_ts := _read_marker w project in
      match _collect_new_files listing last_ts with
      | [] => (None, w)
      | new_files =>
          let '(tar_path, w1) := _pack b project new_files t_pack w in
          let w2 := _write_marker w1 project t_mark in
          let w3 := if keep_original b then w2 else remove_originals scan_dir new_files w2 in
          (Some tar_path, w3)
      end
  end.

(** [export_and_deliver(project)]: [primelog.export(project=project)], then
    [deliver(project)].  [primelog_export] gives the world the export leaves
    behind and whether it returned ([true]) or raised. *)
Definition export_and_deliver (primelog_export : string -> world -> bool * world)
    (b : Bridge) (project : string) (t_pack t_mark : float) (w : world)
    : option string * world :=
  let '(ok, w1) := primelog_export project w in
  if ok then deliver b project None t_pack t_mark w1 else (None, w1).

End Deliver.

Section FileId.

Variable Hash : Type.
Variable sha256 : Hash.
Variable hash_update : Hash -> list Byte.byte -> Hash.
Variable hexdigest : Hash -> string.

(** [Bridge._file_id]: the same loop as the mailbag's, with blocks of
    65536 bytes. *)
Definition _file_id (content : list Byte.byte) : string :=
  Mailbag.digest_by_blocks sha256 hash_update hexdigest (64 * 1024) content.

End FileId.

Arguments _file_id {Hash} sha256 hash_update hexdigest content.

(** The order [sorted] leaves the files in: each modification time is at
    most the next one. *)
Fixpoint mtime_sorted (l : list file_info) : Prop :=
  match l with
  | x :: ((y :: _) as rest) => le (st_mtime x) (st_mtime y) = true /\ mtime_sorted rest
  | _ => True
  end.

End Bridge.

(** * Facts *)

(** ** IEEE-754 binary64: order, and adding [1.0]

    The specification of the primitive floats ([SpecFloat]) is the one of
    Flocq's [IEEE754.Binary]; what the routing table needs of it is that the
    comparisons form an order away from NaN and that [c + 1.0] neither
    overflows to [+inf] nor turns into NaN. *)

Module FloatFacts.
Import Binary64.
Local Open Scope Z_scope.


Lemma SFcompare_refl x : x <> S754_nan -> SFcompare x x = Some Eq.
Proof.
  destruct x as [s|s| |s m e]; simpl; try congruence; destruct s; intros _; try reflexivity;
    fold_pcmp; now rewrite Z.compare_refl, Pos.compare_refl.
Qed.

Lemma SFcompare_antisym x y :
  SFcompare y x = match SFcompare x y with Some c => Some (CompOpp c) | None => None end.
Proof.
  destruct x as [s|s| |s m e], y as [s'|s'| |s' m' e']; simpl; try reflexivity;
    try (destruct s; reflexivity); try (destruct s'; reflexivity);
    try (destruct s, s'; reflexivity).
  fold_pcmp.
  destruct s, s'; try reflexivity; rewrite (Z.compare_antisym e' e), (Pos.compare_antisym m' m);
    destruct (e' ?= e)%Z; simpl; try reflexivity;
    destruct (m' ?= m)%positive; reflexivity.
Qed.

Lemma SFle_trans x y z : SFle x y -> SFle y z -> SFle x z.
Proof.
  unfold SFle.
  destruct x as [s|s| |s m e], y as [s'|s'| |s' m' e'], z as [s''|s''| |s'' m'' e'']; simpl;
    try tauto; try (destruct s; tauto); try (destruct s'; tauto); try (destruct s''; tauto);
    try (destruct s, s'; tauto); try (destruct s, s''; tauto); try (destruct s', s''; tauto);
    try (destruct s, s', s''; tauto).
  fold_pcmp.
  destruct s, s', s''; try tauto;
    destruct (Z.compare_spec e e'), (Z.compare_spec e' e''), (Z.compare_spec e e''); simpl; try tauto; try lia;
    subst;
    destruct (Pos.compare_spec m m'), (Pos.compare_spec m' m''), (Pos.compare_spec m m''); simpl; try tauto; try lia.
Qed.


Lemma digits2_size p : digits2_pos p = Pos.size p.
Proof. induction p; simpl; congruence. Qed.

Lemma Zdigits2_log2 m : 0 < m -> Zdigits2 m = Z.log2 m + 1.
Proof.
  destruct m as [|p|p]; try lia. intros _. simpl. rewrite digits2_size.
  destruct p; simpl; lia.
Qed.

Lemma Zdigits2_le m k : 0 < m -> m < 2 ^ k -> Zdigits2 m <= k.
Proof.
  intros Hm Hk. rewrite Zdigits2_log2 by lia.
  destruct (Z.le_gt_cases 0 k) as [Hk0|Hk0].
  - apply Z.log2_lt_pow2 in Hk; lia.
  - rewrite Z.pow_neg_r in Hk by lia. lia.
Qed.

Lemma Zdigits2_ge m : 0 < m -> 2 ^ (Zdigits2 m - 1) <= m < 2 ^ Zdigits2 m.
Proof.
  intros Hm. rewrite Zdigits2_log2 by lia.
  replace (Z.log2 m + 1 - 1) with (Z.log2 m) by lia.
  replace (Z.log2 m + 1) with (Z.succ (Z.log2 m)) by lia.
  now apply Z.log2_spec.
Qed.

Lemma shr_1_nonneg m r s :
  0 <= m -> shr_1 (Build_shr_record m r s) = Build_shr_record (Z.div2 m) (Z.odd m) (r || s).
Proof. destruct m as [|[p|p|]|p]; try lia; intros _; reflexivity. Qed.

Lemma iter_pos_nat {A} (f : A -> A) p x : SpecFloat.iter_pos f p x = Nat.iter (Pos.to_nat p) f x.
Proof.
  revert x. induction p as [p IH|p IH|]; intros x; simpl SpecFloat.iter_pos.
  - rewrite !IH, Pos2Nat.inj_xI. 
    replace (S (2 * Pos.to_nat p))%nat with (Pos.to_nat p + (Pos.to_nat p + 1))%nat by lia.
    rewrite !Nat.iter_add. reflexivity.
  - rewrite !IH, Pos2Nat.inj_xO.
    replace (2 * Pos.to_nat p)%nat with (Pos.to_nat p + Pos.to_nat p)%nat by lia.
    now rewrite Nat.iter_add.
  - reflexivity.
Qed.

Lemma iter_shr_m k m r s :
  0 <= m -> shr_m (Nat.iter k shr_1 (Build_shr_record m r s)) = m / 2 ^ Z.of_nat k.
Proof.
  intros Hm. induction k as [|k IH].
  - simpl. now rewrite Z.div_1_r.
  - rewrite Nat2Z.inj_succ, Z.pow_succ_r by lia. simpl Nat.iter.
    destruct (Nat.iter k shr_1 _) as [m' r' s']. simpl in IH. subst m'.
    rewrite shr_1_nonneg by (apply Z.div_pos; lia). simpl.
    rewrite Z.div2_div, Z.div_div by lia. f_equal. lia.
Qed.

Lemma iter_shr_r k m r s :
  0 <= m -> shr_r (Nat.iter (S k) shr_1 (Build_shr_record m r s)) = Z.testbit m (Z.of_nat k).
Proof.
  intros Hm. simpl Nat.iter. pose proof (iter_shr_m k m r s Hm) as Hk.
  destruct (Nat.iter k shr_1 _) as [m' r' s']. simpl in Hk. subst m'.
  rewrite shr_1_nonneg by (apply Z.div_pos; lia). simpl.
  rewrite Z.testbit_odd, Z.shiftr_div_pow2 by lia. reflexivity.
Qed.

Lemma fexp_eq e : fexp 53 1024 e = fexp64 e.
Proof. reflexivity. Qed.

Lemma shr_fexp_snd m e l :
  snd (shr_fexp 53 1024 m e l) = Z.max e (fexp64 (Zdigits2 m + e)).
Proof.
  unfold shr_fexp, shr. rewrite fexp_eq.
  destruct (fexp64 (Zdigits2 m + e) - e) eqn:E; simpl; lia.
Qed.

Lemma shr_fexp_m m e l :
  0 <= m ->
  shr_m (fst (shr_fexp 53 1024 m e l)) = m / 2 ^ Z.max 0 (fexp64 (Zdigits2 m + e) - e).
Proof.
  intros Hm. unfold shr_fexp, shr. rewrite fexp_eq.
  destruct (fexp64 (Zdigits2 m + e) - e) eqn:E; simpl fst.
  - simpl. destruct l as [|[]]; simpl; now rewrite Z.div_1_r.
  - rewrite iter_pos_nat. 
    destruct l as [|[]]; simpl shr_record_of_loc; rewrite iter_shr_m by lia;
      rewrite positive_nat_Z; f_equal; f_equal; lia.
  - replace (Z.max 0 (Z.neg p)) with 0 by lia.
    destruct l as [|[]]; simpl; now rewrite Z.div_1_r.
Qed.

Lemma shr_fexp_r m e :
  0 <= m -> 0 < fexp64 (Zdigits2 m + e) - e ->
  shr_r (fst (shr_fexp 53 1024 m e loc_Exact)) = Z.testbit m (fexp64 (Zdigits2 m + e) - e - 1).
Proof.
  intros Hm Hn. unfold shr_fexp, shr. rewrite fexp_eq.
  destruct (fexp64 (Zdigits2 m + e) - e) eqn:E; try lia. simpl fst.
  rewrite iter_pos_nat. simpl shr_record_of_loc.
  destruct (Pos.to_nat p) eqn:Ep; [lia|].
  rewrite iter_shr_r by lia. f_equal. lia.
Qed.

Lemma rne_bounds m l : m <= round_nearest_even m l <= m + 1.
Proof. destruct l as [|[]]; simpl; try lia. destruct (Z.even m); lia. Qed.

Lemma rne_r_false mrs : shr_r mrs = false ->
  round_nearest_even (shr_m mrs) (loc_of_shr_record mrs) = shr_m mrs.
Proof. destruct mrs as [m r s]; simpl; intros ->. destruct s; reflexivity. Qed.

(** The exponent produced by [binary_round_aux]. *)
Lemma binary_round_aux_no_overflow sx m e l :
  let e' := Z.max e (fexp64 (Zdigits2 m + e)) in
  let mrs' := fst (shr_fexp 53 1024 m e l) in
  let m1 := round_nearest_even (shr_m mrs') (loc_of_shr_record mrs') in
  Z.max e' (fexp64 (Zdigits2 m1 + e')) <= 971 ->
  forall s', binary_round_aux 53 1024 sx m e l <> S754_infinity s'.
Proof.
  intros e' mrs' m1 Hle s'. unfold binary_round_aux.
  pose proof (shr_fexp_snd m e l) as H1. subst mrs' m1.
  destruct (shr_fexp 53 1024 m e l) as [mrs1 e1]. simpl in *. subst e1.
  pose proof (shr_fexp_snd (round_nearest_even (shr_m mrs1) (loc_of_shr_record mrs1)) e' loc_Exact) as H2.
  fold e'.
  destruct (shr_fexp 53 1024 _ e' loc_Exact) as [mrs2 e2]. simpl in H2. subst e2.
  destruct (shr_m mrs2); try discriminate.
  destruct (Z.leb_spec (Z.max e' (fexp64 (Zdigits2 (round_nearest_even (shr_m mrs1) (loc_of_shr_record mrs1)) + e'))) (1024 - 53)); [discriminate|lia].
Qed.


Lemma shl_align_spec mx ex ex' :
  snd (shl_align mx ex ex') = Z.min ex ex' /\
  Z.pos (fst (shl_align mx ex ex')) = Z.pos mx * 2 ^ (ex - Z.min ex ex').
Proof.
  unfold shl_align. destruct (ex' - ex) eqn:E; simpl.
  - replace (Z.min ex ex') with ex by lia. rewrite Z.sub_diag. simpl. lia.
  - replace (Z.min ex ex') with ex by lia. rewrite Z.sub_diag. simpl. lia.
  - replace (Z.min ex ex') with ex' by lia. split; [reflexivity|].
    change (Pos.iter xO mx p) with (shift_pos p mx).
    rewrite shift_pos_correct. replace (ex - ex') with (Z.pos p) by lia.
    rewrite Z.mul_comm. reflexivity.
Qed.

Lemma Zdigits2_mul_pow2 m k : 0 < m -> 0 <= k -> Zdigits2 (m * 2 ^ k) = Zdigits2 m + k.
Proof.
  intros Hm Hk.
  assert (0 < m * 2 ^ k) by (apply Z.mul_pos_pos; [lia|apply Z.pow_pos_nonneg; lia]).
  rewrite !Zdigits2_log2 by lia. rewrite Z.log2_mul_pow2 by lia. lia.
Qed.

Lemma Zdigits2_nonneg_le m k : 0 <= m -> 0 <= k -> m < 2 ^ k -> Zdigits2 m <= k.
Proof.
  intros Hm Hk Hlt. destruct (Z.eq_dec m 0) as [->|]; [simpl; lia|].
  apply Zdigits2_le; lia.
Qed.

Lemma binary_round_no_overflow sx mz ez :
  let E := Zdigits2 (Z.pos mz) + ez in
  E <= 1023 \/ (E = 1024 /\ ez < 971 /\ Z.testbit (Z.pos mz) (971 - ez - 1) = false) ->
  forall s', binary_round 53 1024 sx mz ez <> S754_infinity s'.
Proof.
  intros E HE s'. unfold binary_round. rewrite fexp_eq.
  change (Z.pos (digits2_pos mz)) with (Zdigits2 (Z.pos mz)). fold E.
  destruct (shl_align_spec mz ez (fexp64 E)) as [He1 Hm1].
  destruct (shl_align mz ez (fexp64 E)) as [m1 e1]. simpl in He1, Hm1. subst e1.
  set (e1 := Z.min ez (fexp64 E)) in *.
  assert (Hd1 : Zdigits2 (Z.pos m1) + e1 = E).
  { rewrite Hm1, Zdigits2_mul_pow2 by lia. unfold E. lia. }
  apply binary_round_aux_no_overflow. rewrite Hd1.
  assert (Hmax : Z.max e1 (fexp64 E) = fexp64 E) by lia. rewrite Hmax.
  set (mrs' := fst (shr_fexp 53 1024 (Z.pos m1) e1 loc_Exact)).
  assert (Hm' : shr_m mrs' = Z.pos m1 / 2 ^ (fexp64 E - e1)).
  { unfold mrs'. rewrite shr_fexp_m by lia. rewrite Hd1. f_equal. f_equal. lia. }
  assert (Hlt : 0 <= shr_m mrs' < 2 ^ 53).
  { rewrite Hm'. split; [apply Z.div_pos; [lia|apply Z.pow_pos_nonneg; lia]|].
    apply Z.div_lt_upper_bound; [apply Z.pow_pos_nonneg; lia|].
    rewrite <- Z.pow_add_r by lia.
    pose proof (Zdigits2_ge (Z.pos m1) ltac:(lia)) as [_ Hub].
    eapply Z.lt_le_trans; [exact Hub|].
    apply Z.pow_le_mono_r; [lia|]. unfold fexp64 in *. lia. }
  pose proof (rne_bounds (shr_m mrs') (loc_of_shr_record mrs')) as Hr.
  destruct HE as [HE|(HE & Hez & Hbit)].
  - assert (Zdigits2 (round_nearest_even (shr_m mrs') (loc_of_shr_record mrs')) <= 54).
    { apply Zdigits2_nonneg_le; lia. }
    unfold fexp64 in *. lia.
  - assert (He : e1 = ez) by (unfold e1, fexp64; lia).
    assert (Hmm : m1 = mz).
    { rewrite He, Z.sub_diag in Hm1. simpl in Hm1. lia. }
    subst m1. 
    assert (Hrf : shr_r mrs' = false).
    { unfold mrs'. rewrite shr_fexp_r; try lia.
      - rewrite Hd1, He. replace (fexp64 E) with 971 by (unfold fexp64; lia). exact Hbit.
      - rewrite Hd1, He. unfold fexp64; lia. }
    rewrite rne_r_false by exact Hrf.
    assert (Zdigits2 (shr_m mrs') <= 53) by (apply Zdigits2_nonneg_le; lia).
    unfold fexp64 in *. lia.
Qed.


Lemma binary_round_aux_signed sx m e l :
  0 <= m -> signed_as sx (binary_round_aux 53 1024 sx m e l).
Proof.
  intros Hm. unfold binary_round_aux.
  pose proof (shr_fexp_m m e l Hm) as H1.
  destruct (shr_fexp 53 1024 m e l) as [mrs1 e1]. simpl in H1.
  assert (H0 : 0 <= shr_m mrs1).
  { rewrite H1. apply Z.div_pos; [lia|apply Z.pow_pos_nonneg; lia]. }
  pose proof (rne_bounds (shr_m mrs1) (loc_of_shr_record mrs1)) as Hr.
  pose proof (shr_fexp_m (round_nearest_even (shr_m mrs1) (loc_of_shr_record mrs1)) e1 loc_Exact ltac:(lia)) as H2.
  destruct (shr_fexp 53 1024 _ e1 loc_Exact) as [mrs2 e2]. simpl in H2.
  assert (H3 : 0 <= shr_m mrs2).
  { rewrite H2. apply Z.div_pos; [lia|apply Z.pow_pos_nonneg; lia]. }
  destruct (shr_m mrs2); try lia; simpl; trivial.
  destruct (e2 <=? 1024 - 53); reflexivity.
Qed.

Lemma binary_round_signed sx mz ez : signed_as sx (binary_round 53 1024 sx mz ez).
Proof.
  unfold binary_round. destruct (shl_align mz ez _) as [m1 e1].
  apply binary_round_aux_signed. lia.
Qed.

Lemma Prim2SF_one : Prim2SF 1%float = one_sf.
Proof. reflexivity. Qed.

Lemma bounded_inv m e :
  bounded 53 1024 m e = true ->
  fexp64 (Zdigits2 (Z.pos m) + e) = e /\ e <= 971.
Proof.
  unfold bounded, canonical_mantissa. rewrite fexp_eq.
  intros H. apply andb_prop in H as [H1 H2].
  apply Z.eqb_eq in H1. apply Z.leb_le in H2. split; [exact H1|lia].
Qed.

(** Adding [1.0] to a finite double: the aligned integer sum. *)
Lemma SFadd_one_finite s m e :
  exists a b,
    a = Z.pos m * 2 ^ (e - Z.min e (-52)) /\
    b = 2 ^ (- Z.min e (-52)) /\
    SF64add (S754_finite s m e) one_sf
    = binary_normalize 53 1024 (cond_Zopp s a + b) (Z.min e (-52)) false.
Proof.
  unfold SF64add, SFadd, one_sf. cbv zeta.
  destruct (shl_align_spec m e (Z.min e (-52))) as [_ Ha].
  destruct (shl_align_spec 4503599627370496 (-52) (Z.min e (-52))) as [_ Hb].
  set (ez := Z.min e (-52)) in *.
  exists (Z.pos (fst (shl_align m e ez))), (Z.pos (fst (shl_align 4503599627370496 (-52) ez))).
  split; [|split].
  - rewrite Ha. f_equal. f_equal. lia.
  - rewrite Hb. replace (Z.min (-52) ez) with ez by lia.
    change (Z.pos 4503599627370496) with (2 ^ 52).
    rewrite <- Z.pow_add_r by lia. f_equal. lia.
  - reflexivity.
Qed.

Lemma SFadd_one_not_nan x : x <> S754_nan -> SF64add x one_sf <> S754_nan.
Proof.
  destruct x as [s|s| |s m e]; intros Hx; try congruence; try discriminate.
  destruct (SFadd_one_finite s m e) as (a & b & _ & _ & ->).
  unfold binary_normalize. destruct (cond_Zopp s a + b) as [|p|p]; try discriminate.
  - pose proof (binary_round_signed false p (Z.min e (-52))) as H.
    intros Heq. rewrite Heq in H. exact H.
  - pose proof (binary_round_signed true p (Z.min e (-52))) as H.
    intros Heq. rewrite Heq in H. exact H.
Qed.

Lemma SFadd_one_not_pinf x :
  SpecFloat.valid_binary 53 1024 x = true -> x <> S754_infinity false ->
  SF64add x one_sf <> S754_infinity false.
Proof.
  destruct x as [s|s| |s m e]; intros Hv Hx; try discriminate.
  - destruct s; [discriminate|congruence].
  - simpl in Hv. apply bounded_inv in Hv as [Hcan He].
    destruct (SFadd_one_finite s m e) as (a & b & Ha & Hb & ->).
    set (ez := Z.min e (-52)) in *.
    assert (Hm53 : Z.pos m < 2 ^ 53).
    { pose proof (Zdigits2_ge (Z.pos m) ltac:(lia)) as [_ Hub].
      eapply Z.lt_le_trans; [exact Hub|]. apply Z.pow_le_mono_r; [lia|].
      unfold fexp64 in Hcan. lia. }
    assert (Hbpos : 0 < b) by (subst b; apply Z.pow_pos_nonneg; lia).
    assert (Hapos : 0 < a).
    { subst a. apply Z.mul_pos_pos; [lia|apply Z.pow_pos_nonneg; lia]. }
    unfold binary_normalize. destruct (cond_Zopp s a + b) as [|p|p] eqn:Hsum; try discriminate.
    + destruct s.
      * (* negative operand: the sum stays below 1 *)
        apply binary_round_no_overflow. left.
        assert (Zdigits2 (Z.pos p) <= - ez).
        { apply Zdigits2_le; [lia|]. simpl in Hsum. rewrite <- Hb. lia. }
        lia.
      * simpl in Hsum.
        destruct (Z.le_gt_cases e 970) as [Hle|Hgt].
        -- apply binary_round_no_overflow. left.
           assert (Zdigits2 (Z.pos p) <= 1023 - ez).
           { apply Zdigits2_le; [lia|]. rewrite <- Hsum.
             assert (Hu : 2 ^ (e - ez) <= 2 ^ 970 * b).
             { subst b. rewrite <- Z.pow_add_r by lia.
               apply Z.pow_le_mono_r; lia. }
             assert (Ha' : a <= (2 ^ 53 - 1) * (2 ^ 970 * b)).
             { subst a. apply Z.mul_le_mono_nonneg; lia. }
             replace (1023 - ez) with (1023 + - ez) by lia.
             rewrite Z.pow_add_r by lia. rewrite <- Hb. lia. }
           lia.
        -- assert (e = 971) by lia. subst e.
           assert (Hez : ez = -52) by (unfold ez; lia).
           assert (Hd : Zdigits2 (Z.pos m) = 53) by (unfold fexp64 in Hcan; lia).
           pose proof (Zdigits2_ge (Z.pos m) ltac:(lia)) as [Hlb _].
           rewrite Hd in Hlb. change (53 - 1) with 52 in Hlb.
           rewrite Hez in *. change (971 - -52) with 1023 in Ha.
           change (- -52) with 52 in Hb.
           apply binary_round_no_overflow. right.
           assert (Hp : Z.pos p = Z.pos m * 2 ^ 1023 + 2 ^ 52) by lia.
           split; [|split; [lia|]].
           ++ assert (Zdigits2 (Z.pos p) <= 1076) by (apply Zdigits2_le; lia).
              assert (1075 <= Z.log2 (Z.pos p)) by (apply Z.log2_le_pow2; lia).
              rewrite Zdigits2_log2 in * by lia. lia.
           ++ change (971 - -52 - 1) with 1022.
              rewrite <- (Z.mod_pow2_bits_low (Z.pos p) 1023 1022) by lia.
              rewrite Hp, Z.add_comm, Z_mod_plus_full. reflexivity.
    + pose proof (binary_round_signed true p ez) as H.
      intros Heq. rewrite Heq in H. discriminate H.
Qed.


End FloatFacts.

(** ** Python's float comparisons *)

Module PyFloatFacts.
Import Binary64 PyFloat FloatFacts.

Lemma is_nan_spec a : is_nan a = true <-> Prim2SF a = S754_nan.
Proof.
  unfold is_nan, PrimFloat.is_nan. rewrite FloatAxioms.eqb_spec. unfold SFeqb.
  destruct (Prim2SF a) as [s|s| |s m e] eqn:E.
  1,2,4: rewrite SFcompare_refl by discriminate; simpl; split; discriminate.
  simpl. split; reflexivity.
Qed.

Lemma not_nan_spec a : is_nan a = false <-> Prim2SF a <> S754_nan.
Proof.
  rewrite <- is_nan_spec. destruct (is_nan a); split; congruence.
Qed.

Lemma lt_irrefl a : lt a a = false.
Proof.
  unfold lt. rewrite ltb_spec. unfold SFltb.
  destruct (Prim2SF a) as [s|s| |s m e] eqn:E.
  1,2,4: rewrite SFcompare_refl by discriminate; reflexivity.
  reflexivity.
Qed.

Lemma lt_asym a b : lt a b = true -> lt b a = false.
Proof.
  unfold lt. rewrite !ltb_spec. unfold SFltb.
  rewrite (SFcompare_antisym (Prim2SF a) (Prim2SF b)).
  destruct (SFcompare (Prim2SF a) (Prim2SF b)) as [[]|]; simpl; congruence.
Qed.

Lemma lt_le a b : lt a b = true -> le a b = true.
Proof.
  unfold lt, le. rewrite ltb_spec, leb_spec. unfold SFltb, SFleb.
  destruct (SFcompare (Prim2SF a) (Prim2SF b)) as [[]|]; congruence.
Qed.

Lemma le_not_gt a b : le a b = true -> gt a b = false.
Proof.
  unfold gt, le. rewrite ltb_spec, leb_spec. unfold SFltb, SFleb.
  rewrite (SFcompare_antisym (Prim2SF a) (Prim2SF b)).
  destruct (SFcompare (Prim2SF a) (Prim2SF b)) as [[]|]; simpl; congruence.
Qed.

Lemma le_SFle a b : le a b = true <-> SFle (Prim2SF a) (Prim2SF b).
Proof.
  unfold le, SFle. rewrite leb_spec. unfold SFleb.
  destruct (SFcompare (Prim2SF a) (Prim2SF b)) as [[]|]; simpl; split; congruence || tauto.
Qed.

Lemma le_trans a b c : le a b = true -> le b c = true -> le a c = true.
Proof. rewrite !le_SFle. apply SFle_trans. Qed.

Lemma le_refl a : is_nan a = false -> le a a = true.
Proof.
  rewrite not_nan_spec, le_SFle. unfold SFle. intros H.
  now rewrite SFcompare_refl.
Qed.

Lemma le_not_nan_l a b : le a b = true -> is_nan a = false.
Proof.
  rewrite le_SFle, not_nan_spec. unfold SFle. intros H E. rewrite E in H. exact H.
Qed.

Lemma le_not_nan_r a b : le a b = true -> is_nan b = false.
Proof.
  rewrite le_SFle, not_nan_spec. unfold SFle. intros H E. rewrite E in H.
  destruct (Prim2SF a); exact H.
Qed.

Lemma Prim2SF_INF : Prim2SF INF = S754_infinity false.
Proof. reflexivity. Qed.

(** Nothing is greater than [float('inf')]. *)
Lemma lt_INF_false a : lt INF a = false.
Proof.
  unfold lt. rewrite ltb_spec, Prim2SF_INF. unfold SFltb.
  destruct (Prim2SF a) as [s|[]| |s m e]; reflexivity.
Qed.

Lemma le_INF a : is_nan a = false -> le a INF = true.
Proof.
  rewrite not_nan_spec. unfold le. rewrite leb_spec, Prim2SF_INF. unfold SFleb.
  destruct (Prim2SF a) as [s|[]| |[] m e]; try reflexivity. congruence.
Qed.

(** [reported_value >= INF] holds for [+inf] and for nothing else. *)
Lemma ge_INF_iff a : ge a INF = true <-> a = INF.
Proof.
  split.
  - unfold ge. rewrite leb_spec, Prim2SF_INF. unfold SFleb. intros H.
    rewrite <- (SF2Prim_Prim2SF a).
    destruct (Prim2SF a) as [s|[]| |s m e]; try discriminate. reflexivity.
  - intros ->. reflexivity.
Qed.

Lemma ge_INF_false a : a <> INF -> ge a INF = false.
Proof.
  intros H. destruct (ge a INF) eqn:E; [|reflexivity].
  apply ge_INF_iff in E. contradiction.
Qed.

Lemma Prim2SF_add_one c : Prim2SF (c + 1)%float = SF64add (Prim2SF c) one_sf.
Proof. rewrite add_spec. reflexivity. Qed.

(** [c + 1.0] is never [+inf] unless [c] is. *)
Lemma add_one_not_INF c : c <> INF -> (c + 1)%float <> INF.
Proof.
  intros Hc Heq. apply (f_equal Prim2SF) in Heq.
  rewrite Prim2SF_add_one, Prim2SF_INF in Heq.
  revert Heq. apply SFadd_one_not_pinf.
  - apply Prim2SF_valid.
  - intros E. apply Hc. rewrite <- (SF2Prim_Prim2SF c), E. reflexivity.
Qed.

(** [c + 1.0] is NaN only if [c] is. *)
Lemma add_one_not_nan c : is_nan c = false -> is_nan (c + 1)%float = false.
Proof.
  rewrite !not_nan_spec, Prim2SF_add_one. apply SFadd_one_not_nan.
Qed.

(** A non-negative report gives a candidate that is not below zero. *)
Lemma add_one_nonneg c : le 0%float c = true -> lt (c + 1)%float 0%float = false.
Proof.
  unfold le, lt. rewrite leb_spec, ltb_spec, Prim2SF_add_one.
  change (Prim2SF 0%float) with (S754_zero false).
  unfold SFleb, SFltb.
  destruct (Prim2SF c) as [s|[]| |[] m e]; try discriminate; intros _; try reflexivity.
  destruct (SFadd_one_finite false m e) as (a & b & Ha & Hb & ->).
  assert (0 < a)%Z.
  { subst a. apply Z.mul_pos_pos; [lia|apply Z.pow_pos_nonneg; lia]. }
  assert (0 < b)%Z by (subst b; apply Z.pow_pos_nonneg; lia).
  unfold binary_normalize. simpl cond_Zopp.
  destruct (a + b)%Z as [|p|p] eqn:Hs; try lia.
  pose proof (binary_round_signed false p (Z.min e (-52))) as Hsg.
  destruct (binary_round 53 1024 false p (Z.min e (-52))) as [s|s| |s m' e'];
    simpl in Hsg; subst; try contradiction; reflexivity.
Qed.

End PyFloatFacts.

(** ** node.py: the routing table *)

Module NodeFacts.
Import PyFloat PyFloatFacts Node.

(** The three ways out of [update] for a report that is not [+inf]. *)
Lemma update_rejects_INF n nb now : update n nb INF now = (false, n).
Proof. reflexivity. Qed.

Lemma update_no_entry n nb c now :
  c <> INF -> _table n !! host_fp n = None ->
  update n nb c now = (true, table_set n (host_fp n) (mkEntry (c + 1) (Some nb) now)).
Proof.
  intros Hc Hnone. unfold update. rewrite ge_INF_false by exact Hc.
  cbv zeta. now rewrite Hnone.
Qed.

Lemma update_better n nb c now cur :
  c <> INF -> _table n !! host_fp n = Some cur -> lt (c + 1) (value cur) = true ->
  update n nb c now = (true, table_set n (host_fp n) (mkEntry (c + 1) (Some nb) now)).
Proof.
  intros Hc Hcur Hlt. unfold update. rewrite ge_INF_false by exact Hc.
  cbv zeta. now rewrite Hcur, Hlt.
Qed.

Lemma update_not_better n nb c now cur :
  _table n !! host_fp n = Some cur -> lt (c + 1) (value cur) = false ->
  update n nb c now = (false, n).
Proof.
  intros Hcur Hlt. unfold update. destruct (ge c INF); [reflexivity|].
  cbv zeta. now rewrite Hcur, Hlt.
Qed.

Lemma update_host_fp n nb c now : host_fp (snd (update n nb c now)) = host_fp n.
Proof.
  unfold update. destruct (ge c INF); [reflexivity|]. cbv zeta.
  destruct (_table n !! host_fp n) as [cur|]; [destruct (lt _ _)|]; reflexivity.
Qed.

Lemma update_self_fp n nb c now : self_fp (snd (update n nb c now)) = self_fp n.
Proof.
  unfold update. destruct (ge c INF); [reflexivity|]. cbv zeta.
  destruct (_table n !! host_fp n) as [cur|]; [destruct (lt _ _)|]; reflexivity.
Qed.

Lemma stored_cost_table_set n e : stored_cost (table_set n (host_fp n) e) = value e.
Proof.
  unfold stored_cost, get_pheromone_value, table_set. simpl.
  now rewrite lookup_insert_eq.
Qed.

(** [update] returns [True] exactly when it wrote the candidate entry. *)
Lemma update_cases n nb c now :
  (fst (update n nb c now) = true /\
   snd (update n nb c now) = table_set n (host_fp n) (mkEntry (c + 1) (Some nb) now) /\
   c <> INF /\
   (_table n !! host_fp n = None \/
    exists cur, _table n !! host_fp n = Some cur /\ lt (c + 1) (value cur) = true))
  \/
  (fst (update n nb c now) = false /\ snd (update n nb c now) = n).
Proof.
  unfold update. destruct (ge c INF) eqn:Hge; [right; split; reflexivity|].
  assert (Hc : c <> INF) by (intros ->; discriminate Hge).
  cbv zeta. destruct (_table n !! host_fp n) as [cur|] eqn:Hcur.
  - destruct (lt (c + 1) (value cur)) eqn:Hlt.
    + left. repeat split; try assumption. right. exists cur. split; [reflexivity|assumption].
    + right. split; reflexivity.
  - left. repeat split; try assumption. left. reflexivity.
Qed.

(** One call never raises the stored cost. *)
Lemma update_never_rises n nb c now :
  gt (stored_cost (snd (update n nb c now))) (stored_cost n) = false.
Proof.
  destruct (update_cases n nb c now) as [(_ & -> & Hc & Hwhy)|(_ & ->)].
  - rewrite stored_cost_table_set. simpl. unfold gt, stored_cost, get_pheromone_value.
    destruct Hwhy as [->|(cur & -> & Hlt)].
    + apply lt_INF_false.
    + apply lt_asym. exact Hlt.
  - apply lt_irrefl.
Qed.

(** Away from NaN the new stored cost is at most the old one, and it is not
    NaN either. *)
Lemma update_non_increasing n nb c now :
  is_nan (stored_cost n) = false -> is_nan c = false ->
  le (stored_cost (snd (update n nb c now))) (stored_cost n) = true /\
  is_nan (stored_cost (snd (update n nb c now))) = false.
Proof.
  intros Hn Hc.
  destruct (update_cases n nb c now) as [(_ & -> & _ & Hwhy)|(_ & ->)].
  - rewrite stored_cost_table_set. simpl. split; [|now apply add_one_not_nan].
    unfold stored_cost, get_pheromone_value.
    destruct Hwhy as [->|(cur & -> & Hlt)].
    + apply le_INF. now apply add_one_not_nan.
    + apply lt_le. exact Hlt.
  - split; [now apply le_refl|assumption].
Qed.

Lemma cost_trace_never_rises n rs : never_rises (cost_trace n rs).
Proof.
  revert n. induction rs as [|r rs IH]; intros n; simpl; [exact I|].
  specialize (IH (apply_report n r)).
  destruct rs as [|r' rs']; simpl in *; (split; [apply update_never_rises|exact IH]).
Qed.

Lemma cost_trace_non_increasing n rs :
  is_nan (stored_cost n) = false ->
  Forall (fun r => is_nan (r_cost r) = false) rs ->
  non_increasing (cost_trace n rs).
Proof.
  revert n. induction rs as [|r rs IH]; intros n Hn Hrs; simpl; [exact I|].
  inversion Hrs as [|? ? Hr Hrs']; subst.
  destruct (update_non_increasing n (r_neighbor r) (r_cost r) (r_now r) Hn Hr) as [Hle Hnan].
  specialize (IH (apply_report n r) Hnan Hrs').
  destruct rs as [|r' rs']; simpl in *; (split; [exact Hle|exact IH]).
Qed.

(** C1. Routing convergence.  [update] rejects a report of [+inf] (false,
    table unchanged); for any other report [c] it computes the candidate
    [c + 1.0] and writes the entry [(candidate, neighbor, now)] for the host
    exactly when there is no entry or the candidate is strictly below the
    stored cost, returning [True] exactly then (otherwise [False] with the
    table unchanged).  A report that is taken therefore stores exactly
    [c + 1.0], never less.  Along every sequence of [update] calls the stored
    cost never rises, and it is non-increasing ([new <= old] at every call)
    whenever no NaN is involved. *)
Theorem update_routing_convergence :
  (forall n nb now, update n nb INF now = (false, n)) /\
  (forall n nb c now, c <> INF ->
     let candidate := (c + 1)%float in
     let written := table_set n (host_fp n) (mkEntry candidate (Some nb) now) in
     let improves :=
       _table n !! host_fp n = None \/
       (exists cur, _table n !! host_fp n = Some cur /\ lt candidate (value cur) = true) in
     (improves -> update n nb c now = (true, written)) /\
     (~ improves -> update n nb c now = (false, n)) /\
     _table written !! host_fp n = Some (mkEntry candidate (Some nb) now)) /\
  (forall n nb c now, fst (update n nb c now) = true ->
     stored_cost (snd (update n nb c now)) = (c + 1)%float /\
     lt (stored_cost (snd (update n nb c now))) (c + 1)%float = false) /\
  (forall n rs, never_rises (cost_trace n rs)) /\
  (forall n rs,
     is_nan (stored_cost n) = false ->
     Forall (fun r => is_nan (r_cost r) = false) rs ->
     non_increasing (cost_trace n rs)).
Proof.
  split; [exact update_rejects_INF|].
  split.
  { intros n nb c now Hc candidate written improves. split; [|split].
    - intros [Hnone|(cur & Hcur & Hlt)].
      + now apply update_no_entry.
      + now apply update_better with cur.
    - intros Hno. destruct (_table n !! host_fp n) as [cur|] eqn:Hcur.
      + apply update_not_better with cur; [exact Hcur|].
        destruct (lt (c + 1) (value cur)) eqn:Hlt; [|reflexivity].
        exfalso. apply Hno. right. exists cur. split; [reflexivity|exact Hlt].
      + exfalso. apply Hno. left. reflexivity.
    - unfold written, table_set. simpl. apply lookup_insert_eq. }
  split.
  { intros n nb c now Htrue.
    destruct (update_cases n nb c now) as [(_ & Hw & _)|(Hf & _)]; [|congruence].
    rewrite Hw, stored_cost_table_set. simpl. split; [reflexivity|apply lt_irrefl]. }
  split; [exact cost_trace_never_rises|exact cost_trace_non_increasing].
Qed.

(** The theorem at a run of three reports on a node that is not the host. *)
Lemma update_routing_convergence_witness :
  non_increasing
    (cost_trace (__init__ "A" "H" 0%float)
       [mkReport "B" 0%float 1%float; mkReport "C" 5%float 2%float;
        mkReport "D" (-0.5)%float 3%float]).
Proof.
  apply (proj2 (proj2 (proj2 (proj2 update_routing_convergence)))).
  - reflexivity.
  - repeat constructor.
Defined.

(** C6. The concrete scenario: on a node that is not the host, starting
    from the empty table, [update("B", 0.0)] gives cost [1.0] through ["B"];
    [update("C", 5.0)] changes nothing; [update("D", -0.5)] gives cost [0.5]
    through ["D"]. *)
Theorem concrete_scenario self host t0 t1 t2 t3 :
  self <> host ->
  let n0 := __init__ self host t0 in
  let r1 := update n0 "B" 0%float t1 in
  let r2 := update (snd r1) "C" 5%float t2 in
  let r3 := update (snd r2) "D" (-0.5)%float t3 in
  _table n0 = ∅ /\
  fst r1 = true /\
  get_pheromone_value (snd r1) host = 1%float /\
  get_next_hop (snd r1) host = Some "B" /\
  fst r2 = false /\
  snd r2 = snd r1 /\
  fst r3 = true /\
  get_next_hop (snd r3) host = Some "D" /\
  get_pheromone_value (snd r3) host = 0.5%float.
Proof.
  intros Hne n0 r1 r2 r3.
  assert (H0 : n0 = mkNode self host ∅).
  { unfold n0, __init__. destruct (decide (self = host)); [contradiction|reflexivity]. }
  assert (H1 : r1 = (true, mkNode self host (<[host := mkEntry 1%float (Some "B") t1]> ∅))).
  { unfold r1. rewrite H0. apply (update_no_entry (mkNode self host ∅)); [discriminate|].
    simpl. apply lookup_empty. }
  assert (H2 : r2 = (false, snd r1)).
  { unfold r2. rewrite H1. simpl snd.
    eapply update_not_better; simpl; [apply lookup_insert_eq|reflexivity]. }
  assert (H3 : r3 = (true, table_set (snd r1) host (mkEntry 0.5%float (Some "D") t3))).
  { unfold r3. rewrite H2. simpl snd. rewrite H1. simpl snd.
    eapply (update_better (mkNode self host _)); simpl;
      [discriminate|apply lookup_insert_eq|reflexivity]. }
  rewrite H3, H2, H1. simpl fst. simpl snd. rewrite H0.
  unfold get_pheromone_value, get_next_hop, table_set. simpl.
  rewrite !lookup_insert_eq. simpl.
  repeat split.
Qed.

Lemma concrete_scenario_witness :
  get_pheromone_value
    (snd (update (snd (update (snd (update (__init__ "A" "H" 0%float) "B" 0%float 1%float))
                         "C" 5%float 2%float)) "D" (-0.5)%float 3%float)) "H"
  = 0.5%float.
Proof.
  apply (concrete_scenario "A" "H" 0%float 1%float 2%float 3%float).
  discriminate.
Defined.

(** *** The host's own entry *)

Lemma step_self_fp n o : self_fp (step n o) = self_fp n.
Proof. destruct o; simpl; [apply update_self_fp|reflexivity]. Qed.

Lemma step_host_fp n o : host_fp (step n o) = host_fp n.
Proof. destruct o; simpl; [apply update_host_fp|reflexivity]. Qed.

(** The aging pass never deletes the entry stored under the node's own
    fingerprint. *)
Lemma decay_keeps_self n now e :
  _table n !! self_fp n = Some e -> _table (_decay_loop_pass n now) !! self_fp n = Some e.
Proof.
  intros H. unfold _decay_loop_pass. simpl. apply map_lookup_filter_Some. split; [exact H|].
  unfold stale. simpl. now rewrite bool_decide_eq_true_2.
Qed.

Lemma host_entry_kept h t0 ops :
  Forall harmless ops ->
  _table (run (__init__ h h t0) ops) !! h = Some (mkEntry 0%float None t0).
Proof.
  intros Hops.
  assert (Hinit : let n := __init__ h h t0 in
            self_fp n = h /\ host_fp n = h /\ _table n !! h = Some (mkEntry 0%float None t0)).
  { unfold __init__. destruct (decide (h = h)); [|contradiction]. simpl.
    repeat split. apply lookup_insert_eq. }
  revert Hinit. generalize (__init__ h h t0) as n. unfold run.
  induction Hops as [|o ops Ho Hops IH]; intros n (Hs & Hh & He); simpl; [exact He|].
  apply IH. rewrite step_self_fp, step_host_fp. repeat split; try assumption.
  destruct o as [nb c now|now]; simpl in *.
  - erewrite update_not_better; [exact He|rewrite Hh; exact He|exact Ho].
  - rewrite <- Hs. apply decay_keeps_self. now rewrite Hs.
Qed.

Lemma host_entry_kept_nonneg h t0 ops :
  Forall (fun o => match o with Update _ c _ => le 0%float c = true | Decay _ => True end) ops ->
  get_pheromone_value (run (__init__ h h t0) ops) h = 0%float /\
  get_next_hop (run (__init__ h h t0) ops) h = None.
Proof.
  intros Hops. unfold get_pheromone_value, get_next_hop.
  rewrite host_entry_kept; [split; reflexivity|].
  eapply Forall_impl; [exact Hops|]. intros [nb c now|now]; simpl; [apply add_one_nonneg|trivial].
Qed.

(** C4. On a node that is the host, [update] does not protect the host's
    entry: a report of cost [-2.0] has candidate [-1.0 < 0.0], so the entry
    [(0.0, None)] is replaced, the call returns [True], and the node then
    reports cost [-1.0] with next hop ["D"]. *)
Theorem host_entry_overwritten_by_negative_report h t0 t1 :
  let n0 := __init__ h h t0 in
  let r := update n0 "D" (-2)%float t1 in
  _table n0 !! h = Some (mkEntry 0%float None t0) /\
  fst r = true /\
  get_pheromone_value (snd r) h = (-1)%float /\
  get_next_hop (snd r) h = Some "D".
Proof.
  intros n0 r.
  assert (H0 : n0 = mkNode h h (<[h := mkEntry 0%float None t0]> ∅)).
  { unfold n0, __init__. destruct (decide (h = h)); [reflexivity|contradiction]. }
  assert (Hr : r = (true, table_set n0 h (mkEntry (-1)%float (Some "D") t1))).
  { unfold r. rewrite H0.
    eapply (update_better (mkNode h h _)); simpl;
      [discriminate|apply lookup_insert_eq|reflexivity]. }
  rewrite Hr, H0. unfold get_pheromone_value, get_next_hop, table_set. simpl.
  rewrite !lookup_insert_eq. simpl. repeat split.
Qed.

(** *** Entries of a node that is not the host *)

Lemma step_routed n o :
  (forall fp e, _table n !! fp = Some e -> routed e) ->
  forall fp e, _table (step n o) !! fp = Some e -> routed e.
Proof.
  intros Hn fp e. destruct o as [nb c now|now]; simpl.
  - destruct (update_cases n nb c now) as [(_ & -> & Hc & _)|(_ & ->)]; [|apply Hn].
    unfold table_set. simpl. intros [[_ <-]|[_ He]]%lookup_insert_Some.
    + split; simpl; [discriminate|]. now apply add_one_not_INF.
    + now apply (Hn fp).
  - unfold _decay_loop_pass. simpl. intros [He _]%map_lookup_filter_Some. now apply (Hn fp).
Qed.

Lemma run_routed n ops :
  (forall fp e, _table n !! fp = Some e -> routed e) ->
  forall fp e, _table (run n ops) !! fp = Some e -> routed e.
Proof.
  unfold run. revert n. induction ops as [|o ops IH]; intros n Hn; simpl; [exact Hn|].
  apply IH. now apply step_routed.
Qed.

(** C8 (as amended).  On a node that is not the host, every entry reachable
    by [update] calls and aging passes has a next hop and a cost other than
    [+inf], so [next_hop is None] and [cost == +inf] are equivalent for it
    (both false); a destination without an entry reads as cost [+inf] with
    no next hop. *)
Theorem route_entry_invariant_off_host self host t0 ops :
  self <> host ->
  let n := run (__init__ self host t0) ops in
  (forall fp e, _table n !! fp = Some e ->
     next_hop e <> None /\ value e <> INF /\ (next_hop e = None <-> value e = INF)) /\
  (forall fp, _table n !! fp = None ->
     get_next_hop n fp = None /\ get_pheromone_value n fp = INF).
Proof.
  intros Hne n. split.
  - intros fp e He.
    assert (Hr : routed e).
    { apply (run_routed (__init__ self host t0) ops) with fp; [|exact He].
      unfold __init__. destruct (decide (self = host)); [contradiction|].
      simpl. intros fp' e'. rewrite lookup_empty. discriminate. }
    destruct Hr as [Hh Hv]. repeat split; try assumption; intros; contradiction.
  - intros fp Hnone. unfold get_next_hop, get_pheromone_value. rewrite Hnone.
    split; reflexivity.
Qed.

Lemma route_entry_invariant_off_host_witness :
  next_hop (mkEntry 1%float (Some "B") 1%float) <> None /\
  value (mkEntry 1%float (Some "B") 1%float) <> INF /\
  (next_hop (mkEntry 1%float (Some "B") 1%float) = None <->
   value (mkEntry 1%float (Some "B") 1%float) = INF).
Proof.
  apply (proj1 (route_entry_invariant_off_host "A" "H" 0%float [Update "B" 0%float 1%float]
                  ltac:(discriminate)) "H" (mkEntry 1%float (Some "B") 1%float)).
  reflexivity.
Defined.

(** C8 as stated fails on the host itself: its initial entry has no next
    hop although its cost is [0.0]. *)
Lemma route_entry_invariant_fails_on_host :
  ~ (forall self host t0 ops fp e,
       _table (run (__init__ self host t0) ops) !! fp = Some e ->
       (next_hop e = None <-> value e = INF)).
Proof.
  intros H.
  specialize (H "H" "H" 0%float [] "H" (mkEntry 0%float None 0%float) eq_refl).
  destruct H as [H _]. specialize (H eq_refl). simpl in H.
  apply (f_equal Prim2SF) in H. vm_compute in H. discriminate H.
Qed.

End NodeFacts.

(** ** mailbag.py: chunking, resumption, discovery *)

Module MailbagFacts.
Import Mailbag.

Lemma ceil_div_least s k :
  (0 < k)%Z -> (0 <= s)%Z ->
  (s <= ceil_div s k * k)%Z /\ (forall n, (s <= n * k)%Z -> (ceil_div s k <= n)%Z).
Proof.
  intros Hk Hs. unfold ceil_div.
  pose proof (Z.div_mod s k ltac:(lia)) as Hdm.
  pose proof (Z.mod_pos_bound s k Hk) as Hm.
  destruct (Z.eqb_spec (s mod k) 0) as [E|E]; split; try intros n Hn; nia.
Qed.

Lemma ceil_div_code s k :
  (0 < k)%Z -> (0 <= s)%Z -> ((s + k - 1) / k)%Z = ceil_div s k.
Proof.
  intros Hk Hs. unfold ceil_div.
  pose proof (Z.div_mod s k ltac:(lia)) as Hdm.
  pose proof (Z.mod_pos_bound s k Hk) as Hm.
  symmetry. apply Z.div_unique with (r := (if (s mod k =? 0)%Z then k - 1 else s mod k - 1)%Z);
    destruct (Z.eqb_spec (s mod k) 0); lia.
Qed.

Lemma total_chunks_spec k content :
  0 < k -> _total_chunks k content = Z.max 1 (ceil_div (Z.of_nat (length content)) (Z.of_nat k)).
Proof.
  intros Hk. unfold _total_chunks. cbv zeta. rewrite ceil_div_code by lia. reflexivity.
Qed.

Lemma ceil_div_0 k : (0 < k)%Z -> ceil_div 0 k = 0%Z.
Proof.
  intros Hk. unfold ceil_div. rewrite Z.mod_0_l, Z.div_0_l by lia. reflexivity.
Qed.

Lemma ceil_div_pos s k : (0 < k)%Z -> (0 < s)%Z -> (1 <= ceil_div s k)%Z.
Proof.
  intros Hk Hs. destruct (ceil_div_least s k Hk ltac:(lia)) as [Hub _]. nia.
Qed.

(** The loop of [_iter_chunks], one iteration unfolded. *)
Lemma iter_chunks_loop_unfold k rest idx :
  iter_chunks_loop k rest idx =
  match take k rest with
  | [] => []
  | data => (idx, data) :: iter_chunks_loop k (drop k rest) (idx + 1)
  end.
Proof.
  rewrite iter_chunks_loop_equation_1.
  destruct (inspect (take k rest)) as [l Hl].
  destruct l as [|b data]; simpl; rewrite Hl; reflexivity.
Qed.

Lemma take_pos_nil {A} k (l : list A) : 0 < k -> take k l = [] -> l = [].
Proof. intros Hk H. apply take_nil_inv in H as [H|H]; [lia|exact H]. Qed.

(** The [j]-th element the generator yields. *)
Lemma iter_chunks_loop_lookup k rest idx j :
  0 < k ->
  iter_chunks_loop k rest idx !! j =
  if decide (j * k < length rest)
  then Some ((idx + Z.of_nat j)%Z, chunk k rest j)
  else None.
Proof.
  intros Hk. revert rest idx. induction j as [|j IH]; intros rest idx;
    rewrite iter_chunks_loop_unfold.
  - destruct (take k rest) as [|b data] eqn:E.
    + apply take_pos_nil in E; [|exact Hk]. subst rest. reflexivity.
    + destruct rest as [|b' rest']; [destruct k; discriminate|].
      simpl length. case_decide; [|lia]. simpl.
      unfold chunk. simpl drop. rewrite E. f_equal. f_equal. lia.
  - destruct (take k rest) as [|b data] eqn:E.
    + apply take_pos_nil in E; [|exact Hk]. subst rest.
      case_decide as Hd; [simpl in Hd; lia|reflexivity].
    + simpl lookup. rewrite IH, length_drop. unfold chunk. rewrite drop_drop.
      replace (k + j * k) with (S j * k) by lia.
      repeat case_decide; try lia; [|reflexivity].
      f_equal. f_equal. lia.
Qed.

Lemma nchunks_lt k len j : 0 < k -> j < nchunks k len <-> j * k < len.
Proof.
  intros Hk. unfold nchunks. split; intros H.
  - destruct (Nat.lt_ge_cases (j * k) len) as [|Hge]; [assumption|exfalso].
    assert ((len + k - 1) / k < S j); [|lia].
    apply Nat.Div0.div_lt_upper_bound; lia.
  - assert (S j <= (len + k - 1) / k); [|lia].
    apply Nat.div_le_lower_bound; lia.
Qed.

Lemma nchunks_ceil_div k len :
  0 < k -> Z.of_nat (nchunks k len) = ceil_div (Z.of_nat len) (Z.of_nat k).
Proof.
  intros Hk. rewrite <- ceil_div_code by lia. unfold nchunks.
  rewrite Nat2Z.inj_div. f_equal. lia.
Qed.

Lemma iter_chunks_loop_length k rest idx :
  0 < k -> length (iter_chunks_loop k rest idx) = nchunks k (length rest).
Proof.
  intros Hk. set (l := iter_chunks_loop k rest idx).
  destruct (Nat.lt_trichotomy (length l) (nchunks k (length rest))) as [Hlt|[Heq|Hgt]];
    [exfalso|exact Heq|exfalso].
  - pose proof (iter_chunks_loop_lookup k rest idx (length l) Hk) as H.
    fold l in H. rewrite lookup_ge_None_2 in H by lia.
    apply nchunks_lt in Hlt; [|exact Hk]. case_decide; [discriminate|contradiction].
  - pose proof (iter_chunks_loop_lookup k rest idx (nchunks k (length rest)) Hk) as H.
    fold l in H. destruct (lookup_lt_is_Some_2 l _ Hgt) as [x Hx]. rewrite Hx in H.
    case_decide as Hd; [|discriminate].
    apply nchunks_lt in Hd; [lia|exact Hk].
Qed.

(** The generator yields [(idx, chunk 0); (idx+1, chunk 1); ...]. *)
Lemma iter_chunks_loop_spec k rest idx :
  0 < k ->
  iter_chunks_loop k rest idx =
  (fun j => ((idx + Z.of_nat j)%Z, chunk k rest j)) <$> seq 0 (nchunks k (length rest)).
Proof.
  intros Hk. apply list_eq. intros j.
  rewrite iter_chunks_loop_lookup by exact Hk. rewrite list_lookup_fmap.
  destruct (decide (j * k < length rest)) as [Hj|Hj].
  - rewrite lookup_seq_lt by (apply nchunks_lt; assumption). reflexivity.
  - rewrite lookup_seq_ge; [reflexivity|].
    destruct (Nat.le_gt_cases (nchunks k (length rest)) j) as [|Hlt]; [assumption|].
    apply nchunks_lt in Hlt; [contradiction|exact Hk].
Qed.

(** Concatenating the first [n] chunks gives the first [n * k] bytes. *)
Lemma concat_chunks k content n :
  concat (chunk k content <$> seq 0 n) = take (n * k) content.
Proof.
  induction n as [|n IH]; [reflexivity|].
  rewrite seq_S, fmap_app, concat_app, IH. simpl. rewrite app_nil_r.
  unfold chunk. rewrite take_take_drop. f_equal. lia.
Qed.

Lemma concat_all_chunks k content :
  0 < k -> concat (chunk k content <$> seq 0 (nchunks k (length content))) = content.
Proof.
  intros Hk. rewrite concat_chunks. apply take_ge.
  destruct (Nat.le_gt_cases (length content) (nchunks k (length content) * k)) as [|Hlt];
    [assumption|].
  apply nchunks_lt in Hlt; [lia|exact Hk].
Qed.

(** *** Persisted state and pending indices *)

Lemma elem_of_pending_indices fs i :
  i ∈ pending_indices fs <-> (0 <= i < total fs)%Z /\ i ∉ sent fs.
Proof.
  unfold pending_indices. rewrite list_elem_of_filter, elem_of_seqZ.
  split; intros [H1 H2]; split; assumption || lia.
Qed.

Lemma NoDup_pending_indices fs : NoDup (pending_indices fs).
Proof. apply NoDup_filter, NoDup_seqZ. Qed.

(** What [_save_state] writes, [_load_states] reads back unchanged. *)
Lemma from_dict_to_dict fs : from_dict (file_path fs) (to_dict fs) = fs.
Proof.
  destruct fs as [p fid n s rt lt]. unfold from_dict, to_dict. simpl. f_equal.
  apply set_eq. intros x.
  rewrite elem_of_list_to_set, merge_sort_Permutation, elem_of_elements. reflexivity.
Qed.

(** Every job [_load_states] puts into the table is [from_dict] of a record
    that was on disk. *)
Lemma load_states_lookup mailbag_dir names state_files fid job :
  (_load_states mailbag_dir names state_files).1 !! fid = Some job ->
  exists sp d candidate,
    sp ∈ state_files /\ sf_record sp = Some d /\ d_file_id d = fid /\
    candidate ∈ names /\
    job = from_dict (mailbag_dir +:+ "/" +:+ candidate) d.
Proof.
  unfold _load_states.
  assert (Hgen : forall st,
    (foldl (load_one mailbag_dir names) st state_files).1 !! fid = Some job ->
    st.1 !! fid = Some job \/
    exists sp d candidate,
      sp ∈ state_files /\ sf_record sp = Some d /\ d_file_id d = fid /\
      candidate ∈ names /\
      job = from_dict (mailbag_dir +:+ "/" +:+ candidate) d).
  { induction state_files as [|sp rest IH]; intros st; simpl; [now left|].
    intros [H|(sp' & d & c & Hsp & Hrest)]%IH.
    - unfold load_one in H. destruct (sf_record sp) as [d|] eqn:Hd;
        [|destruct (sf_file_id sp); [destruct (filter _ names)|]; now left].
      destruct (filter _ names) as [|c cs] eqn:Hf; [now left|].
      simpl in H. apply lookup_insert_Some in H as [[<- <-]|[_ H]]; [|now left].
      right. exists sp, d, c. split; [left|]. split; [exact Hd|]. split; [reflexivity|].
      split; [|reflexivity].
      assert (Hc : c ∈ filter (fun name => contains (String.substring 0 8 (d_file_id d)) name = true) names)
        by (rewrite Hf; left).
      apply list_elem_of_filter in Hc. tauto.
    - right. exists sp', d, c. split; [now right|exact Hrest]. }
  intros H. apply Hgen in H as [H|H]; [|exact H].
  simpl in H. rewrite lookup_empty in H. discriminate.
Qed.

Section SendRound.

Variable chunk_size : nat.
Variable Net : Type.
Variable get_next_hop : string -> option string.
Variable send_file : string -> option bytes -> frag_key -> Net -> bool * Net.
Variable host_fp : string.

(** The loop attempts a prefix of the indices it is given, in their order. *)
Lemma send_chunks_attempts files nh idxs (r : round Net) :
  exists tried,
    tried `prefix_of` idxs /\
    a_index <$> r_attempts (send_chunks chunk_size send_file files nh idxs r)
    = (a_index <$> r_attempts r) ++ tried.
Proof.
  revert r. induction idxs as [|idx rest IH]; intros r; simpl.
  - exists []. split; [apply prefix_nil|now rewrite app_nil_r].
  - destruct (chunk_at chunk_size (files !! file_path (r_state r)) idx) as [data|].
    + destruct (send_file nh (Some data) (file_id (r_state r), idx) (r_net r)) as [ok net'].
      destruct ok.
      * destruct (IH (mkRound (mark_sent idx (r_state r)) net'
                        (r_attempts r ++ [mkAttempt idx (Some data) true])
                        (r_saved r ++ [to_dict (mark_sent idx (r_state r))])))
          as (tried & Hpre & Heq).
        exists (idx :: tried). split; [now apply prefix_cons|].
        rewrite Heq. simpl. rewrite fmap_app. simpl. now rewrite <- app_assoc.
      * exists [idx]. split; [apply prefix_cons, prefix_nil|].
        simpl. now rewrite fmap_app.
    + exists []. split; [apply prefix_nil|]. simpl. now rewrite app_nil_r.
Qed.

(** A round attempts a sub-sequence of the pending indices. *)
Lemma send_task_attempts files now fs net :
  exists tried,
    tried `prefix_of` pending_indices fs /\
    a_index <$> r_attempts (_send_task chunk_size get_next_hop send_file host_fp files now fs net)
    = tried.
Proof.
  unfold _send_task.
  destruct (get_next_hop host_fp) as [nh|]; [|exists []; split; [apply prefix_nil|reflexivity]].
  case_bool_decide; [exists []; split; [apply prefix_nil|reflexivity]|].
  destruct (bool_decide (total (touch now fs) = 1%Z) && bool_decide (0%Z ∉ sent (touch now fs)))
    eqn:Hsingle.
  - apply andb_prop in Hsingle as [Ht Hs].
    apply bool_decide_eq_true in Ht. apply bool_decide_eq_true in Hs. simpl in Ht, Hs.
    destruct (send_file nh _ _ net) as [ok net']. simpl.
    exists [0%Z]. split; [|reflexivity].
    unfold pending_indices. rewrite Ht. change (seqZ 0 1) with [0%Z].
    rewrite filter_cons_True by exact Hs. reflexivity.
  - destruct (send_chunks_attempts files nh (pending_indices (touch now fs))
                (mkRound (touch now fs) net [] [])) as (tried & Hpre & Heq).
    exists tried. split; [exact Hpre|exact Heq].
Qed.

End SendRound.

(** *** Sending every chunk and reassembling *)

Lemma chunk_at_Some k content idx :
  0 < k -> (0 <= idx)%Z -> Z.to_nat idx * k < length content ->
  chunk_at k (Some content) idx = Some (chunk k content (Z.to_nat idx)).
Proof.
  intros Hk Hidx Hlt. unfold chunk_at, _iter_chunks.
  rewrite iter_chunks_loop_unfold.
  destruct (take k (drop (Z.to_nat idx * k) content)) as [|b data] eqn:E.
  - apply take_pos_nil in E; [|exact Hk]. apply drop_nil_inv in E. lia.
  - rewrite filter_cons_True by reflexivity. simpl. unfold chunk. now rewrite E.
Qed.

Lemma filter_all {A} (P : A -> Prop) `{forall x, Decision (P x)} (l : list A) :
  (forall x, x ∈ l -> P x) -> filter P l = l.
Proof.
  induction l as [|x l IH]; intros Hall; [reflexivity|].
  rewrite filter_cons_True by (apply Hall; left).
  f_equal. apply IH. intros y Hy. apply Hall. now right.
Qed.

Lemma mapM_all {A B} (f : A -> option B) (g : A -> B) (l : list A) :
  (forall x, x ∈ l -> f x = Some (g x)) -> mapM f l = Some (g <$> l).
Proof.
  intros Hall. apply mapM_Some_2. induction l as [|x l IH]; simpl; constructor.
  - apply Hall. left.
  - apply IH. intros y Hy. apply Hall. now right.
Qed.

Lemma landed_lookup k content fid net idxs i :
  i ∈ idxs -> landed k content fid net idxs !! (fid, i) = Some (chunk k content (Z.to_nat i)).
Proof.
  unfold landed. revert net. induction idxs as [|x idxs IH] using rev_ind; intros net Hi.
  - inversion Hi.
  - rewrite foldl_snoc. destruct (decide (x = i)) as [->|Hne].
    + apply lookup_insert_eq.
    + rewrite lookup_insert_ne by congruence. apply IH.
      apply elem_of_app in Hi as [Hi|Hi]; [exact Hi|].
      apply list_elem_of_singleton in Hi. congruence.
Qed.

Lemma send_chunks_landing (k : nat) (content : bytes) (files : gmap string bytes)
    (nh : string) (idxs : list Z) (r : round (gmap frag_key bytes)) :
  0 < k ->
  files !! file_path (r_state r) = Some content ->
  (forall i, i ∈ idxs -> (0 <= i)%Z /\ Z.to_nat i * k < length content) ->
  r_net (send_chunks k landing_send files nh idxs r)
    = landed k content (file_id (r_state r)) (r_net r) idxs /\
  sent (r_state (send_chunks k landing_send files nh idxs r))
    = list_to_set idxs ∪ sent (r_state r) /\
  total (r_state (send_chunks k landing_send files nh idxs r)) = total (r_state r) /\
  file_id (r_state (send_chunks k landing_send files nh idxs r)) = file_id (r_state r).
Proof.
  intros Hk. revert r. induction idxs as [|idx rest IH]; intros r Hfile Hall.
  - simpl. repeat split. symmetry. apply (left_id_L ∅ (∪)).
  - destruct (Hall idx ltac:(left)) as [H0 Hlt].
    simpl send_chunks. rewrite Hfile, chunk_at_Some by assumption. simpl landing_send. cbv iota beta.
    edestruct (IH (mkRound (mark_sent idx (r_state r))
                     (<[(file_id (r_state r), idx) := chunk k content (Z.to_nat idx)]> (r_net r))
                     (r_attempts r ++ [mkAttempt idx (Some (chunk k content (Z.to_nat idx))) true])
                     (r_saved r ++ [to_dict (mark_sent idx (r_state r))])))
      as (Hn & Hs & Ht & Hf).
    + exact Hfile.
    + intros i Hi. apply Hall. now right.
    + simpl in Hn, Hs, Ht, Hf.
      split; [exact Hn|]. split; [|split; assumption].
      etransitivity; [exact Hs|].
      rewrite list_to_set_cons. apply set_eq. intros x. rewrite !elem_of_union. tauto.
Qed.

(** What holds of a job once [from_dict] has rebuilt it.  Its pending
    indices are exactly the indices [0 .. n-1] that are not in the
    persisted sent set, in ascending order and without repetition; the
    record a job was saved as reloads to that very job, and every job
    [_load_states] brings back is such a reload.  A send round for the
    rebuilt job -- whatever the route lookup, the transport and the local
    files do -- attempts only indices of that complement, each at most once,
    and never an index of the persisted sent set.  (Whether a persisted job
    is brought back at all is another matter: see
    [restart_forgets_sent_chunks].) *)
Theorem resume_after_restart :
  forall (path : string) (d : state_dict),
    let fs := from_dict path d in
    let S : gset Z := list_to_set (default [] (d_sent d)) in
    total fs = d_total d /\ sent fs = S /\
    (forall i, i ∈ pending_indices fs <-> (0 <= i < d_total d)%Z /\ i ∉ S) /\
    pending_indices fs = filter (fun i => i ∉ S) (seqZ 0 (d_total d)) /\
    (forall job, from_dict (file_path job) (to_dict job) = job) /\
    (forall mailbag_dir names state_files fid job,
       (_load_states mailbag_dir names state_files).1 !! fid = Some job ->
       exists sp d' candidate,
         sp ∈ state_files /\ sf_record sp = Some d' /\
         job = from_dict (mailbag_dir +:+ "/" +:+ candidate) d') /\
    (forall chunk_size Net get_next_hop send_file host_fp files now (net : Net),
       let r := _send_task chunk_size get_next_hop send_file host_fp files now fs net in
       let tried := a_index <$> r_attempts r in
       tried `prefix_of` pending_indices fs /\
       NoDup tried /\
       (forall i, i ∈ tried -> (0 <= i < d_total d)%Z /\ i ∉ S)).
Proof.
  intros path d fs S.
  split; [reflexivity|]. split; [reflexivity|].
  split; [apply elem_of_pending_indices|].
  split; [reflexivity|].
  split; [apply from_dict_to_dict|].
  split.
  { intros mailbag_dir names state_files fid job Hjob.
    apply load_states_lookup in Hjob as (sp & d' & c & Hsp & Hd & _ & _ & Hjob).
    exists sp, d', c. repeat split; assumption. }
  intros chunk_size Net get_next_hop send_file host_fp files now net r tried.
  destruct (send_task_attempts chunk_size Net get_next_hop send_file host_fp files now fs net)
    as (tried' & Hpre & Heq).
  fold r in Heq. fold tried in Heq. subst tried'.
  split; [exact Hpre|]. split.
  - destruct Hpre as [k Hk]. pose proof (NoDup_pending_indices fs) as Hnd.
    rewrite Hk in Hnd. now apply NoDup_app in Hnd as [Hnd _].
  - intros i Hi. apply (elem_of_pending_indices fs).
    destruct Hpre as [k Hk]. rewrite Hk. apply elem_of_app. now left.
Qed.

Lemma concat_chunks_seqZ k content n :
  concat ((fun idx => chunk k content (Z.to_nat idx)) <$> seqZ 0 (Z.of_nat n))
  = concat (chunk k content <$> seq 0 n).
Proof.
  unfold seqZ. rewrite Nat2Z.id, <- list_fmap_compose. f_equal.
  apply list_fmap_ext. intros i j _. simpl. f_equal. lia.
Qed.

Lemma total_chunks_nchunks k content :
  0 < k -> _total_chunks k content = Z.max 1 (Z.of_nat (nchunks k (length content))).
Proof. intros Hk. rewrite total_chunks_spec, nchunks_ceil_div by exact Hk. reflexivity. Qed.

(** A whole file sent over a transport that never fails is reassembled to
    the same bytes. *)
Lemma send_and_assemble k content path fid hop host now :
  0 < k -> hop <> "" ->
  let job := new_state path fid (_total_chunks k content) in
  let r := _send_task k (fun _ => Some hop) landing_send host {[path := content]} now job ∅ in
  done (r_state r) = true /\ _assemble ∅ (r_net r) (r_state r) = Some content.
Proof.
  intros Hk Hhop job r. subst r job. unfold _send_task.
  rewrite bool_decide_eq_false_2 by exact Hhop.
  set (n := nchunks k (length content)).
  pose proof (total_chunks_nchunks k content Hk) as Htot. fold n in Htot.
  generalize dependent (_total_chunks k content). intros T Htot.
  assert (Hpath : ({[path := content]} : gmap string bytes) !! path = Some content)
    by apply lookup_singleton_eq.
  cbn [touch new_state total sent file_path file_id].
  rewrite (bool_decide_eq_true_2 (0%Z ∉ (∅ : gset Z))) by apply not_elem_of_empty.
  destruct (decide (n <= 1)) as [Hn|Hn].
  - (* a single chunk: the file itself is sent as fragment 0 *)
    assert (HT : T = 1%Z) by lia. clear Htot. subst T.
    rewrite bool_decide_eq_true_2 by reflexivity.
    simpl andb. cbv iota. rewrite Hpath. simpl landing_send. cbv iota beta.
    cbn [r_state r_net mark_sent total sent file_path file_id].
    split.
    + unfold done, mark_sent, touch, new_state. apply bool_decide_eq_true. cbn [total sent].
      rewrite (right_id_L ∅ (∪)), size_singleton. reflexivity.
    + unfold _assemble. simpl total. simpl file_id. change (seqZ 0 1) with [0%Z]. simpl mapM.
      unfold read_frag. rewrite lookup_empty, lookup_insert_eq. simpl.
      now rewrite app_nil_r.
  - (* several chunks *)
    assert (HT : T = Z.of_nat n) by lia. clear Htot. subst T.
    rewrite bool_decide_eq_false_2 by lia. simpl andb. cbv iota.
    assert (Hpend : pending_indices (touch now (new_state path fid (Z.of_nat n)))
                    = seqZ 0 (Z.of_nat n)).
    { unfold pending_indices. cbn [total sent]. apply filter_all.
      intros x _. apply not_elem_of_empty. }
    rewrite Hpend.
    set (r0 := mkRound (touch now (new_state path fid (Z.of_nat n)))
                 (∅ : gmap frag_key bytes) [] []).
    destruct (send_chunks_landing k content {[path := content]} hop (seqZ 0 (Z.of_nat n))
                r0 Hk Hpath) as (Hnet & Hs & Ht & Hf).
    { intros i Hi. apply elem_of_seqZ in Hi. split; [lia|].
      apply nchunks_lt; [exact Hk|]. fold n. lia. }
    change (sent (r_state r0)) with (∅ : gset Z) in Hs.
    change (total (r_state r0)) with (Z.of_nat n) in Ht.
    change (file_id (r_state r0)) with fid in Hf, Hnet.
    change (r_net r0) with (∅ : gmap frag_key bytes) in Hnet.
    split.
    + unfold done. apply bool_decide_eq_true. rewrite Hs, Ht.
      rewrite (right_id_L ∅ (∪)), size_list_to_set by apply NoDup_seqZ.
      rewrite length_seqZ. lia.
    + unfold _assemble. rewrite Hnet, Ht, Hf.
      rewrite (mapM_all _ (fun idx => chunk k content (Z.to_nat idx))).
      * simpl. f_equal. rewrite concat_chunks_seqZ. apply concat_all_chunks. exact Hk.
      * intros i Hi. unfold read_frag. rewrite lookup_empty.
        apply landed_lookup. exact Hi.
Qed.

(** C2. Chunk round trip.  For every chunk size [k > 0] and every file,
    [_iter_chunks] yields the chunks [(0, c0); (1, c1); ...] where [ci] is
    the [k] bytes at offset [i * k] (fewer at the end), [ceil(size / k)] of
    them; concatenated in index order they are the file; and a file sent
    chunk by chunk by [_send_task] and put together by [_assemble] comes out
    with exactly its bytes. *)
Theorem chunk_round_trip (k : nat) (content : bytes) :
  0 < k ->
  let chunks := _iter_chunks k content 0 in
  let n := ceil_div (Z.of_nat (length content)) (Z.of_nat k) in
  chunks = (fun i => (Z.of_nat i, take k (drop (i * k) content))) <$> seq 0 (Z.to_nat n) /\
  concat (snd <$> chunks) = content /\
  (forall path fid hop host now,
     hop <> "" ->
     let job := new_state path fid (_total_chunks k content) in
     let r := _send_task k (fun _ => Some hop) landing_send host
                ({[path := content]} : gmap string bytes) now job ∅ in
     done (r_state r) = true /\
     _assemble ∅ (r_net r) (r_state r) = Some content).
Proof.
  intros Hk chunks n.
  assert (Hchunks : chunks = (fun i => (Z.of_nat i, chunk k content i))
                               <$> seq 0 (nchunks k (length content))).
  { unfold chunks, _iter_chunks. simpl drop. rewrite iter_chunks_loop_spec by exact Hk.
    apply list_fmap_ext. intros i j _. f_equal. }
  assert (Hn : Z.to_nat n = nchunks k (length content)).
  { unfold n. rewrite <- nchunks_ceil_div by exact Hk. apply Nat2Z.id. }
  split; [rewrite Hn; exact Hchunks|]. split.
  - rewrite Hchunks, <- list_fmap_compose. apply concat_all_chunks. exact Hk.
  - intros path fid hop host now Hhop. now apply send_and_assemble.
Qed.

Lemma chunk_round_trip_witness :
  concat (snd <$> _iter_chunks 4 ["P"; "r"; "i"; "m"; "e"; "L"; "o"; "g"; "!"]%byte 0)
  = ["P"; "r"; "i"; "m"; "e"; "L"; "o"; "g"; "!"]%byte.
Proof.
  apply (chunk_round_trip 4 ["P"; "r"; "i"; "m"; "e"; "L"; "o"; "g"; "!"]%byte).
  lia.
Defined.

(** *** Discovery *)

Lemma CHUNK_SIZE_pos : 0 < CHUNK_SIZE.
Proof. unfold CHUNK_SIZE. lia. Qed.

Section DiscoveryFacts.

Variable chunk_size : nat.
Variable sha256_hex : bytes -> string.
Variable mailbag_dir : string.

Lemma discover_one_lookup st e fid fs :
  (discover_one chunk_size sha256_hex mailbag_dir st e).1 !! fid = Some fs ->
  st.1 !! fid = Some fs \/ (st.1 !! fid = None /\ job_of chunk_size sha256_hex mailbag_dir e fid fs).
Proof.
  unfold discover_one.
  destruct (String.prefix "." (e_name e)) eqn:Hdot; simpl; [now left|].
  destruct (e_is_file e) eqn:Hfile; simpl; [|now left].
  destruct (e_content e) as [content|] eqn:Hc; [|now left].
  destruct (st.1 !! sha256_hex content) as [old|] eqn:Hold; [now left|].
  simpl. intros [[<- <-]|[Hne Hl]]%lookup_insert_Some; [|now left].
  right. split; [exact Hold|]. split; [exact Hdot|]. split; [exact Hfile|].
  exists content. split; [exact Hc|]. split; reflexivity.
Qed.

Lemma discover_fold_lookup entries st fid fs :
  (foldl (discover_one chunk_size sha256_hex mailbag_dir) st entries).1 !! fid = Some fs ->
  st.1 !! fid = Some fs \/ exists e, e ∈ entries /\ job_of chunk_size sha256_hex mailbag_dir e fid fs.
Proof.
  revert st. induction entries as [|e entries IH]; intros st; simpl; [now left|].
  intros [H|(e' & He' & Hjob)]%IH.
  - apply discover_one_lookup in H as [H|[_ Hjob]]; [now left|].
    right. exists e. split; [left|exact Hjob].
  - right. exists e'. split; [now right|exact Hjob].
Qed.

End DiscoveryFacts.

(** C9 (as amended).  A job the outbox scan creates for a file of [size]
    bytes has [max(1, ceil(size / chunk_size))] chunks: [ceil(size /
    chunk_size)] for a file that is not empty, and one chunk (not zero) for
    an empty file. *)
Theorem discovered_job_total (chunk_size : nat) (sha256_hex : bytes -> string)
    (is_host : bool) (mailbag_dir : string) (entries : list dir_entry)
    (_states : gmap string FragmentState) (fid : string) (fs : FragmentState) :
  0 < chunk_size ->
  (_scan_and_send_discover chunk_size sha256_hex is_host mailbag_dir entries _states).1 !! fid = Some fs ->
  _states !! fid = None ->
  exists e content,
    e ∈ entries /\ e_is_file e = true /\ e_content e = Some content /\
    fid = sha256_hex content /\
    sent fs = ∅ /\
    total fs = Z.max 1 (ceil_div (Z.of_nat (length content)) (Z.of_nat chunk_size)) /\
    (0 < length content ->
     total fs = ceil_div (Z.of_nat (length content)) (Z.of_nat chunk_size)) /\
    (length content = 0 -> total fs = 1%Z).
Proof.
  intros Hk Hlook Hfresh. unfold _scan_and_send_discover in Hlook.
  destruct is_host; [simpl in Hlook; congruence|].
  apply discover_fold_lookup in Hlook as [H|(e & He & _ & Hfile & content & Hc & Hfid & ->)];
    [simpl in H; congruence|].
  exists e, content. repeat split; try assumption; simpl.
  - apply total_chunks_spec. exact Hk.
  - intros Hpos. rewrite total_chunks_spec by exact Hk.
    pose proof (ceil_div_pos (Z.of_nat (length content)) (Z.of_nat chunk_size)
                  ltac:(lia) ltac:(lia)). lia.
  - intros H0. rewrite total_chunks_spec, H0 by exact Hk.
    rewrite ceil_div_0 by lia. reflexivity.
Qed.

Lemma discovered_job_total_witness :
  exists e content,
    e ∈ [mkDirEntry "a.log" true (Some ["x"; "y"; "z"]%byte)] /\ e_is_file e = true /\
    e_content e = Some content /\
    "id" = (fun _ : bytes => "id") content /\
    sent (new_state ("box" +:+ "/" +:+ "a.log") "id" 2) = ∅ /\
    total (new_state ("box" +:+ "/" +:+ "a.log") "id" 2)
      = Z.max 1 (ceil_div (Z.of_nat (length content)) (Z.of_nat 2)) /\
    (0 < length content ->
     total (new_state ("box" +:+ "/" +:+ "a.log") "id" 2)
       = ceil_div (Z.of_nat (length content)) (Z.of_nat 2)) /\
    (length content = 0 -> total (new_state ("box" +:+ "/" +:+ "a.log") "id" 2) = 1%Z).
Proof.
  apply (discovered_job_total 2 (fun _ => "id") false "box"
           [mkDirEntry "a.log" true (Some ["x"; "y"; "z"]%byte)] ∅ "id"
           (new_state ("box" +:+ "/" +:+ "a.log") "id" 2)).
  - lia.
  - reflexivity.
  - reflexivity.
Defined.

(** C9 as stated fails for an empty file: the scan gives it a job of one
    chunk, while [ceil(0 / CHUNK_SIZE)] is zero. *)
Lemma empty_file_job_has_one_chunk :
  exists fs,
    (_scan_and_send_discover CHUNK_SIZE (fun _ => "e3b0c44298fc1c149afbf4c8996fb92427ae41e4649b934ca495991b7852b855")
       false "mailbag" [mkDirEntry "empty.log" true (Some [])] ∅).1
      !! "e3b0c44298fc1c149afbf4c8996fb92427ae41e4649b934ca495991b7852b855" = Some fs /\
    total fs = 1%Z /\
    total fs <> ceil_div (Z.of_nat (length (@nil Byte.byte))) (Z.of_nat CHUNK_SIZE).
Proof.
  eexists. split; [|split].
  - unfold _scan_and_send_discover, discover_one. cbn [foldl e_name e_is_file e_content fst snd negb].
    change (String.prefix "." "empty.log") with false. cbn [orb].
    rewrite lookup_empty. cbn [fst snd]. apply lookup_insert_eq.
  - cbn [total new_state]. rewrite total_chunks_spec by apply CHUNK_SIZE_pos.
    cbn [length]. rewrite ceil_div_0 by (pose proof CHUNK_SIZE_pos; lia). reflexivity.
  - cbn [total new_state length]. rewrite total_chunks_spec by apply CHUNK_SIZE_pos.
    cbn [length]. rewrite ceil_div_0 by (pose proof CHUNK_SIZE_pos; lia). discriminate.
Qed.

End MailbagFacts.

(** ** transport.py: the signature gate of [_handle_conn] *)

Module TransportFacts.
Import Transport.

Section Gate.

Variable Key : Type.
Variable dumps_sorted : json -> bytes.
Variable fromhex : string -> option bytes.
Variable verify_ssh_sig : Key -> bytes -> bytes -> call_result bool.
Variable json_loads : bytes -> option json.
Variable St : Type.

(** A packet that [_verify_signed] turns down is dropped: no handler runs,
    the handlers' state is untouched, and nothing is raised. *)
Lemma rejected_packet_dropped (t : PostmareTransport Key St) peer_fp buf packet st :
  json_loads buf = Some packet ->
  _verify_signed dumps_sorted fromhex verify_ssh_sig t packet peer_fp = false ->
  _handle_conn dumps_sorted fromhex verify_ssh_sig json_loads t peer_fp buf st
  = mkHandled st [] false.
Proof.
  intros Hload Hrej. unfold _handle_conn.
  destruct buf as [|b buf']; [reflexivity|].
  rewrite Hload, Hrej. reflexivity.
Qed.

(** [_verify_signed] turns a packet down when the sender has no known key,
    and when [verify_ssh_sig] raises. *)
Lemma unknown_sender_rejected (t : PostmareTransport Key St) packet sender_fp :
  _known_keys t !! sender_fp = None ->
  _verify_signed dumps_sorted fromhex verify_ssh_sig t packet sender_fp = false.
Proof. intros H. unfold _verify_signed. now rewrite H. Qed.

Lemma raising_verification_rejected (t : PostmareTransport Key St) packet sender_fp :
  (forall key payload sig, verify_ssh_sig key payload sig = Raised) ->
  _verify_signed dumps_sorted fromhex verify_ssh_sig t packet sender_fp = false.
Proof.
  intros H. unfold _verify_signed.
  destruct (_known_keys t !! sender_fp); [|reflexivity].
  destruct (subscript packet "data"); [|reflexivity].
  destruct (subscript packet "signature") as [[| | |hex| |]|]; try reflexivity.
  destruct (fromhex hex); [|reflexivity]. now rewrite H.
Qed.

(** It accepts a packet as soon as [verify_ssh_sig] returns, whatever the
    returned boolean is. *)
Lemma returned_verification_accepted (t : PostmareTransport Key St)
    packet sender_fp key data hex sig verdict :
  _known_keys t !! sender_fp = Some key ->
  subscript packet "data" = Some data ->
  subscript packet "signature" = Some (JStr hex) ->
  fromhex hex = Some sig ->
  verify_ssh_sig key (dumps_sorted data) sig = Returned verdict ->
  _verify_signed dumps_sorted fromhex verify_ssh_sig t packet sender_fp = true.
Proof.
  intros Hk Hd Hs Hh Hv. unfold _verify_signed. now rewrite Hk, Hd, Hs, Hh, Hv.
Qed.

End Gate.

(** C5.  A control message whose signature does not verify is not dropped
    when [verify_ssh_sig] reports the failure by returning [False]:
    [_verify_signed] ignores the returned value, answers [True], and the
    registered ['pheromone'] handler runs on the payload, so the routing
    table is updated from the unverified report. *)
Theorem unverified_signature_reaches_handler
    (Key : Type) (dumps_sorted : json -> bytes) (fromhex : string -> option bytes)
    (verify_ssh_sig : Key -> bytes -> bytes -> call_result bool)
    (json_loads : bytes -> option json)
    (t : PostmareTransport Key Node.PostmareNode)
    (peer_fp : string) (buf : bytes) (packet : json)
    (items : list (string * json)) (hex : string) (sig : bytes) (key : Key)
    (c now : float) (n : Node.PostmareNode) :
  buf <> [] ->
  json_loads buf = Some packet ->
  subscript packet "data" = Some (JObj items) ->
  assoc "type" items = Some (JStr "pheromone") ->
  assoc "value" items = Some (JNum c) ->
  subscript packet "signature" = Some (JStr hex) ->
  fromhex hex = Some sig ->
  _known_keys t !! peer_fp = Some key ->
  _handlers t !! "pheromone" = Some (pheromone_handler now) ->
  verify_ssh_sig key (dumps_sorted (JObj items)) sig = Returned false ->
  let out := _handle_conn dumps_sorted fromhex verify_ssh_sig json_loads t peer_fp buf n in
  _verify_signed dumps_sorted fromhex verify_ssh_sig t packet peer_fp = true /\
  h_invoked out = [("pheromone", peer_fp, JObj items)] /\
  h_state out = snd (Node.update n peer_fp c now) /\
  h_escaped out = false.
Proof.
  intros Hbuf Hload Hdata Htype Hvalue Hsig Hhex Hkey Hh Hver out.
  assert (Hacc : _verify_signed dumps_sorted fromhex verify_ssh_sig t packet peer_fp = true).
  { eapply returned_verification_accepted; eassumption. }
  split; [exact Hacc|].
  subst out. unfold _handle_conn.
  destruct buf as [|b buf']; [contradiction|].
  rewrite Hload, Hacc, Hdata. cbn [negb default from_option id]. rewrite Htype.
  cbv beta iota. unfold handler in *. rewrite Hh.
  unfold pheromone_handler. cbn [subscript]. rewrite Hvalue.
  repeat split.
Qed.

(** The theorem at a heartbeat claiming cost [0.0] from peer ["b"], signed
    with a key other than ["b"]'s: the library call returns [False], and the
    node, whose table was empty, now routes through ["b"] at cost [1.0]. *)
Lemma unverified_signature_reaches_handler_witness :
  let packet :=
    JObj [("data", JObj [("type", JStr "pheromone"); ("sender", JStr "b");
                         ("target", JStr "H"); ("value", JNum 0%float);
                         ("timestamp", JNum 6%float)]);
          ("signature", JStr "00")] in
  let t := register_handler (mkTransport ({["b" := tt]} : gmap string unit) ∅)
             "pheromone" (pheromone_handler 7%float) in
  let out := _handle_conn (fun _ => []) (fun _ => Some []) (fun _ _ _ => Returned false)
               (fun _ => Some packet) t "b" ["{"%byte] (Node.__init__ "A" "H" 0%float) in
  Node.get_pheromone_value (h_state out) "H" = 1%float /\
  Node.get_next_hop (h_state out) "H" = Some "b" /\
  Node._table (Node.__init__ "A" "H" 0%float) = ∅.
Proof.
  intros packet t out.
  pose proof (unverified_signature_reaches_handler unit (fun _ => []) (fun _ => Some [])
                (fun _ _ _ => Returned false) (fun _ => Some packet) t "b" ["{"%byte] packet
                [("type", JStr "pheromone"); ("sender", JStr "b");
                 ("target", JStr "H"); ("value", JNum 0%float);
                 ("timestamp", JNum 6%float)]
                "00" [] tt 0%float 7%float (Node.__init__ "A" "H" 0%float)
                ltac:(discriminate) eq_refl eq_refl eq_refl eq_refl eq_refl eq_refl
                eq_refl eq_refl eq_refl) as (_ & _ & Hstate & _).
  fold out in Hstate. rewrite Hstate. repeat split.
Defined.

End TransportFacts.

(** ** bridge.py: packaging *)

Module BridgeFacts.
Import PyFloat PyFloatFacts Bridge.

Lemma insert_by_mtime_not_nil x l : insert_by_mtime x l <> [].
Proof. destruct l as [|y rest]; simpl; [discriminate|]. destruct (lt _ _); discriminate. Qed.

Lemma sorted_by_mtime_nil l : sorted_by_mtime l = [] <-> l = [].
Proof.
  split; [|intros ->; reflexivity].
  destruct l as [|x l]; [reflexivity|]. simpl. intros H.
  now apply insert_by_mtime_not_nil in H.
Qed.

Lemma collect_nil listing since_ts :
  _collect_new_files listing since_ts = [] <->
  (forall f, f ∈ listing -> is_new since_ts f = false).
Proof.
  unfold _collect_new_files. rewrite sorted_by_mtime_nil. split.
  - intros Hnil f Hf. destruct (is_new since_ts f) eqn:E; [|reflexivity].
    exfalso. eapply (filter_nil_not_elem_of _ listing f); eassumption.
  - intros Hall. induction listing as [|f listing IH]; [reflexivity|].
    rewrite filter_cons_False.
    + apply IH. intros g Hg. apply Hall. now right.
    + rewrite Hall by left. discriminate.
Qed.


Section DeliverFacts.

Variable strftime : float -> string.
Variable node_id : string.
Variable unlink_ok : file_info -> bool.

(** The three outcomes of [deliver]. *)
Lemma deliver_no_dir b project export_dir t_pack t_mark w :
  dirs w !! scan_dir_of b project export_dir = None ->
  deliver strftime node_id unlink_ok b project export_dir t_pack t_mark w = (None, w).
Proof. intros H. unfold deliver. cbv zeta. now rewrite H. Qed.


Lemma deliver_packs b project export_dir t_pack t_mark w listing :
  dirs w !! scan_dir_of b project export_dir = Some listing ->
  (exists f, f ∈ listing /\ is_new (_read_marker w project) f = true) ->
  let new_files := _collect_new_files listing (_read_marker w project) in
  let packed := _pack strftime node_id b project new_files t_pack w in
  let marked := _write_marker (snd packed) project t_mark in
  deliver strftime node_id unlink_ok b project export_dir t_pack t_mark w
  = (Some (fst packed),
     if keep_original b then marked
     else remove_originals unlink_ok (scan_dir_of b project export_dir) new_files marked).
Proof.
  intros Hdir (f & Hf & Hnew). cbv zeta.
  unfold deliver. cbv zeta. rewrite Hdir.
  destruct (_collect_new_files listing (_read_marker w project)) as [|g rest] eqn:E.
  - exfalso. rewrite collect_nil in E. rewrite (E f Hf) in Hnew. discriminate.
  - reflexivity.
Qed.


End DeliverFacts.




(** C10. When the directory to scan does not exist, [deliver] returns
    [None] (the function has no raising path before that return), puts no
    package into the mailbag directory and leaves the marker of the project
    as it was. *)
Theorem deliver_missing_directory
    (strftime : float -> string) (node_id : string) (unlink_ok : file_info -> bool)
    (b : Bridge) (project : string) (export_dir : option string)
    (t_pack t_mark : float) (w : world) :
  dirs w !! scan_dir_of b project export_dir = None ->
  let r := deliver strftime node_id unlink_ok b project export_dir t_pack t_mark w in
  fst r = None /\
  snd r = w /\
  outbox (snd r) = outbox w /\
  markers (snd r) !! project = markers w !! project /\
  _read_marker (snd r) project = _read_marker w project.
Proof.
  intros Hdir r. subst r. rewrite deliver_no_dir by exact Hdir. repeat split.
Qed.

Lemma deliver_missing_directory_witness :
  deliver (fun _ => "20260101_000000") "node" (fun _ => true)
    (mkBridge "./mailbag" "./logs" true) "demo" (Some "/no/such/dir") 1%float 2%float
    (mkWorld ∅ {["demo" := 0.5%float]} ∅)
  = (None, mkWorld ∅ {["demo" := 0.5%float]} ∅).
Proof.
  pose proof (deliver_missing_directory (fun _ => "20260101_000000") "node" (fun _ => true)
                (mkBridge "./mailbag" "./logs" true) "demo" (Some "/no/such/dir")
                1%float 2%float (mkWorld ∅ {["demo" := 0.5%float]} ∅) eq_refl)
    as (H1 & H2 & _).
  apply injective_projections; assumption.
Defined.

End BridgeFacts.

(** * Further properties of the code *)

(** ** IEEE-754 binary64: NaN and the total order away from it *)

Module FloatOrder.
Import Binary64 PyFloat FloatFacts PyFloatFacts.

Lemma lt_nan_r a b : is_nan b = true -> lt a b = false.
Proof.
  rewrite is_nan_spec. unfold lt. rewrite ltb_spec. unfold SFltb. intros ->.
  destruct (Prim2SF a); reflexivity.
Qed.

Lemma lt_nan_l a b : is_nan a = true -> lt a b = false.
Proof.
  rewrite is_nan_spec. unfold lt. rewrite ltb_spec. unfold SFltb. intros ->. reflexivity.
Qed.

Lemma add_one_nan c : is_nan c = true -> is_nan (c + 1)%float = true.
Proof.
  rewrite !is_nan_spec, Prim2SF_add_one. intros ->. reflexivity.
Qed.

Lemma SFcompare_total x y :
  x <> S754_nan -> y <> S754_nan -> exists c, SFcompare x y = Some c.
Proof.
  destruct x as [s|s| |s m e], y as [s'|s'| |s' m' e']; simpl; intros Hx Hy;
    try congruence; eexists; reflexivity.
Qed.

(** Away from NaN, [not (b < a)] is [a <= b]. *)
Lemma not_lt_le a b : is_nan a = false -> is_nan b = false -> lt b a = false -> le a b = true.
Proof.
  rewrite !not_nan_spec. unfold lt, le. rewrite ltb_spec, leb_spec. unfold SFltb, SFleb.
  intros Ha Hb. destruct (SFcompare_total (Prim2SF a) (Prim2SF b) Ha Hb) as [c Hc].
  rewrite (SFcompare_antisym (Prim2SF a) (Prim2SF b)), Hc. destruct c; simpl; congruence.
Qed.

(** Everything that is neither NaN nor [+inf] is below [+inf]. *)
Lemma lt_INF_true a : is_nan a = false -> a <> INF -> lt a INF = true.
Proof.
  rewrite not_nan_spec. intros Hn Hi. unfold lt. rewrite ltb_spec, Prim2SF_INF. unfold SFltb.
  destruct (Prim2SF a) as [s|[]| |[] m e] eqn:E; try reflexivity; try congruence.
  exfalso. apply Hi. rewrite <- (SF2Prim_Prim2SF a), E. reflexivity.
Qed.

End FloatOrder.

(** ** node.py: routes, aging and the host's entry *)

Module NodeProperties.
Import PyFloat PyFloatFacts FloatOrder Node NodeFacts.

Lemma run_app n ops1 ops2 : run n (ops1 ++ ops2) = run (run n ops1) ops2.
Proof. unfold run. apply foldl_app. Qed.

Lemma run_host_fp n ops : host_fp (run n ops) = host_fp n.
Proof.
  unfold run. revert n. induction ops as [|o ops IH]; intros n; simpl; [reflexivity|].
  now rewrite IH, step_host_fp.
Qed.

Lemma run_self_fp n ops : self_fp (run n ops) = self_fp n.
Proof.
  unfold run. revert n. induction ops as [|o ops IH]; intros n; simpl; [reflexivity|].
  now rewrite IH, step_self_fp.
Qed.

(** Only the key [host_fp] is ever written. *)
Lemma step_keys n o fp :
  fp <> host_fp n -> _table n !! fp = None -> _table (step n o) !! fp = None.
Proof.
  intros Hne Hnone. destruct o as [nb c now|now]; simpl.
  - destruct (update_cases n nb c now) as [(_ & -> & _)|(_ & ->)]; [|exact Hnone].
    unfold table_set. simpl. now rewrite lookup_insert_ne by congruence.
  - unfold _decay_loop_pass. simpl. apply map_lookup_filter_None. now left.
Qed.

Lemma run_keys n ops fp :
  fp <> host_fp n -> _table n !! fp = None -> _table (run n ops) !! fp = None.
Proof.
  unfold run. revert n. induction ops as [|o ops IH]; intros n Hne Hnone; simpl; [exact Hnone|].
  apply IH; [now rewrite step_host_fp|now apply step_keys].
Qed.

(** X1. The table only ever holds a route to the host: whatever reports
    and aging passes a node has seen since it was created, a target other
    than [host_fp] has no entry, no next hop, and cost [+inf]. *)
Theorem routes_only_to_host self host t0 ops fp :
  fp <> host ->
  let n := run (__init__ self host t0) ops in
  _table n !! fp = None /\
  get_next_hop n fp = None /\
  get_pheromone_value n fp = INF /\
  has_route n fp = false.
Proof.
  intros Hne n.
  assert (H : _table n !! fp = None).
  { apply run_keys.
    - unfold __init__. simpl. exact Hne.
    - unfold __init__. simpl. destruct (decide (self = host)); [|apply lookup_empty].
      rewrite lookup_insert_ne by congruence. apply lookup_empty. }
  unfold has_route, get_next_hop, get_pheromone_value. rewrite H. repeat split.
Qed.

Lemma routes_only_to_host_witness :
  get_next_hop (run (__init__ "A" "H" 0%float)
                  [Update "B" 0%float 1%float; Decay 200%float; Update "C" 3%float 201%float]) "B"
  = None.
Proof.
  apply (routes_only_to_host "A" "H" 0%float
           [Update "B" 0%float 1%float; Decay 200%float; Update "C" 3%float 201%float] "B").
  discriminate.
Defined.

(** X2. A host keeps cost zero under every report that is not negative:
    reports of a cost [c >= 0] (among them [+inf]), reports of NaN, and
    aging passes leave its entry [(0.0, None, t0)] as [__init__] wrote it,
    so it broadcasts [0.0] and has no next hop. *)
Theorem host_keeps_zero_cost h t0 ops :
  Forall (fun o => match o with
                   | Update _ c _ => le 0%float c = true \/ is_nan c = true
                   | Decay _ => True
                   end) ops ->
  let n := run (__init__ h h t0) ops in
  _table n !! h = Some (mkEntry 0%float None t0) /\
  get_pheromone_value n h = 0%float /\
  get_next_hop n h = None /\
  has_route n h = false.
Proof.
  intros Hops n.
  assert (H : _table n !! h = Some (mkEntry 0%float None t0)).
  { apply host_entry_kept. eapply Forall_impl; [exact Hops|].
    intros [nb c now|now]; simpl; [|trivial].
    intros [Hle|Hnan]; [now apply add_one_nonneg|].
    apply lt_nan_l. now apply add_one_nan. }
  unfold has_route, get_next_hop, get_pheromone_value. rewrite H. repeat split.
Qed.

Lemma host_keeps_zero_cost_witness :
  get_pheromone_value
    (run (__init__ "H" "H" 0%float)
       [Update "B" 0%float 1%float; Decay 500%float; Update "C" infinity 501%float;
        Update "D" nan 502%float]) "H" = 0%float.
Proof.
  apply (host_keeps_zero_cost "H" 0%float
           [Update "B" 0%float 1%float; Decay 500%float; Update "C" infinity 501%float;
            Update "D" nan 502%float]).
  constructor; [left; reflexivity|].
  constructor; [exact I|].
  constructor; [left; reflexivity|].
  constructor; [right; reflexivity|].
  constructor.
Defined.

Lemma reports_keep_entry n e rs :
  _table n !! host_fp n = Some e ->
  Forall (fun r => lt (r_cost r + 1) (value e) = false) rs ->
  foldl apply_report n rs = n.
Proof.
  intros He Hrs. induction Hrs as [|r rs Hr Hrs IH]; simpl; [reflexivity|].
  unfold apply_report at 2. erewrite update_not_better; [|exact He|exact Hr]. exact IH.
Qed.

(** X3. A heartbeat that does not improve the stored cost does not refresh
    the entry's timestamp: after any number of reports whose candidate
    [c + 1.0] is not below the stored cost (a neighbour repeating the same
    cost, for one) the entry still carries the time it was written, and the
    aging pass that finds it older than [PHEROMONE_MAX_AGE] deletes it,
    leaving a node that is not the host without a route. *)
Theorem unrefreshed_route_expires n e rs now :
  self_fp n <> host_fp n ->
  _table n !! host_fp n = Some e ->
  Forall (fun r => lt (r_cost r + 1) (value e) = false) rs ->
  gt (now - timestamp e)%float PHEROMONE_MAX_AGE = true ->
  let heard := foldl apply_report n rs in
  let aged := _decay_loop_pass heard now in
  _table heard !! host_fp n = Some e /\
  _table aged !! host_fp n = None /\
  get_next_hop aged (host_fp n) = None /\
  get_pheromone_value aged (host_fp n) = INF /\
  has_route aged (host_fp n) = false.
Proof.
  intros Hself He Hrs Hold heard aged.
  assert (Hheard : heard = n) by (apply reports_keep_entry with e; assumption).
  assert (Haged : _table aged !! host_fp n = None).
  { unfold aged, _decay_loop_pass. simpl. apply map_lookup_filter_None. right.
    intros e' He'. rewrite Hheard, He in He'. injection He' as <-.
    unfold stale. simpl. rewrite Hheard, Hold.
    rewrite bool_decide_eq_false_2 by congruence. discriminate. }
  split; [rewrite Hheard; exact He|].
  unfold has_route, get_next_hop, get_pheromone_value. rewrite Haged. repeat split.
Qed.

Lemma unrefreshed_route_expires_witness :
  get_next_hop
    (_decay_loop_pass
       (foldl apply_report (snd (update (__init__ "A" "H" 0%float) "B" 0%float 1%float))
          [mkReport "B" 0%float 31%float; mkReport "B" 0%float 61%float;
           mkReport "B" 0%float 91%float; mkReport "B" 0%float 121%float])
       122%float) "H" = None.
Proof.
  apply (unrefreshed_route_expires
           (snd (update (__init__ "A" "H" 0%float) "B" 0%float 1%float))
           (mkEntry 1%float (Some "B") 1%float)
           [mkReport "B" 0%float 31%float; mkReport "B" 0%float 61%float;
            mkReport "B" 0%float 91%float; mkReport "B" 0%float 121%float]
           122%float).
  - discriminate.
  - reflexivity.
  - repeat constructor.
  - reflexivity.
Defined.

(** X4. A report of NaN on a node without a route is taken ([NaN >= INF]
    is false, and there is no entry to compare with): [update] returns
    [True] and stores a NaN cost.  No later report replaces that entry
    (nothing compares below NaN), and the node has no next hop while it is
    there. *)
Theorem nan_report_blocks_route n nb c now rs :
  is_nan c = true ->
  _table n !! host_fp n = None ->
  let poisoned := snd (update n nb c now) in
  let later := foldl apply_report poisoned rs in
  fst (update n nb c now) = true /\
  _table poisoned !! host_fp n = Some (mkEntry (c + 1)%float (Some nb) now) /\
  later = poisoned /\
  is_nan (get_pheromone_value later (host_fp n)) = true /\
  get_next_hop later (host_fp n) = None /\
  has_route later (host_fp n) = false.
Proof.
  intros Hnan Hnone poisoned later.
  assert (Hc : c <> INF) by (intros ->; discriminate Hnan).
  assert (Hup : update n nb c now
                = (true, table_set n (host_fp n) (mkEntry (c + 1)%float (Some nb) now)))
    by (now apply update_no_entry).
  assert (Hp : _table poisoned !! host_fp n = Some (mkEntry (c + 1)%float (Some nb) now)).
  { unfold poisoned. rewrite Hup. unfold table_set. simpl. apply lookup_insert_eq. }
  assert (Hhost : host_fp poisoned = host_fp n) by apply update_host_fp.
  assert (Hlater : later = poisoned).
  { unfold later. apply reports_keep_entry with (mkEntry (c + 1)%float (Some nb) now).
    - rewrite Hhost. exact Hp.
    - apply Forall_forall. intros r _. simpl. apply lt_nan_r. now apply add_one_nan. }
  rewrite Hup. split; [reflexivity|]. split; [exact Hp|]. split; [exact Hlater|].
  rewrite Hlater. unfold has_route, get_next_hop, get_pheromone_value. rewrite Hp. simpl.
  rewrite (lt_nan_l _ INF) by now apply add_one_nan.
  split; [now apply add_one_nan|]. split; reflexivity.
Qed.

Lemma nan_report_blocks_route_witness :
  get_next_hop
    (foldl apply_report (snd (update (__init__ "A" "H" 0%float) "B" nan 1%float))
       [mkReport "C" 0%float 2%float; mkReport "D" (-5)%float 3%float]) "H" = None.
Proof.
  apply (nan_report_blocks_route (__init__ "A" "H" 0%float) "B" nan 1%float
           [mkReport "C" 0%float 2%float; mkReport "D" (-5)%float 3%float]).
  - reflexivity.
  - reflexivity.
Defined.

(** X5. A report that [update] takes gives a usable route at once: for a
    reported cost that is not NaN the node then answers [get_next_hop] with
    the reporting neighbour and [get_pheromone_value] with [c + 1.0], and an
    aging pass leaves that route alone as long as the entry is not older
    than [PHEROMONE_MAX_AGE]. *)
Theorem accepted_report_gives_route n nb c now :
  is_nan c = false ->
  fst (update n nb c now) = true ->
  let n1 := snd (update n nb c now) in
  get_next_hop n1 (host_fp n) = Some nb /\
  get_pheromone_value n1 (host_fp n) = (c + 1)%float /\
  has_route n1 (host_fp n) = true /\
  (forall t, gt (t - now)%float PHEROMONE_MAX_AGE = false ->
     get_next_hop (_decay_loop_pass n1 t) (host_fp n) = Some nb /\
     get_pheromone_value (_decay_loop_pass n1 t) (host_fp n) = (c + 1)%float).
Proof.
  intros Hnan Htrue n1.
  destruct (update_cases n nb c now) as [(_ & Hw & Hc & _)|(Hf & _)]; [|congruence].
  assert (Hlt : lt (c + 1)%float INF = true).
  { apply lt_INF_true; [now apply add_one_not_nan|now apply add_one_not_INF]. }
  assert (H1 : _table n1 !! host_fp n = Some (mkEntry (c + 1)%float (Some nb) now)).
  { unfold n1. rewrite Hw. unfold table_set. simpl. apply lookup_insert_eq. }
  assert (H2 : forall t, gt (t - now)%float PHEROMONE_MAX_AGE = false ->
            _table (_decay_loop_pass n1 t) !! host_fp n
            = Some (mkEntry (c + 1)%float (Some nb) now)).
  { intros t Ht. unfold _decay_loop_pass. simpl. apply map_lookup_filter_Some.
    split; [exact H1|]. unfold stale. simpl. rewrite Ht. apply andb_false_r. }
  unfold has_route, get_next_hop, get_pheromone_value. rewrite H1.
  cbn [value next_hop]. rewrite Hlt.
  split; [reflexivity|]. split; [reflexivity|]. split; [reflexivity|].
  intros t Ht. rewrite (H2 t Ht). cbn [value next_hop]. rewrite Hlt. split; reflexivity.
Qed.

Lemma accepted_report_gives_route_witness :
  get_next_hop (snd (update (__init__ "A" "H" 0%float) "B" 2%float 1%float)) "H" = Some "B".
Proof.
  apply (accepted_report_gives_route (__init__ "A" "H" 0%float) "B" 2%float 1%float).
  - reflexivity.
  - reflexivity.
Defined.

End NodeProperties.

(** ** mailbag.py: send rounds, restart, discovery, assembly *)

Module MailbagProperties.
Import Mailbag MailbagFacts.

(** *** One send round *)

Section RoundAccounting.

Variable chunk_size : nat.
Variable Net : Type.
Variable get_next_hop : string -> option string.
Variable send_file : string -> option bytes -> frag_key -> Net -> bool * Net.
Variable host_fp : string.

Lemma succeeded_shape oks failed :
  round_shape oks failed -> succeeded (oks ++ failed) = a_index <$> oks.
Proof.
  intros [Hoks Hf]. unfold succeeded. rewrite filter_app. 
  assert (H1 : filter (fun a => a_ok a = true) oks = oks).
  { apply filter_all. intros a Ha. rewrite Forall_forall in Hoks. now apply Hoks. }
  rewrite H1. destruct Hf as [->|(a & -> & Ha)].
  - simpl. now rewrite app_nil_r.
  - rewrite filter_cons_False by (rewrite Ha; discriminate). simpl. now rewrite app_nil_r.
Qed.

Lemma send_chunks_accounting files nh idxs (r0 : round Net) :
  let r := send_chunks chunk_size send_file files nh idxs r0 in
  total (r_state r) = total (r_state r0) /\
  file_id (r_state r) = file_id (r_state r0) /\
  file_path (r_state r) = file_path (r_state r0) /\
  last_try (r_state r) = last_try (r_state r0) /\
  exists oks failed,
    r_attempts r = r_attempts r0 ++ oks ++ failed /\
    round_shape oks failed /\
    sent (r_state r) = list_to_set (a_index <$> oks) ∪ sent (r_state r0) /\
    (retries (r_state r) = retries (r_state r0) \/
     retries (r_state r) = (retries (r_state r0) + 1)%Z) /\
    (failed <> [] -> retries (r_state r) = (retries (r_state r0) + 1)%Z).
Proof.
  revert r0. induction idxs as [|idx rest IH]; intros r0; cbv zeta.
  - simpl. repeat split. exists [], []. rewrite app_nil_r.
    repeat split; [constructor|now left|(set_unfold; tauto)|now left|congruence].
  - simpl send_chunks.
    destruct (chunk_at chunk_size (files !! file_path (r_state r0)) idx) as [data|].
    + destruct (send_file nh (Some data) (file_id (r_state r0), idx) (r_net r0)) as [ok net'].
      destruct ok.
      * specialize (IH (mkRound (mark_sent idx (r_state r0)) net'
                          (r_attempts r0 ++ [mkAttempt idx (Some data) true])
                          (r_saved r0 ++ [to_dict (mark_sent idx (r_state r0))]))).
        cbv zeta in IH. cbn [r_state r_attempts mark_sent total file_id file_path last_try
                               sent retries] in IH.
        destruct IH as (Ht & Hf & Hp & Hl & oks & failed & Ha & [Hoks Hfail] & Hs & Hr & Hr').
        repeat (split; [assumption|]).
        exists (mkAttempt idx (Some data) true :: oks), failed.
        split; [rewrite Ha, <- app_assoc; reflexivity|].
        split; [split; [constructor; [reflexivity|exact Hoks]|exact Hfail]|].
        split; [rewrite Hs; simpl; (set_unfold; tauto)|].
        split; assumption.
      * cbn [r_state r_attempts bump_retries total file_id file_path last_try sent retries].
        repeat (split; [reflexivity|]).
        exists [], [mkAttempt idx (Some data) false].
        split; [reflexivity|].
        split; [split; [constructor|right; eexists; split; reflexivity]|].
        split; [(set_unfold; tauto)|]. split; [now right|reflexivity].
    + cbn [r_state r_attempts bump_retries total file_id file_path last_try sent retries].
      repeat (split; [reflexivity|]).
      exists [], []. rewrite app_nil_r.
      split; [reflexivity|]. split; [split; [constructor|now left]|].
      split; [(set_unfold; tauto)|]. split; [now right|congruence].
Qed.

Lemma send_task_accounting files now fs net :
  let r := _send_task chunk_size get_next_hop send_file host_fp files now fs net in
  total (r_state r) = total fs /\
  file_id (r_state r) = file_id fs /\
  file_path (r_state r) = file_path fs /\
  exists oks failed,
    r_attempts r = oks ++ failed /\
    round_shape oks failed /\
    sent (r_state r) = sent fs ∪ list_to_set (a_index <$> oks) /\
    (retries (r_state r) = retries fs \/ retries (r_state r) = (retries fs + 1)%Z) /\
    (failed <> [] -> retries (r_state r) = (retries fs + 1)%Z).
Proof.
  cbv zeta. unfold _send_task.
  assert (Hnothing :
    total fs = total fs /\ file_id fs = file_id fs /\ file_path fs = file_path fs /\
    exists oks failed,
      @nil attempt = oks ++ failed /\ round_shape oks failed /\
      sent fs = sent fs ∪ list_to_set (a_index <$> oks) /\
      (retries fs = retries fs \/ retries fs = (retries fs + 1)%Z) /\
      (failed <> [] -> retries fs = (retries fs + 1)%Z)).
  { repeat split. exists [], []. 
    repeat split; [constructor|now left|(set_unfold; tauto)|now left|congruence]. }
  destruct (get_next_hop host_fp) as [nh|]; [|exact Hnothing].
  case_bool_decide; [exact Hnothing|]. clear Hnothing.
  destruct (bool_decide (total (touch now fs) = 1%Z) && bool_decide (0%Z ∉ sent (touch now fs))).
  - destruct (send_file nh _ _ net) as [ok net']. destruct ok;
      cbn [r_state r_attempts mark_sent bump_retries touch total file_id file_path sent retries];
      repeat (split; [reflexivity|]).
    + exists [mkAttempt 0%Z (files !! file_path fs) true], [].
      split; [reflexivity|]. split; [split; [repeat constructor|now left]|].
      split; [simpl; (set_unfold; tauto)|]. split; [now left|congruence].
    + exists [], [mkAttempt 0%Z (files !! file_path fs) false].
      split; [reflexivity|].
      split; [split; [constructor|right; eexists; split; reflexivity]|].
      split; [simpl; (set_unfold; tauto)|]. split; [now right|reflexivity].
  - pose proof (send_chunks_accounting files nh (pending_indices (touch now fs))
                  (mkRound (touch now fs) net [] [])) as Hacc.
    cbv zeta in Hacc. cbn [r_state r_attempts touch total file_id file_path sent retries] in Hacc.
    destruct Hacc as (Ht & Hf & Hp & _ & oks & failed & Ha & Hshape & Hs & Hr & Hr').
    repeat (split; [assumption|]).
    exists oks, failed. split; [exact Ha|]. split; [exact Hshape|].
    split; [rewrite Hs; (set_unfold; tauto)|]. split; assumption.
Qed.

End RoundAccounting.

(** X6. What a send round does to a job.  The round leaves [total],
    [file_id] and [file_path] alone.  Its sends are a run of successes
    followed by at most one failure, after which it stops.  The sent set
    grows by exactly the indices whose send succeeded, [retries] grows by
    at most one, and by one whenever a send failed.  A job whose sent
    indices lie in [range(total)] keeps that property. *)
Theorem send_round_accounting (chunk_size : nat) (Net : Type)
    (get_next_hop : string -> option string)
    (send_file : string -> option bytes -> frag_key -> Net -> bool * Net)
    (host_fp : string) (files : gmap string bytes) (now : float)
    (fs : FragmentState) (net : Net) :
  let r := _send_task chunk_size get_next_hop send_file host_fp files now fs net in
  total (r_state r) = total fs /\
  file_id (r_state r) = file_id fs /\
  file_path (r_state r) = file_path fs /\
  (exists oks failed,
     r_attempts r = oks ++ failed /\
     Forall (fun a => a_ok a = true) oks /\
     (failed = [] \/ exists a, failed = [a] /\ a_ok a = false)) /\
  sent (r_state r) = sent fs ∪ list_to_set (succeeded (r_attempts r)) /\
  (retries (r_state r) = retries fs \/ retries (r_state r) = (retries fs + 1)%Z) /\
  ((exists a, a ∈ r_attempts r /\ a_ok a = false) ->
   retries (r_state r) = (retries fs + 1)%Z) /\
  (sent_in_range fs -> sent_in_range (r_state r)).
Proof.
  intros r.
  destruct (send_task_accounting chunk_size Net get_next_hop send_file host_fp files now fs net)
    as (Ht & Hf & Hp & oks & failed & Ha & Hshape & Hs & Hr & Hr').
  fold r in Ht, Hf, Hp, Ha, Hs, Hr, Hr'.
  assert (Hsucc : succeeded (r_attempts r) = a_index <$> oks).
  { rewrite Ha. now apply succeeded_shape. }
  split; [exact Ht|]. split; [exact Hf|]. split; [exact Hp|].
  split; [exists oks, failed; destruct Hshape; auto|].
  split; [rewrite Hsucc; exact Hs|].
  split; [exact Hr|]. split.
  - intros (a & Hin & Hbad). apply Hr'. intros ->. rewrite app_nil_r in Ha.
    rewrite Ha in Hin. destruct Hshape as [Hoks _]. rewrite Forall_forall in Hoks.
    rewrite (Hoks a Hin) in Hbad. discriminate.
  - intros Hrange i Hi. rewrite Ht. rewrite Hs in Hi.
    apply elem_of_union in Hi as [Hi|Hi]; [now apply Hrange|].
    destruct (send_task_attempts chunk_size Net get_next_hop send_file host_fp files now fs net)
      as (tried & Hpre & Heq).
    fold r in Heq.
    assert (Hin : i ∈ tried).
    { rewrite <- Heq, Ha, fmap_app. apply elem_of_app. left.
      now apply elem_of_list_to_set in Hi. }
    destruct Hpre as [k Hk].
    assert (Hpend : i ∈ pending_indices fs) by (rewrite Hk; apply elem_of_app; now left).
    apply elem_of_pending_indices in Hpend. tauto.
Qed.

(** *** Completion *)

(** X7. For a job whose sent indices lie in [range(total)] -- every job
    the scan creates and the send rounds advance is such -- [done] holds
    exactly when no index is pending. *)
Theorem done_iff_nothing_pending fs :
  (0 <= total fs)%Z -> sent_in_range fs ->
  (done fs = true <-> pending_indices fs = []).
Proof.
  intros Hn Hr.
  set (R := list_to_set (seqZ 0 (total fs)) : gset Z).
  assert (HR : size R = Z.to_nat (total fs)).
  { unfold R. rewrite size_list_to_set by apply NoDup_seqZ. apply length_seqZ. }
  assert (Hsub : sent fs ⊆ R).
  { intros i Hi. apply elem_of_list_to_set, elem_of_seqZ. specialize (Hr i Hi). lia. }
  unfold done. rewrite bool_decide_eq_true. split.
  - intros Hsize.
    assert (Heq : sent fs = R) by (apply set_subseteq_size_eq; [exact Hsub|lia]).
    destruct (pending_indices fs) as [|i l] eqn:E; [reflexivity|].
    assert (Hi : i ∈ pending_indices fs) by (rewrite E; left).
    apply elem_of_pending_indices in Hi as [Hi1 Hi2].
    exfalso. apply Hi2. rewrite Heq. apply elem_of_list_to_set, elem_of_seqZ. lia.
  - intros Hnil.
    assert (Heq : sent fs = R).
    { apply set_eq. intros i. split; [apply Hsub|].
      intros Hi. apply elem_of_list_to_set, elem_of_seqZ in Hi.
      destruct (decide (i ∈ sent fs)) as [Hin|Hout]; [exact Hin|].
      assert (Hp : i ∈ pending_indices fs) by (apply elem_of_pending_indices; split; [lia|exact Hout]).
      rewrite Hnil in Hp. inversion Hp. }
    rewrite Heq, HR. lia.
Qed.

Lemma done_iff_nothing_pending_witness :
  done (mkFS "box/a.log" "id" 3 {[0%Z; 2%Z; 1%Z]} 0 0%float) = true <->
  pending_indices (mkFS "box/a.log" "id" 3 {[0%Z; 2%Z; 1%Z]} 0 0%float) = [].
Proof.
  apply (done_iff_nothing_pending (mkFS "box/a.log" "id" 3 {[0%Z; 2%Z; 1%Z]} 0 0%float)).
  - simpl. lia.
  - intros i Hi. simpl in *. set_unfold. lia.
Defined.

Lemma landed_lookup_other k content fid net idxs i :
  i ∉ idxs -> landed k content fid net idxs !! (fid, i) = net !! (fid, i).
Proof.
  unfold landed. revert net. induction idxs as [|x idxs IH]; intros net Hi; [reflexivity|].
  simpl. rewrite IH by (intros H; apply Hi; now right).
  apply lookup_insert_ne. intros [= ->]. apply Hi. left.
Qed.

Lemma send_chunks_landing_state (k : nat) (content : bytes) (files : gmap string bytes)
    (nh : string) (idxs : list Z) (r : round (gmap frag_key bytes)) :
  0 < k ->
  files !! file_path (r_state r) = Some content ->
  (forall i, i ∈ idxs -> (0 <= i)%Z /\ Z.to_nat i * k < length content) ->
  let r' := send_chunks k landing_send files nh idxs r in
  retries (r_state r') = retries (r_state r) /\
  r_attempts r' = r_attempts r
                  ++ ((fun i => mkAttempt i (Some (chunk k content (Z.to_nat i))) true) <$> idxs).
Proof.
  intros Hk. revert r. induction idxs as [|idx rest IH]; intros r Hfile Hall; cbv zeta.
  - simpl. split; [reflexivity|now rewrite app_nil_r].
  - destruct (Hall idx ltac:(left)) as [H0 Hlt].
    simpl send_chunks. rewrite Hfile, chunk_at_Some by assumption.
    simpl landing_send. cbv iota beta.
    edestruct (IH (mkRound (mark_sent idx (r_state r))
                     (<[(file_id (r_state r), idx) := chunk k content (Z.to_nat idx)]> (r_net r))
                     (r_attempts r ++ [mkAttempt idx (Some (chunk k content (Z.to_nat idx))) true])
                     (r_saved r ++ [to_dict (mark_sent idx (r_state r))])))
      as (Hr & Ha).
    + exact Hfile.
    + intros i Hi. apply Hall. now right.
    + cbv zeta in Hr, Ha. split; [exact Hr|].
      etransitivity; [exact Ha|]. cbn [r_attempts]. rewrite <- app_assoc. reflexivity.
Qed.

(** X8. Resuming completes the file.  Take a job as it is reloaded, with
    any set [S] of indices already sent whose fragments are at the
    receiver.  One round in which there is a route and every send succeeds
    sends exactly the pending indices, counts no retry, leaves the job
    [done], and the receiver's fragments -- those of earlier rounds and
    those of this one -- assemble to the file's bytes. *)
Theorem resumed_round_completes (k : nat) (content : bytes) (path fid hop host : string)
    (now : float) (S : gset Z) (rt : Z) (lt0 : float) (net : gmap frag_key bytes) :
  0 < k -> hop <> "" ->
  (forall i, i ∈ S -> (0 <= i < _total_chunks k content)%Z) ->
  chunks_present k content fid net S ->
  let job := mkFS path fid (_total_chunks k content) S rt lt0 in
  let r := _send_task k (fun _ => Some hop) landing_send host
             ({[path := content]} : gmap string bytes) now job net in
  a_index <$> r_attempts r = pending_indices job /\
  Forall (fun a => a_ok a = true) (r_attempts r) /\
  retries (r_state r) = rt /\
  done (r_state r) = true /\
  _assemble ∅ (r_net r) (r_state r) = Some content.
Proof.
  intros Hk Hhop HS Hnet job r.
  set (n := nchunks k (length content)).
  pose proof (total_chunks_nchunks k content Hk) as Htot. fold n in Htot.
  assert (Hpath : ({[path := content]} : gmap string bytes) !! path = Some content)
    by apply lookup_singleton_eq.
  (* the chunk behind every pending index exists *)
  assert (Hpend : forall i, i ∈ pending_indices job ->
             (0 <= i)%Z /\ (Z.to_nat i * k < length content \/ (i = 0%Z /\ n <= 1))).
  { intros i Hi. apply elem_of_pending_indices in Hi as [Hi Hout]. cbn [total sent job] in Hi, Hout.
    split; [lia|]. destruct (decide (n <= 1)) as [Hn|Hn].
    - right. split; [lia|exact Hn].
    - left. apply nchunks_lt; [exact Hk|]. fold n. lia. }
  (* what the round leaves behind *)
  assert (Hround :
    a_index <$> r_attempts r = pending_indices job /\
    Forall (fun a => a_ok a = true) (r_attempts r) /\
    retries (r_state r) = rt /\
    total (r_state r) = _total_chunks k content /\
    file_id (r_state r) = fid /\
    sent (r_state r) = list_to_set (pending_indices job) ∪ S /\
    (forall i, i ∈ pending_indices job ->
       r_net r !! (fid, i) = Some (chunk k content (Z.to_nat i))) /\
    (forall i, i ∉ pending_indices job -> r_net r !! (fid, i) = net !! (fid, i))).
  { subst r. unfold _send_task. rewrite bool_decide_eq_false_2 by exact Hhop.
    cbn [touch job total sent file_path file_id retries last_try].
    destruct (bool_decide (_total_chunks k content = 1%Z) && bool_decide (0%Z ∉ S)) eqn:Hsingle.
    - apply andb_prop in Hsingle as [H1 H0].
      apply bool_decide_eq_true in H1. apply bool_decide_eq_true in H0.
      assert (Hp : pending_indices job = [0%Z]).
      { unfold pending_indices. cbn [job total sent]. rewrite H1. change (seqZ 0 1) with [0%Z].
        rewrite filter_cons_True by exact H0. reflexivity. }
      assert (Hwhole : chunk k content (Z.to_nat 0) = content).
      { unfold chunk. simpl. apply take_ge.
        destruct (decide (length content <= k)) as [Hle|Hgt]; [exact Hle|].
        assert (1 < n); [|lia].
        apply nchunks_lt; [exact Hk|]. lia. }
      rewrite Hpath. simpl landing_send. cbv iota beta.
      cbn [r_state r_net r_attempts mark_sent touch total sent file_path file_id retries].
      rewrite Hp. repeat split.
      + repeat constructor.
      + intros i Hi. apply list_elem_of_singleton in Hi. subst i.
        rewrite lookup_insert_eq, Hwhole. reflexivity.
      + intros i Hi. apply lookup_insert_ne. intros [= <-]. apply Hi. left.
    - set (fs0 := touch now job).
      assert (Hp : pending_indices fs0 = pending_indices job) by reflexivity.
      rewrite Hp.
      assert (Hall : forall i, i ∈ pending_indices job ->
                (0 <= i)%Z /\ Z.to_nat i * k < length content).
      { intros i Hi. destruct (Hpend i Hi) as [H0 [Hlt|[-> Hn]]]; [split; assumption|].
        exfalso. apply elem_of_pending_indices in Hi as [_ Hout]. cbn [job sent] in Hout.
        apply andb_false_iff in Hsingle as [H|H]; apply bool_decide_eq_false in H.
        + apply H. lia.
        + apply H. exact Hout. }
      set (r0 := mkRound fs0 net [] []).
      destruct (send_chunks_landing k content {[path := content]} hop (pending_indices job)
                  r0 Hk Hpath Hall) as (Hnet' & Hs & Ht & Hf).
      destruct (send_chunks_landing_state k content {[path := content]} hop (pending_indices job)
                  r0 Hk Hpath Hall) as (Hr & Ha).
      cbv zeta in Hr, Ha.
      change (sent (r_state r0)) with S in Hs.
      change (total (r_state r0)) with (_total_chunks k content) in Ht.
      change (file_id (r_state r0)) with fid in Hf, Hnet'.
      change (r_net r0) with net in Hnet'.
      change (retries (r_state r0)) with rt in Hr.
      change (r_attempts r0) with (@nil attempt) in Ha.
      split; [rewrite Ha; simpl; rewrite <- list_fmap_compose; apply list_fmap_id|].
      split; [rewrite Ha; simpl; apply Forall_fmap, Forall_forall; intros; reflexivity|].
      split; [exact Hr|]. split; [exact Ht|]. split; [exact Hf|]. split; [exact Hs|].
      split.
      + intros i Hi. rewrite Hnet'. now apply landed_lookup.
      + intros i Hi. rewrite Hnet'. now apply landed_lookup_other. }
  destruct Hround as (Ha & Hoks & Hrt & Ht & Hf & Hs & Hnew & Hold).
  split; [exact Ha|]. split; [exact Hoks|]. split; [exact Hrt|].
  assert (Hsent : sent (r_state r) = list_to_set (seqZ 0 (_total_chunks k content))).
  { rewrite Hs. apply set_eq. intros i.
    rewrite elem_of_union, !elem_of_list_to_set, elem_of_pending_indices, elem_of_seqZ.
    cbn [job total sent]. split.
    - intros [[H1 _]|H]; [lia|]. specialize (HS i H). lia.
    - intros H. destruct (decide (i ∈ S)); [now right|left; split; [lia|assumption]]. }
  split.
  - unfold done. apply bool_decide_eq_true. rewrite Hsent, Ht.
    rewrite size_list_to_set by apply NoDup_seqZ. rewrite length_seqZ. lia.
  - unfold _assemble. rewrite Ht, Hf.
    rewrite (mapM_all _ (fun idx => chunk k content (Z.to_nat idx))).
    + simpl. f_equal. destruct (decide (n <= 0)) as [Hn0|Hn0].
      * assert (Hlen : length content = 0).
        { destruct (decide (0 < length content)) as [Hpos|]; [|lia].
          assert (0 < n); [|lia]. apply nchunks_lt; [exact Hk|]. lia. }
        apply nil_length_inv in Hlen. rewrite Hlen.
        replace (_total_chunks k []) with 1%Z
          by (rewrite total_chunks_nchunks by exact Hk; unfold nchunks; simpl;
              rewrite Nat.div_small by lia; reflexivity).
        change (seqZ 0 1) with [0%Z]. simpl. unfold chunk. simpl.
        rewrite take_nil. reflexivity.
      * replace (_total_chunks k content) with (Z.of_nat n) by lia.
        rewrite concat_chunks_seqZ. apply concat_all_chunks. exact Hk.
    + intros i Hi. unfold read_frag. rewrite lookup_empty.
      destruct (decide (i ∈ pending_indices job)) as [Hp|Hp]; [now apply Hnew|].
      rewrite Hold by exact Hp. apply Hnet.
      apply elem_of_seqZ in Hi.
      destruct (decide (i ∈ S)) as [HiS|HiS]; [exact HiS|].
      exfalso. apply Hp. apply elem_of_pending_indices. cbn [job total sent].
      split; [lia|exact HiS].
Qed.

Lemma resumed_round_completes_witness :
  let content := ["P"; "r"; "i"; "m"; "e"; "L"; "o"; "g"; "!"]%byte in
  let net : gmap frag_key bytes := {[("id", 1%Z) := ["e"; "L"; "o"; "g"]%byte]} in
  let r := _send_task 4 (fun _ => Some "hop") landing_send "H"
             ({["box/a.log" := content]} : gmap string bytes) 9%float
             (mkFS "box/a.log" "id" (_total_chunks 4 content) {[1%Z]} 2 5%float) net in
  done (r_state r) = true /\ _assemble ∅ (r_net r) (r_state r) = Some content.
Proof.
  intros content net r.
  destruct (resumed_round_completes 4 content "box/a.log" "id" "hop" "H" 9%float {[1%Z]} 2
              5%float net) as (_ & _ & _ & Hd & Ha).
  - lia.
  - discriminate.
  - intros i Hi. apply elem_of_singleton in Hi. subst i. vm_compute. split; congruence.
  - intros i Hi. apply elem_of_singleton in Hi. subst i. reflexivity.
  - split; assumption.
Defined.

(** *** Restart: what [_load_states] brings back *)

Lemma load_one_candidate dir names st sp d :
  sf_record sp = Some d ->
  load_one dir names st sp =
  match first_candidate names (d_file_id d) with
  | Some c => (<[d_file_id d := from_dict (dir +:+ "/" +:+ c) d]> st.1, st.2)
  | None => (st.1, st.2 ++ [sf_stem sp])
  end.
Proof.
  intros Hd. unfold load_one, first_candidate. rewrite Hd.
  destruct (filter _ names) as [|c cs]; reflexivity.
Qed.

(** Name the record that wins for an id, wherever the goal mentions it. *)
Ltac one_last :=
  match goal with
  | |- context [last ?l] =>
      let L := fresh "L" in
      set (L := last l);
      repeat match goal with |- context [last ?l'] => change (last l') with L end;
      clearbody L
  end.

Lemma load_one_unusable dir names st sp :
  sf_record sp = None -> (load_one dir names st sp).1 = st.1.
Proof.
  intros Hd. unfold load_one. rewrite Hd.
  destruct (sf_file_id sp); [destruct (filter _ names)|]; reflexivity.
Qed.

Lemma load_fold_lookup dir names sfs st fid :
  (foldl (load_one dir names) st sfs).1 !! fid =
  match last (filter (fun d => d_file_id d = fid) (omap sf_record sfs)),
        first_candidate names fid with
  | Some d, Some c => Some (from_dict (dir +:+ "/" +:+ c) d)
  | _, _ => st.1 !! fid
  end.
Proof.
  revert st. induction sfs as [|sp sfs IH]; intros st; [reflexivity|].
  simpl foldl. rewrite IH. clear IH. simpl omap.
  destruct (sf_record sp) as [d|] eqn:Hd.
  - rewrite (load_one_candidate dir names st sp d Hd).
    destruct (decide (d_file_id d = fid)) as [<-|Hid].
    + rewrite filter_cons_True by reflexivity. rewrite last_cons. one_last.
      destruct L as [d'|];
        destruct (first_candidate names (d_file_id d)) as [c|]; try reflexivity.
      simpl. now rewrite lookup_insert_eq.
    + rewrite filter_cons_False by exact Hid. one_last.
      destruct L as [d'|];
        destruct (first_candidate names fid) as [c|];
        destruct (first_candidate names (d_file_id d)) as [c'|]; simpl; try reflexivity;
        now rewrite lookup_insert_ne.
  - rewrite (load_one_unusable dir names st sp Hd). reflexivity.
Qed.

Lemma load_fold_deleted dir names sfs st sp d :
  sp ∈ sfs -> sf_record sp = Some d -> first_candidate names (d_file_id d) = None ->
  sf_stem sp ∈ (foldl (load_one dir names) st sfs).2.
Proof.
  intros Hin Hd Hnone.
  assert (Hmono : forall l st x, x ∈ st.2 -> x ∈ (foldl (load_one dir names) st l).2).
  { induction l as [|sp' l IH]; intros st' x Hx; [exact Hx|]. simpl. apply IH.
    unfold load_one. destruct (sf_record sp') as [d'|].
    - destruct (filter _ names); simpl; [apply elem_of_app; now left|exact Hx].
    - destruct (sf_file_id sp'); [|exact Hx].
      destruct (filter _ names); simpl; [apply elem_of_app; now left|exact Hx]. }
  revert st. induction sfs as [|sp' sfs IH]; intros st; [inversion Hin|].
  simpl. apply elem_of_cons in Hin as [<-|Hin]; [|now apply IH].
  apply Hmono. rewrite (load_one_candidate dir names st sp d Hd), Hnone. simpl.
  apply elem_of_app. right. left.
Qed.

(** X9. A restart restores a job when, and only when, a name in the
    mailbag directory contains the first eight characters of its id.  If
    the record [_save_state] wrote for the job is the one on disk for that
    id and some name matches, [_load_states] puts back a job with the same
    id, total, sent set, retry count and last-try time, its path being the
    first matching name; so the same indices are pending as before.  If no
    name matches, the table has no job for the id and the state file is
    among those deleted. *)
Theorem restart_restores_named_files (dir : string) (names : list string)
    (sfs : list state_file) (sp : state_file) (fs : FragmentState) :
  sp ∈ sfs ->
  sf_record sp = Some (to_dict fs) ->
  (forall sp' d, sp' ∈ sfs -> sf_record sp' = Some d -> d_file_id d = file_id fs ->
                 d = to_dict fs) ->
  let loaded := _load_states dir names sfs in
  (forall c, first_candidate names (file_id fs) = Some c ->
     loaded.1 !! file_id fs
       = Some (mkFS (dir +:+ "/" +:+ c) (file_id fs) (total fs) (sent fs) (retries fs)
                 (last_try fs)) /\
     (forall job, loaded.1 !! file_id fs = Some job ->
        pending_indices job = pending_indices fs /\ done job = done fs)) /\
  (first_candidate names (file_id fs) = None ->
     loaded.1 !! file_id fs = None /\ sf_stem sp ∈ loaded.2).
Proof.
  intros Hin Hrec Honly loaded.
  assert (Hlast : last (filter (fun d => d_file_id d = file_id fs) (omap sf_record sfs))
                  = Some (to_dict fs)).
  { assert (Hmem : to_dict fs ∈ filter (fun d => d_file_id d = file_id fs) (omap sf_record sfs)).
    { apply list_elem_of_filter. split; [reflexivity|].
      apply list_elem_of_omap. exists sp. split; assumption. }
    destruct (last _) as [d|] eqn:E.
    - f_equal. apply last_Some_elem_of in E. apply list_elem_of_filter in E as [Hid Hd].
      apply list_elem_of_omap in Hd as (sp' & Hsp' & Hd). now apply (Honly sp' d).
    - apply last_None in E. rewrite E in Hmem. inversion Hmem. }
  assert (Hlook : loaded.1 !! file_id fs =
            match first_candidate names (file_id fs) with
            | Some c => Some (from_dict (dir +:+ "/" +:+ c) (to_dict fs))
            | None => None
            end).
  { unfold loaded, _load_states. rewrite load_fold_lookup, Hlast.
    destruct (first_candidate names (file_id fs)); [reflexivity|apply lookup_empty]. }
  split.
  - intros c Hc. rewrite Hlook, Hc.
    assert (Hjob : from_dict (dir +:+ "/" +:+ c) (to_dict fs)
                   = mkFS (dir +:+ "/" +:+ c) (file_id fs) (total fs) (sent fs) (retries fs)
                       (last_try fs)).
    { pose proof (from_dict_to_dict fs) as H. unfold from_dict in *. cbn [to_dict d_file_id d_total
        d_sent d_retries d_last_try] in *. destruct fs; simpl in *. injection H as ->. reflexivity. }
    rewrite Hjob. split; [reflexivity|]. intros job [= <-]. split; reflexivity.
  - intros Hnone. rewrite Hlook, Hnone. split; [reflexivity|].
    apply load_fold_deleted with (to_dict fs); assumption.
Qed.

Lemma restart_restores_named_files_witness :
  (_load_states "box" ["a_1f2e3d4c.log"; ".state"]
     [mkStateFile "1f2e3d4c55" (Some (to_dict (mkFS "box/a_1f2e3d4c.log" "1f2e3d4c55" 3
                                                   {[0%Z]} 1 7%float)))]).1
    !! "1f2e3d4c55"
  = Some (mkFS ("box" +:+ "/" +:+ "a_1f2e3d4c.log") "1f2e3d4c55" 3 {[0%Z]} 1 7%float).
Proof.
  set (fs := mkFS "box/a_1f2e3d4c.log" "1f2e3d4c55" 3 {[0%Z]} 1 7%float).
  apply (restart_restores_named_files "box" ["a_1f2e3d4c.log"; ".state"]
           [mkStateFile "1f2e3d4c55" (Some (to_dict fs))]
           (mkStateFile "1f2e3d4c55" (Some (to_dict fs))) fs).
  - left.
  - reflexivity.
  - intros sp' d Hin Hd _. apply list_elem_of_singleton in Hin. subst sp'.
    simpl in Hd. congruence.
  - reflexivity.
Defined.

(** *** Discovery *)

Section DiscoveryProperties.

Variable chunk_size : nat.
Variable sha256_hex : bytes -> string.
Variable mailbag_dir : string.

Lemma discover_one_mono st e fid fs :
  st.1 !! fid = Some fs ->
  (discover_one chunk_size sha256_hex mailbag_dir st e).1 !! fid = Some fs.
Proof.
  intros H. unfold discover_one.
  destruct (String.prefix "." (e_name e) || negb (e_is_file e)); [exact H|].
  destruct (e_content e) as [content|]; [|exact H].
  destruct (st.1 !! sha256_hex content) as [old|] eqn:Hold; [exact H|].
  simpl. rewrite lookup_insert_ne; [exact H|]. intros <-. congruence.
Qed.

Lemma discover_fold_mono entries st fid fs :
  st.1 !! fid = Some fs ->
  (foldl (discover_one chunk_size sha256_hex mailbag_dir) st entries).1 !! fid = Some fs.
Proof.
  revert st. induction entries as [|e entries IH]; intros st H; [exact H|].
  simpl. apply IH. now apply discover_one_mono.
Qed.

Lemma discover_one_queues st e content :
  eligible e content ->
  is_Some ((discover_one chunk_size sha256_hex mailbag_dir st e).1 !! sha256_hex content).
Proof.
  intros (Hdot & Hfile & Hc). unfold discover_one. rewrite Hdot, Hfile, Hc. simpl.
  destruct (st.1 !! sha256_hex content) as [old|] eqn:Hold.
  - rewrite Hold. eauto.
  - simpl. rewrite lookup_insert_eq. eauto.
Qed.

Lemma discover_fold_queues entries st e content :
  e ∈ entries -> eligible e content ->
  is_Some ((foldl (discover_one chunk_size sha256_hex mailbag_dir) st entries).1
             !! sha256_hex content).
Proof.
  revert st. induction entries as [|e' entries IH]; intros st Hin He; [inversion Hin|].
  simpl. apply elem_of_cons in Hin as [<-|Hin]; [|now apply IH].
  destruct (discover_one_queues st e content He) as [fs Hfs].
  exists fs. now apply discover_fold_mono.
Qed.

Lemma discover_one_known st e :
  (forall content, eligible e content -> is_Some (st.1 !! sha256_hex content)) ->
  discover_one chunk_size sha256_hex mailbag_dir st e = st.
Proof.
  intros Hknown. unfold discover_one.
  destruct (String.prefix "." (e_name e)) eqn:Hdot; [reflexivity|].
  destruct (e_is_file e) eqn:Hfile; [|reflexivity]. simpl.
  destruct (e_content e) as [content|] eqn:Hc; [|reflexivity].
  destruct (Hknown content) as [fs Hfs]; [repeat split; assumption|].
  now rewrite Hfs.
Qed.

Lemma discover_fold_known entries st :
  (forall e content, e ∈ entries -> eligible e content -> is_Some (st.1 !! sha256_hex content)) ->
  foldl (discover_one chunk_size sha256_hex mailbag_dir) st entries = st.
Proof.
  induction entries as [|e entries IH]; intros Hknown; [reflexivity|].
  simpl. rewrite discover_one_known.
  - apply IH. intros e' content Hin. apply Hknown. now right.
  - intros content. apply Hknown. left.
Qed.

End DiscoveryProperties.

Lemma discover_facts (chunk_size : nat) (sha256_hex : bytes -> string)
    (mailbag_dir : string) (entries : list dir_entry) (st : gmap string FragmentState) :
  let once := _scan_and_send_discover chunk_size sha256_hex false mailbag_dir entries st in
  (forall fid fs, st !! fid = Some fs -> once.1 !! fid = Some fs) /\
  (forall e content, e ∈ entries -> eligible e content ->
     is_Some (once.1 !! sha256_hex content)) /\
  (forall fid fs, once.1 !! fid = Some fs -> st !! fid = None ->
     sent fs = ∅ /\ retries fs = 0%Z).
Proof.
  cbv zeta. unfold _scan_and_send_discover.
  split; [intros fid fs H; now apply discover_fold_mono|].
  split; [intros e content Hin He; eapply discover_fold_queues; eassumption|].
  intros fid fs Hlook Hfresh.
  apply discover_fold_lookup in Hlook as [H|(e & _ & _ & _ & content & _ & Hfid & ->)];
    [simpl in H; congruence|].
  split; reflexivity.
Qed.

(** X10. Discovery queues each file once.  A scan keeps every job that was
    in the table as it was; on a node that is not the host, every entry it
    does not skip has a job under its content hash afterwards; a job it
    creates has nothing sent and no retry; and scanning the same directory
    listing again creates no job and writes no state file. *)
Theorem discovery_queues_each_file_once (chunk_size : nat) (sha256_hex : bytes -> string)
    (is_host : bool) (mailbag_dir : string) (entries : list dir_entry)
    (_states : gmap string FragmentState) :
  let once := _scan_and_send_discover chunk_size sha256_hex is_host mailbag_dir entries _states in
  (forall fid fs, _states !! fid = Some fs -> once.1 !! fid = Some fs) /\
  (forall e content, is_host = false -> e ∈ entries -> eligible e content ->
     is_Some (once.1 !! sha256_hex content)) /\
  (forall fid fs, once.1 !! fid = Some fs -> _states !! fid = None ->
     sent fs = ∅ /\ retries fs = 0%Z /\ file_id fs = fid /\ (1 <= total fs)%Z) /\
  _scan_and_send_discover chunk_size sha256_hex is_host mailbag_dir entries once.1
  = (once.1, []).
Proof.
  intros once. subst once. unfold _scan_and_send_discover.
  destruct is_host.
  - simpl. repeat split; try congruence; intros; congruence.
  - split; [intros fid fs H; now apply discover_fold_mono|].
    split; [intros e content _ Hin He; eapply discover_fold_queues; eassumption|].
    split.
    + intros fid fs Hlook Hfresh.
      apply discover_fold_lookup in Hlook as [H|(e & _ & _ & _ & content & _ & Hfid & ->)];
        [simpl in H; congruence|].
      simpl. repeat split; try reflexivity. unfold _total_chunks. lia.
    + set (once := foldl (discover_one chunk_size sha256_hex mailbag_dir) (_states, []) entries).
      rewrite (discover_fold_known chunk_size sha256_hex mailbag_dir entries (once.1, [])).
      * reflexivity.
      * intros e content Hin He. simpl. eapply discover_fold_queues; eassumption.
Qed.



(** A round for a job that has nothing marked sent, over a transport that
    never fails, sends every index. *)
Lemma fresh_round_attempts (k : nat) (content : bytes) (path fid hop host : string)
    (now : float) (files : gmap string bytes) (net : gmap frag_key bytes) :
  0 < k -> hop <> "" -> files !! path = Some content ->
  a_index <$> r_attempts (_send_task k (fun _ => Some hop) landing_send host files now
                            (new_state path fid (_total_chunks k content)) net)
  = seqZ 0 (_total_chunks k content).
Proof.
  intros Hk Hhop Hfile. unfold _send_task. rewrite bool_decide_eq_false_2 by exact Hhop.
  set (n := nchunks k (length content)).
  pose proof (total_chunks_nchunks k content Hk) as Htot. fold n in Htot.
  generalize dependent (_total_chunks k content). intros T Htot.
  cbn [touch new_state total sent file_path file_id].
  rewrite (bool_decide_eq_true_2 (0%Z ∉ (∅ : gset Z))) by apply not_elem_of_empty.
  destruct (decide (T = 1%Z)) as [->|HT].
  - rewrite bool_decide_eq_true_2 by reflexivity. simpl andb. cbv iota.
    rewrite Hfile. simpl landing_send. cbv iota beta. reflexivity.
  - rewrite bool_decide_eq_false_2 by exact HT. simpl andb. cbv iota.
    assert (Hpend : pending_indices (touch now (new_state path fid T)) = seqZ 0 T).
    { unfold pending_indices. cbn [total sent touch new_state]. apply filter_all.
      intros x _. apply not_elem_of_empty. }
    rewrite Hpend.
    destruct (send_chunks_landing_state k content files hop (seqZ 0 T)
                (mkRound (touch now (new_state path fid T)) net [] []) Hk Hfile)
      as (_ & Ha).
    { intros i Hi. apply elem_of_seqZ in Hi. split; [lia|].
      apply nchunks_lt; [exact Hk|]. fold n. lia. }
    cbv zeta in Ha. etransitivity; [exact (f_equal (fmap a_index) Ha)|].
    simpl. rewrite <- list_fmap_compose. apply list_fmap_id.
Qed.

(** C3. A restart does not resume a job whose file name lacks the first
    eight characters of its content hash, which is the name of every file
    the node itself puts into the mailbag directory.  Let the file be in
    the directory and its record, with sent set [S], in the state
    directory.  [_load_states] finds no name for the pattern, so it takes
    the file for gone: it deletes the record and puts no job in the table.
    The next scan queues the file as a new job with nothing marked sent, so
    its pending indices are all of [0 .. n-1], not [{0 .. n-1} \ S], and a
    round over a transport that never fails sends every index, those of [S]
    among them. *)
Theorem restart_forgets_sent_chunks (k : nat) (sha256_hex : bytes -> string)
    (mailbag_dir : string) (names : list string) (sfs : list state_file)
    (sp : state_file) (d : state_dict)
    (entries : list dir_entry) (e : dir_entry) (content : bytes)
    (hop host : string) (now : float)
    (files : gmap string bytes) (net : gmap frag_key bytes) :
  0 < k -> hop <> "" ->
  e ∈ entries -> eligible e content ->
  (forall e' content', e' ∈ entries -> eligible e' content' ->
     sha256_hex content' = sha256_hex content -> e' = e) ->
  files !! (mailbag_dir +:+ "/" +:+ e_name e) = Some content ->
  sp ∈ sfs -> sf_record sp = Some d ->
  d_file_id d = sha256_hex content ->
  d_total d = _total_chunks k content ->
  first_candidate names (sha256_hex content) = None ->
  let fid := sha256_hex content in
  let S : gset Z := list_to_set (default [] (d_sent d)) in
  let loaded := _load_states mailbag_dir names sfs in
  let scanned := _scan_and_send_discover k sha256_hex false mailbag_dir entries loaded.1 in
  let job := new_state (mailbag_dir +:+ "/" +:+ e_name e) fid (d_total d) in
  let r := _send_task k (fun _ => Some hop) landing_send host files now job net in
  loaded.1 !! fid = None /\
  sf_stem sp ∈ loaded.2 /\
  scanned.1 !! fid = Some job /\
  pending_indices job = seqZ 0 (d_total d) /\
  a_index <$> r_attempts r = seqZ 0 (d_total d) /\
  (forall i, i ∈ S -> (0 <= i < d_total d)%Z ->
     (i ∉ pending_indices (from_dict (file_path job) d)) /\
     (i ∈ a_index <$> r_attempts r)).
Proof.
  intros Hk Hhop Hin He Honly Hfile Hsp Hd Hid Htotal Hnone fid S loaded scanned job r.
  assert (Hl : loaded.1 !! fid = None).
  { unfold loaded, _load_states. rewrite load_fold_lookup. fold fid in Hnone. rewrite Hnone.
    destruct (last _); apply lookup_empty. }
  assert (Hjob : scanned.1 !! fid = Some job).
  { destruct (discover_facts k sha256_hex mailbag_dir entries loaded.1) as (_ & Hq & _).
    destruct (Hq e content Hin He) as [job' Hjob']. fold scanned fid in Hjob'.
    rewrite Hjob'. f_equal.
    unfold scanned, _scan_and_send_discover in Hjob'.
    apply discover_fold_lookup in Hjob' as [H|(e' & He' & Hdot & Hf & content' & Hc & Hfid & ->)].
    - simpl in H. congruence.
    - assert (e' = e) as ->.
      { apply (Honly e' content' He'); [repeat split; assumption|]. symmetry. exact Hfid. }
      destruct He as (_ & _ & Hc'). assert (content' = content) as -> by congruence.
      unfold job. rewrite Htotal. reflexivity. }
  assert (Hatt : a_index <$> r_attempts r = seqZ 0 (d_total d)).
  { unfold r, job. rewrite Htotal. now apply fresh_round_attempts. }
  split; [exact Hl|]. split.
  { apply load_fold_deleted with d; [exact Hsp|exact Hd|]. rewrite Hid. exact Hnone. }
  split; [exact Hjob|]. split.
  { unfold pending_indices. cbn [job new_state total sent]. apply filter_all.
    intros i _. apply not_elem_of_empty. }
  split; [exact Hatt|].
  intros i Hi Hrange. split.
  - intros Hp. apply elem_of_pending_indices in Hp as [_ Hout]. apply Hout. exact Hi.
  - rewrite Hatt. apply elem_of_seqZ. lia.
Qed.

(** The theorem for an archive of three chunks, two of them sent before the
    restart: the round after the restart sends all three. *)
Lemma restart_forgets_sent_chunks_witness :
  let content := ["P"; "r"; "i"; "m"; "e"; "L"; "o"; "g"; "!"]%byte in
  let e := mkDirEntry "demo_20260101_000000.tar.gz" true (Some content) in
  let d := mkDict "1f2e3d4c55" 3 (Some [0%Z; 1%Z]) (Some 0%Z) None in
  let loaded := _load_states "box" ["demo_20260101_000000.tar.gz"; ".state"]
                  [mkStateFile "1f2e3d4c55" (Some d)] in
  let r := _send_task 4 (fun _ => Some "hop") landing_send "H"
             ({["box/demo_20260101_000000.tar.gz" := content]} : gmap string bytes) 9%float
             (new_state ("box" +:+ "/" +:+ "demo_20260101_000000.tar.gz") "1f2e3d4c55" 3)
             (∅ : gmap frag_key bytes) in
  loaded.1 !! "1f2e3d4c55" = None /\
  a_index <$> r_attempts r = seqZ 0 3.
Proof.
  intros content e d loaded r.
  destruct (restart_forgets_sent_chunks 4 (fun _ => "1f2e3d4c55") "box"
              ["demo_20260101_000000.tar.gz"; ".state"] [mkStateFile "1f2e3d4c55" (Some d)]
              (mkStateFile "1f2e3d4c55" (Some d)) d [e] e content "hop" "H" 9%float
              {["box/demo_20260101_000000.tar.gz" := content]} ∅)
    as (H1 & _ & _ & _ & H5 & _).
  - lia.
  - discriminate.
  - left.
  - repeat split.
  - intros e' content' He' _ _. now apply list_elem_of_singleton in He'.
  - reflexivity.
  - left.
  - reflexivity.
  - reflexivity.
  - reflexivity.
  - reflexivity.
  - split; assumption.
Defined.

(** *** File ids *)

Lemma concat_read_blocks n content : 0 < n -> concat (read_blocks n content) = content.
Proof.
  intros Hn. unfold read_blocks. rewrite iter_chunks_loop_spec by exact Hn.
  rewrite <- list_fmap_compose.
  rewrite (list_fmap_ext _ (chunk n content) (seq 0 (nchunks n (length content))))
    by (intros; reflexivity).
  now apply concat_all_chunks.
Qed.

Lemma foldl_hash_update {Hash} (hash_update : Hash -> bytes -> Hash) h blocks :
  (forall h, hash_update h [] = h) ->
  (forall h a b, hash_update (hash_update h a) b = hash_update h (a ++ b)) ->
  foldl hash_update h blocks = hash_update h (concat blocks).
Proof.
  intros Hnil Happ. revert h. induction blocks as [|b blocks IH]; intros h; simpl.
  - symmetry. apply Hnil.
  - rewrite IH. apply Happ.
Qed.

(** X12. The id of a file does not depend on how it is read.  For a hash
    object that, like hashlib's, digests what it was fed in pieces as it
    digests the whole, [_file_id] is the digest of the file's content,
    whatever the block size; so the mailbag (blocks of 8192 bytes) and the
    bridge (blocks of 65536 bytes) give the same file the same id. *)
Theorem file_id_is_digest_of_content {Hash : Type} (sha256 : Hash)
    (hash_update : Hash -> bytes -> Hash) (hexdigest : Hash -> string) (content : bytes) :
  (forall h, hash_update h [] = h) ->
  (forall h a b, hash_update (hash_update h a) b = hash_update h (a ++ b)) ->
  (forall n, 0 < n ->
     digest_by_blocks sha256 hash_update hexdigest n content
     = hexdigest (hash_update sha256 content)) /\
  _file_id sha256 hash_update hexdigest content = hexdigest (hash_update sha256 content) /\
  Bridge._file_id sha256 hash_update hexdigest content
  = _file_id sha256 hash_update hexdigest content.
Proof.
  intros Hnil Happ.
  assert (H : forall n, 0 < n ->
            digest_by_blocks sha256 hash_update hexdigest n content
            = hexdigest (hash_update sha256 content)).
  { intros n Hn. unfold digest_by_blocks.
    rewrite (foldl_hash_update hash_update sha256 _ Hnil Happ).
    now rewrite concat_read_blocks. }
  split; [exact H|]. split.
  - unfold _file_id. apply H. lia.
  - unfold Bridge._file_id, _file_id. rewrite !H by lia. reflexivity.
Qed.

Lemma file_id_is_digest_of_content_witness :
  Bridge._file_id ([] : bytes) (fun h b => h ++ b) (fun h => match h with [] => "empty" | _ => "full" end) ["a"; "b"; "c"]%byte
  = _file_id ([] : bytes) (fun h b => h ++ b) (fun h => match h with [] => "empty" | _ => "full" end) ["a"; "b"; "c"]%byte.
Proof.
  apply (file_id_is_digest_of_content ([] : bytes) (fun h b => h ++ b)).
  - intros h. apply app_nil_r.
  - intros h a b. symmetry. apply app_assoc.
Defined.

(** *** The host side: fragments and assembly *)

Lemma read_frag_delete_incoming inc tmp (k k' : frag_key) :
  k <> k' -> read_frag (delete k inc) tmp k' = read_frag inc tmp k'.
Proof. intros Hne. unfold read_frag. now rewrite lookup_delete_ne. Qed.

Lemma read_frag_delete_tmp inc tmp (k k' : frag_key) :
  k <> k' -> read_frag inc (delete k tmp) k' = read_frag inc tmp k'.
Proof. intros Hne. unfold read_frag. now rewrite lookup_delete_ne. Qed.

Lemma Forall2_elem_impl {A B} (P Q : A -> B -> Prop) l k :
  Forall2 P l k -> (forall x y, x ∈ l -> P x y -> Q x y) -> Forall2 Q l k.
Proof.
  induction 1 as [|x y l k Hxy Hlk IH]; intros Himpl; constructor.
  - apply Himpl; [left|exact Hxy].
  - apply IH. intros x' y' Hin. apply Himpl. now right.
Qed.

(** When every fragment is there, the loop reads them all, in order, and
    leaves none of those it read. *)
Lemma assemble_loop_all fid idxs written inc tmp frags :
  NoDup idxs ->
  Forall2 (fun i b => read_frag inc tmp (fid, i) = Some b) idxs frags ->
  exists inc' tmp',
    assemble_loop fid idxs written inc tmp = (true, written ++ concat frags, inc', tmp') /\
    (forall i, i ∈ idxs -> inc' !! (fid, i) = None) /\
    (forall i, i ∈ idxs -> inc !! (fid, i) = None -> tmp' !! (fid, i) = None) /\
    (forall k, inc !! k = None -> inc' !! k = None) /\
    (forall k, tmp !! k = None -> tmp' !! k = None).
Proof.
  intros Hnd. revert written inc tmp frags.
  induction Hnd as [|idx rest Hnotin Hnd IH]; intros written inc tmp frags Hall.
  - inversion Hall; subst. exists inc, tmp. simpl. rewrite app_nil_r.
    split; [reflexivity|]. split; [intros i Hi; inversion Hi|].
    split; [intros i Hi; inversion Hi|]. split; trivial.
  - inversion Hall as [|? b ? frags' Hb Hrest]; subst.
    assert (Hother : forall i, i ∈ rest -> (fid, idx) <> (fid, i)).
    { intros i Hi [= ->]. contradiction. }
    simpl assemble_loop.
    assert (Hb2 : match inc !! (fid, idx) with
                  | Some x => Some x
                  | None => tmp !! (fid, idx)
                  end = Some b) by exact Hb.
    clear Hb. rename Hb2 into Hb.
    destruct (inc !! (fid, idx)) as [data|] eqn:Hinc.
    + assert (data = b) as -> by congruence.
      destruct (IH (written ++ b) (delete (fid, idx) inc) tmp frags') as (inc' & tmp' & Hloop & H1 & H2 & H3 & H4).
      { eapply Forall2_elem_impl; [exact Hrest|]. intros i y Hi Hy. simpl.
        rewrite read_frag_delete_incoming by now apply Hother. exact Hy. }
      exists inc', tmp'. rewrite Hloop. simpl. rewrite <- app_assoc.
      split; [reflexivity|]. split; [|split; [|split]].
      * intros i [->|Hi]%elem_of_cons; [|now apply H1]. apply H3, lookup_delete_eq.
      * intros i [->|Hi]%elem_of_cons Hnone; [congruence|]. apply H2; [exact Hi|].
        rewrite lookup_delete_ne by now apply Hother. exact Hnone.
      * intros k Hk. apply H3. destruct (decide (k = (fid, idx))) as [->|Hne];
          [apply lookup_delete_eq|now rewrite lookup_delete_ne].
      * exact H4.
    + destruct (tmp !! (fid, idx)) as [data|] eqn:Htmp; [|discriminate].
      assert (data = b) as -> by congruence.
      destruct (IH (written ++ b) inc (delete (fid, idx) tmp) frags') as (inc' & tmp' & Hloop & H1 & H2 & H3 & H4).
      { eapply Forall2_elem_impl; [exact Hrest|]. intros i y Hi Hy. simpl.
        rewrite read_frag_delete_tmp by now apply Hother. exact Hy. }
      exists inc', tmp'. rewrite Hloop. simpl. rewrite <- app_assoc.
      split; [reflexivity|]. split; [|split; [|split]].
      * intros i [->|Hi]%elem_of_cons; [now apply H3|now apply H1].
      * intros i [->|Hi]%elem_of_cons Hnone; [apply H4, lookup_delete_eq|now apply H2].
      * exact H3.
      * intros k Hk. apply H4. destruct (decide (k = (fid, idx))) as [->|Hne];
          [apply lookup_delete_eq|now rewrite lookup_delete_ne].
Qed.

Lemma read_frag_None inc tmp (k : frag_key) :
  read_frag inc tmp k = None <-> inc !! k = None /\ tmp !! k = None.
Proof.
  unfold read_frag. destruct (inc !! k) as [x|]; split.
  - discriminate.
  - intros [H _]. discriminate.
  - intros H. split; [reflexivity|exact H].
  - intros [_ H]. exact H.
Qed.

Lemma assemble_loop_app fid l1 l2 written inc tmp :
  assemble_loop fid (l1 ++ l2) written inc tmp =
  let '(ok, written', inc', tmp') := assemble_loop fid l1 written inc tmp in
  if ok then assemble_loop fid l2 written' inc' tmp' else (false, written', inc', tmp').
Proof.
  revert written inc tmp. induction l1 as [|idx l1 IH]; intros written inc tmp; [reflexivity|].
  simpl. destruct (inc !! (fid, idx)) as [data|]; [apply IH|].
  destruct (tmp !! (fid, idx)) as [data|]; [apply IH|reflexivity].
Qed.

Lemma assemble_loop_missing fid idx rest written inc tmp :
  read_frag inc tmp (fid, idx) = None ->
  assemble_loop fid (idx :: rest) written inc tmp = (false, written, inc, tmp).
Proof.
  intros H.
  assert (H2 : match inc !! (fid, idx) with
               | Some x => Some x
               | None => tmp !! (fid, idx)
               end = None) by exact H.
  simpl. destruct (inc !! (fid, idx)) as [data|]; [discriminate|].
  destruct (tmp !! (fid, idx)) as [data|]; [discriminate|reflexivity].
Qed.

(** Before the last index has arrived the job is in the table, not done,
    and the disk is as it was. *)
Lemma receive_before_last fid n (arrivals : list (Z * string)) last states store :
  states !! fid = None ->
  (forall i, i ∈ arrivals.*1 -> (0 <= i < n)%Z) ->
  (0 <= last < n)%Z ->
  last ∉ arrivals.*1 ->
  let before := foldl (fun st (a : Z * string) => receive_fragment fid a.1 n a.2 st)
                  (states, store) arrivals in
  before.2 = store /\
  (forall fid', fid' <> fid -> before.1 !! fid' = states !! fid') /\
  (forall fs, before.1 !! fid = Some fs ->
     total fs = n /\ file_id fs = fid /\ sent fs = list_to_set arrivals.*1 /\ done fs = false) /\
  (before.1 !! fid = None -> arrivals = []).
Proof.
  intros Hfresh. induction arrivals as [|a arrivals IH] using rev_ind; intros Hrange Hlast Hnot.
  - simpl. split; [reflexivity|]. split; [reflexivity|]. split; [|reflexivity].
    intros fs H. congruence.
  - cbv zeta. rewrite foldl_snoc.
    rewrite fmap_app in Hrange, Hnot. simpl in Hrange, Hnot.
    destruct IH as (Hstore & Hothers & Hjob & Hnone).
    { intros i Hi. apply Hrange. apply elem_of_app. now left. }
    { exact Hlast. }
    { intros Hi. apply Hnot. apply elem_of_app. now left. }
    set (st := foldl (fun st (a : Z * string) => receive_fragment fid a.1 n a.2 st)
                 (states, store) arrivals) in *.
    set (fs0 := default (new_state a.2 fid n) (st.1 !! fid)).
    assert (H0 : total fs0 = n /\ file_id fs0 = fid /\ sent fs0 = list_to_set arrivals.*1).
    { unfold fs0. destruct (st.1 !! fid) as [fs|] eqn:E.
      - destruct (Hjob fs eq_refl) as (? & ? & ? & _). simpl. auto.
      - rewrite (Hnone eq_refl). simpl. auto. }
    destruct H0 as (Ht & Hf & Hs).
    assert (Hsent : sent (mark_sent a.1 fs0) = list_to_set (arrivals.*1 ++ [a.1])).
    { simpl. rewrite Hs, list_to_set_app_L. simpl. set_unfold. tauto. }
    assert (Hnotdone : done (mark_sent a.1 fs0) = false).
    { unfold done. apply bool_decide_eq_false. rewrite Hsent. cbn [total mark_sent]. rewrite Ht.
      set (R := list_to_set (seqZ 0 n) : gset Z).
      assert (HR : size R = Z.to_nat n).
      { unfold R. rewrite size_list_to_set by apply NoDup_seqZ. apply length_seqZ. }
      assert (Hsub : list_to_set (arrivals.*1 ++ [a.1]) ⊆ R ∖ {[last]}).
      { intros i Hi. apply elem_of_list_to_set in Hi. apply elem_of_difference. split.
        - apply elem_of_list_to_set, elem_of_seqZ. specialize (Hrange i Hi). lia.
        - intros ->%elem_of_singleton. contradiction. }
      apply subseteq_size in Hsub. rewrite size_difference in Hsub.
      + rewrite size_singleton in Hsub. lia.
      + intros i ->%elem_of_singleton. apply elem_of_list_to_set, elem_of_seqZ. lia. }
    unfold receive_fragment. fold fs0. cbv zeta. rewrite Hnotdone. simpl.
    split; [exact Hstore|]. split; [|split].
    + intros fid' Hne. rewrite lookup_insert_ne by congruence. now apply Hothers.
    + rewrite lookup_insert_eq. intros fs [= <-].
      split; [exact Ht|]. split; [exact Hf|]. split; [|exact Hnotdone].
      rewrite fmap_app. exact Hsent.
    + rewrite lookup_insert_eq. discriminate.
Qed.

(** X13. Fragments may arrive in any order, and more than once.  While an
    index of [0 .. n-1] is still missing the job stays in the table, not
    done, and nothing on disk is touched; the call that brings the last
    missing index assembles the file: the output holds the fragments
    concatenated in index order (not in arrival order), the fragments read
    are removed, and the job leaves the table.  Other jobs are not
    affected. *)
Theorem fragments_assemble_in_any_order (fid : string) (n : Z)
    (arrivals : list (Z * string)) (last : Z) (last_path : string)
    (states : gmap string FragmentState) (store : host_store) (frags : list bytes) :
  states !! fid = None ->
  (forall i, i ∈ arrivals.*1 -> (0 <= i < n)%Z) ->
  (0 <= last < n)%Z ->
  last ∉ arrivals.*1 ->
  (forall i, (0 <= i < n)%Z -> i = last \/ i ∈ arrivals.*1) ->
  mapM (fun i => read_frag (incoming store) (tmp_incoming store) (fid, i)) (seqZ 0 n)
    = Some frags ->
  let before := foldl (fun st (a : Z * string) => receive_fragment fid a.1 n a.2 st)
                  (states, store) arrivals in
  let after := receive_fragment fid last n last_path before in
  before.2 = store /\
  (forall fs, before.1 !! fid = Some fs ->
     done fs = false /\ sent fs = list_to_set arrivals.*1) /\
  after.1 !! fid = None /\
  (forall fid', fid' <> fid -> after.1 !! fid' = states !! fid') /\
  assembled after.2 !! String.substring 0 16 fid = Some (concat frags) /\
  (forall i, (0 <= i < n)%Z -> incoming after.2 !! (fid, i) = None).
Proof.
  intros Hfresh Hrange Hlast Hnot Hcover Hfrags before after.
  destruct (receive_before_last fid n arrivals last states store Hfresh Hrange Hlast Hnot)
    as (Hstore & Hothers & Hjob & Hnone).
  fold before in Hstore, Hothers, Hjob, Hnone.
  split; [exact Hstore|].
  split; [intros fs Hfs; destruct (Hjob fs Hfs) as (_ & _ & Hs & Hd); split; assumption|].
  set (fs0 := default (new_state last_path fid n) (before.1 !! fid)).
  assert (H0 : total fs0 = n /\ file_id fs0 = fid /\ sent fs0 = list_to_set arrivals.*1).
  { unfold fs0. destruct (before.1 !! fid) as [fs|] eqn:E.
    - destruct (Hjob fs eq_refl) as (? & ? & ? & _). simpl. auto.
    - rewrite (Hnone eq_refl). simpl. auto. }
  destruct H0 as (Ht & Hf & Hs).
  assert (Hdone : done (mark_sent last fs0) = true).
  { unfold done. apply bool_decide_eq_true. cbn [total sent mark_sent]. rewrite Ht, Hs.
    assert (Heq : {[last]} ∪ list_to_set arrivals.*1 = (list_to_set (seqZ 0 n) : gset Z)).
    { apply set_eq. intros i.
      rewrite elem_of_union, elem_of_singleton, !elem_of_list_to_set, elem_of_seqZ. split.
      - intros [->|Hi]; [lia|]. specialize (Hrange i Hi). lia.
      - intros Hi. apply Hcover. lia. }
    rewrite Heq, size_list_to_set by apply NoDup_seqZ. rewrite length_seqZ. lia. }
  apply mapM_Some_1 in Hfrags.
  destruct (assemble_loop_all fid (seqZ 0 n) [] (incoming store) (tmp_incoming store) frags
              (NoDup_seqZ 0 n) Hfrags) as (inc' & tmp' & Hloop & Hgone & _).
  assert (Hafter : after = (delete fid (<[fid := mark_sent last fs0]> before.1),
                            mkStore inc' tmp'
                              (<[String.substring 0 16 fid := concat frags]> (assembled store)))).
  { unfold after, receive_fragment. fold fs0. cbv zeta. rewrite Hdone.
    unfold _assemble_on_disk. cbn [fst snd file_id total mark_sent].
    rewrite Hf, Ht, Hstore, Hloop. reflexivity. }
  rewrite Hafter. cbn [fst snd assembled incoming].
  split; [apply lookup_delete_eq|]. split; [|split].
  - intros fid' Hne. rewrite lookup_delete_ne, lookup_insert_ne by congruence.
    now apply Hothers.
  - apply lookup_insert_eq.
  - intros i Hi. apply Hgone. apply elem_of_seqZ. lia.
Qed.

Lemma fragments_assemble_in_any_order_witness :
  let store := mkStore {[("id", 1%Z) := ["b"]%byte]}
                 {[("id", 0%Z) := ["a"]%byte; ("id", 2%Z) := ["c"]%byte]} ∅ in
  let before := foldl (fun st (a : Z * string) => receive_fragment "id" a.1 3 a.2 st)
                  (∅, store) [(2%Z, "p2"); (0%Z, "p0"); (2%Z, "p2")] in
  let after := receive_fragment "id" 1 3 "p1" before in
  assembled after.2 !! String.substring 0 16 "id" = Some (concat [["a"]; ["b"]; ["c"]]%byte).
Proof.
  intros store before after.
  apply (fragments_assemble_in_any_order "id" 3 [(2%Z, "p2"); (0%Z, "p0"); (2%Z, "p2")] 1 "p1"
           ∅ store [["a"]; ["b"]; ["c"]]%byte).
  - reflexivity.
  - intros i Hi. simpl in Hi. set_unfold. lia.
  - lia.
  - simpl. set_unfold. lia.
  - intros i Hi. simpl. set_unfold. lia.
  - reflexivity.
Defined.

(** X14. Assembly that meets a missing fragment loses what it has read.
    If the fragments [0 .. j-1] are on disk and fragment [j] is in neither
    directory, [_assemble] leaves the job in the table, but the output file
    has been created with the first [j] fragments and each of those
    fragments has been deleted from the place it was read from. *)
Theorem failed_assembly_consumes_fragments (fs : FragmentState)
    (states : gmap string FragmentState) (store : host_store) (j : Z) (frags : list bytes) :
  (0 <= j < total fs)%Z ->
  mapM (fun i => read_frag (incoming store) (tmp_incoming store) (file_id fs, i)) (seqZ 0 j)
    = Some frags ->
  read_frag (incoming store) (tmp_incoming store) (file_id fs, j) = None ->
  let after := _assemble_on_disk fs (states, store) in
  after.1 = states /\
  assembled after.2 !! String.substring 0 16 (file_id fs) = Some (concat frags) /\
  (forall i, (0 <= i < j)%Z ->
     incoming after.2 !! (file_id fs, i) = None /\
     (incoming store !! (file_id fs, i) = None ->
      tmp_incoming after.2 !! (file_id fs, i) = None)).
Proof.
  intros Hj Hfrags Hmissing after.
  apply mapM_Some_1 in Hfrags.
  destruct (assemble_loop_all (file_id fs) (seqZ 0 j) [] (incoming store) (tmp_incoming store)
              frags (NoDup_seqZ 0 j) Hfrags) as (inc' & tmp' & Hloop & Hgone & Hgone' & Hinc & Htmp).
  assert (Hsplit : seqZ 0 (total fs) = seqZ 0 j ++ j :: seqZ (Z.succ j) (Z.pred (total fs - j))).
  { replace (total fs) with (j + (total fs - j))%Z at 1 by lia.
    rewrite seqZ_app by lia. f_equal. rewrite Z.add_0_l. apply seqZ_cons. lia. }
  assert (Hmissing' : read_frag inc' tmp' (file_id fs, j) = None).
  { apply read_frag_None in Hmissing as [E1 E2]. apply read_frag_None.
    split; [now apply Hinc|now apply Htmp]. }
  assert (Hafter : after = (states, mkStore inc' tmp'
                              (<[String.substring 0 16 (file_id fs) := concat frags]>
                                 (assembled store)))).
  { unfold after, _assemble_on_disk. cbn [fst snd].
    rewrite Hsplit, assemble_loop_app, Hloop.
    rewrite (assemble_loop_missing _ _ _ _ _ _ Hmissing'). reflexivity. }
  rewrite Hafter. cbn [fst snd assembled incoming tmp_incoming].
  split; [reflexivity|]. split; [apply lookup_insert_eq|].
  intros i Hi. split.
  - apply Hgone. apply elem_of_seqZ. lia.
  - apply Hgone'. apply elem_of_seqZ. lia.
Qed.

Lemma failed_assembly_consumes_fragments_witness :
  let store := mkStore {[("id", 0%Z) := ["a"]%byte]} {[("id", 2%Z) := ["c"]%byte]} ∅ in
  let after := _assemble_on_disk (mkFS "p" "id" 3 {[0%Z; 1%Z; 2%Z]} 0 0%float)
                 ({["id" := mkFS "p" "id" 3 {[0%Z; 1%Z; 2%Z]} 0 0%float]}, store) in
  incoming after.2 !! ("id", 0%Z) = None /\
  after.1 !! "id" = Some (mkFS "p" "id" 3 {[0%Z; 1%Z; 2%Z]} 0 0%float).
Proof.
  intros store after.
  destruct (failed_assembly_consumes_fragments (mkFS "p" "id" 3 {[0%Z; 1%Z; 2%Z]} 0 0%float)
              {["id" := mkFS "p" "id" 3 {[0%Z; 1%Z; 2%Z]} 0 0%float]} store 1 [["a"]%byte])
    as (H1 & _ & H3).
  - simpl. lia.
  - reflexivity.
  - reflexivity.
  - fold after in H1, H3. split.
    + destruct (H3 0%Z ltac:(lia)) as [H _]. exact H.
    + rewrite H1. apply lookup_singleton_eq.
Defined.

(** *** The retry policy of the scan loop *)

Lemma send_task_touches (chunk_size : nat) (Net : Type)
    (get_next_hop : string -> option string)
    (send_file : string -> option bytes -> frag_key -> Net -> bool * Net)
    (host_fp : string) (files : gmap string bytes) (now : float)
    (fs : FragmentState) (net : Net) :
  let r := _send_task chunk_size get_next_hop send_file host_fp files now fs net in
  r_attempts r <> [] -> last_try (r_state r) = now.
Proof.
  cbv zeta. unfold _send_task.
  destruct (get_next_hop host_fp) as [nh|]; [|simpl; congruence].
  case_bool_decide; [simpl; congruence|].
  destruct (bool_decide (total (touch now fs) = 1%Z) && bool_decide (0%Z ∉ sent (touch now fs))).
  - destruct (send_file nh _ _ net) as [ok net']. destruct ok; reflexivity.
  - intros _.
    destruct (send_chunks_accounting chunk_size Net get_next_hop send_file host_fp files nh
                (pending_indices (touch now fs)) (mkRound (touch now fs) net [] []))
      as (_ & _ & _ & Hl & _).
    exact Hl.
Qed.

(** X15. The retry policy of the scan loop, job by job.  A job that is
    done is taken out of the table and its state file deleted, without a
    send.  A job that is not done and has used up [MAX_RETRIES] is left as
    it is, in every scan.  After a round in which a send failed, the job is
    passed over as long as less than [RETRY_DELAY] seconds have gone by
    since that round.  A round that finds no route changes nothing: it
    counts no retry and does not move [last_try]. *)
Theorem retry_policy (chunk_size : nat) (Net : Type)
    (get_next_hop : string -> option string)
    (send_file : string -> option bytes -> frag_key -> Net -> bool * Net)
    (host_fp : string) (files : gmap string bytes) :
  (forall t_check t_try fs (st : scan_state Net),
     done fs = true ->
     advance_task chunk_size get_next_hop send_file host_fp files t_check t_try fs st
     = (mkScan (delete (file_id fs) (s_states st)) (delete (file_id fs) (s_disk st)) (s_net st),
        [])) /\
  (forall t_check t_try fs (st : scan_state Net),
     done fs = false -> (MAX_RETRIES <= retries fs)%Z ->
     advance_task chunk_size get_next_hop send_file host_fp files t_check t_try fs st
     = (st, [])) /\
  (forall now fs net t_check t_try (st : scan_state Net),
     let r := _send_task chunk_size get_next_hop send_file host_fp files now fs net in
     (0 <= retries fs)%Z ->
     (exists a, a ∈ r_attempts r /\ a_ok a = false) ->
     PyFloat.lt (t_check - now)%float RETRY_DELAY = true ->
     (advance_task chunk_size get_next_hop send_file host_fp files t_check t_try (r_state r) st).2
     = []) /\
  (forall now fs net,
     get_next_hop host_fp = None \/ get_next_hop host_fp = Some "" ->
     _send_task chunk_size get_next_hop send_file host_fp files now fs net
     = mkRound fs net [] []).
Proof.
  split; [|split; [|split]].
  - intros t_check t_try fs st Hdone. unfold advance_task. rewrite Hdone. reflexivity.
  - intros t_check t_try fs st Hdone Hmax. unfold advance_task. rewrite Hdone.
    apply Z.leb_le in Hmax. now rewrite Hmax.
  - intros now fs net t_check t_try st r Hpos (a & Hin & Hbad) Hsoon.
    destruct (send_task_accounting chunk_size Net get_next_hop send_file host_fp files now fs net)
      as (_ & _ & _ & oks & failed & Ha & [Hoks _] & _ & _ & Hr).
    fold r in Ha, Hr.
    assert (Hretries : retries (r_state r) = (retries fs + 1)%Z).
    { apply Hr. intros ->. rewrite app_nil_r in Ha. rewrite Ha in Hin.
      rewrite Forall_forall in Hoks. rewrite (Hoks a Hin) in Hbad. discriminate. }
    assert (Hlast : last_try (r_state r) = now).
    { apply send_task_touches. intros Hnil. fold r in Hnil. rewrite Hnil in Hin. inversion Hin. }
    unfold advance_task. destruct (done (r_state r)); [reflexivity|].
    destruct (MAX_RETRIES <=? retries (r_state r))%Z; [reflexivity|].
    rewrite Hlast, Hsoon, Hretries.
    replace (0 <? retries fs + 1)%Z with true by (symmetry; apply Z.ltb_lt; lia).
    reflexivity.
  - intros now fs net [H|H]; unfold _send_task; rewrite H; reflexivity.
Qed.

End MailbagProperties.

(** ** transport.py: connections, handlers, heartbeats *)

Module TransportProperties.
Import Transport TransportFacts.

Section Connections.

Variable Key : Type.
Variable dumps_sorted : json -> bytes.
Variable fromhex : string -> option bytes.
Variable verify_ssh_sig : Key -> bytes -> bytes -> call_result bool.
Variable json_loads : bytes -> option json.
Variable St : Type.

(** What a packet that passes [_verify_signed] must look like. *)
Lemma verify_signed_inv (t : PostmareTransport Key St) packet sender_fp :
  _verify_signed dumps_sorted fromhex verify_ssh_sig t packet sender_fp = true ->
  exists key data hex sig verdict,
    _known_keys t !! sender_fp = Some key /\
    subscript packet "data" = Some data /\
    subscript packet "signature" = Some (JStr hex) /\
    fromhex hex = Some sig /\
    verify_ssh_sig key (dumps_sorted data) sig = Returned verdict.
Proof.
  unfold _verify_signed.
  destruct (_known_keys t !! sender_fp) as [key|] eqn:Hk; [|discriminate].
  destruct (subscript packet "data") as [data|] eqn:Hd; [|discriminate].
  destruct (subscript packet "signature") as [[| | |hex| |]|] eqn:Hs; try discriminate.
  destruct (fromhex hex) as [sig|] eqn:Hh; [|discriminate].
  destruct (verify_ssh_sig key (dumps_sorted data) sig) as [verdict|] eqn:Hv; [|discriminate].
  intros _. exists key, data, hex, sig, verdict. repeat split; assumption.
Qed.

(** The outcomes of [_handle_conn]: nothing happens; or one handler is
    called; or an exception escapes after verification, before any call. *)
Lemma handle_conn_outcomes (t : PostmareTransport Key St) peer_fp buf st :
  let out := _handle_conn dumps_sorted fromhex verify_ssh_sig json_loads t peer_fp buf st in
  out = mkHandled st [] false \/
  (exists packet data msg_type h,
     json_loads buf = Some packet /\
     _verify_signed dumps_sorted fromhex verify_ssh_sig t packet peer_fp = true /\
     subscript packet "data" = Some data /\
     subscript data "type" = Some (JStr msg_type) /\
     _handlers t !! msg_type = Some h /\
     h_invoked out = [(msg_type, peer_fp, data)] /\
     h_escaped out = false /\
     h_state out = match h peer_fp data st with Returned st' => st' | Raised => st end) \/
  (exists packet,
     json_loads buf = Some packet /\
     _verify_signed dumps_sorted fromhex verify_ssh_sig t packet peer_fp = true /\
     out = mkHandled st [] true).
Proof.
  cbv zeta. unfold _handle_conn.
  destruct buf as [|b buf']; [now left|].
  destruct (json_loads (b :: buf')) as [packet|] eqn:Hload; [|now left].
  destruct (_verify_signed dumps_sorted fromhex verify_ssh_sig t packet peer_fp) eqn:Hver;
    [|now left].
  destruct (verify_signed_inv t packet peer_fp Hver) as (key & data & hex & sig & v & _ & Hdata & _).
  rewrite Hdata. cbn [negb default from_option id].
  destruct data as [| | | | |items];
    try (right; right; exists packet; split; [reflexivity|]; split; [exact Hver|reflexivity]).
  destruct (assoc "type" items) as [[| | |msg_type| |]|] eqn:Htype; try (now left);
    try (right; right; exists packet; split; [reflexivity|]; split; [exact Hver|reflexivity]).
  lazymatch goal with
  | |- context [@lookup ?K ?V ?M ?I msg_type ?m] =>
      destruct (@lookup K V M I msg_type m) as [h|] eqn:Hh
  end; [|now left].
  right. left. exists packet, (JObj items), msg_type, h.
  split; [reflexivity|]. split; [exact Hver|]. split; [exact Hdata|].
  split; [exact Htype|]. split; [exact Hh|].
  destruct (h peer_fp (JObj items) st); repeat split.
Qed.

(** Every handler call carries the fingerprint [_handle_conn] was given. *)
Lemma handle_conn_invoked_peer (t : PostmareTransport Key St) peer_fp buf st msg_type fp data :
  (msg_type, fp, data)
    ∈ h_invoked (_handle_conn dumps_sorted fromhex verify_ssh_sig json_loads t peer_fp buf st) ->
  fp = peer_fp.
Proof.
  destruct (handle_conn_outcomes t peer_fp buf st)
    as [H|[(packet & d & ty & h & _ & _ & _ & _ & _ & Hi & _)|(packet & _ & _ & H)]];
    cbv zeta in *.
  - rewrite H. intros Hin. inversion Hin.
  - rewrite Hi. intros Hin. apply list_elem_of_singleton in Hin. congruence.
  - rewrite H. intros Hin. inversion Hin.
Qed.

End Connections.

(** X16. What reaches a handler.  A connection leads to at most one
    handler call.  The call is made for a packet that passed
    [_verify_signed], with the fingerprint of the authenticated peer (not
    the packet's ['sender'] field) and the packet's ['data']; the handler is
    the one registered for the ['type'] of the data; and an exception the
    handler raises stays inside [_handle_conn].  An exception escapes only
    for a packet that passed verification, and then no handler has run. *)
Theorem handler_calls_are_authenticated (Key : Type) (dumps_sorted : json -> bytes)
    (fromhex : string -> option bytes)
    (verify_ssh_sig : Key -> bytes -> bytes -> call_result bool)
    (json_loads : bytes -> option json) (St : Type)
    (t : PostmareTransport Key St) (peer_fp : string) (buf : bytes) (st : St) :
  let out := _handle_conn dumps_sorted fromhex verify_ssh_sig json_loads t peer_fp buf st in
  length (h_invoked out) <= 1 /\
  (forall msg_type fp data, (msg_type, fp, data) ∈ h_invoked out ->
     fp = peer_fp /\
     h_escaped out = false /\
     exists packet key h,
       json_loads buf = Some packet /\
       _verify_signed dumps_sorted fromhex verify_ssh_sig t packet peer_fp = true /\
       _known_keys t !! peer_fp = Some key /\
       subscript packet "data" = Some data /\
       subscript data "type" = Some (JStr msg_type) /\
       _handlers t !! msg_type = Some h /\
       h_state out = match h peer_fp data st with Returned st' => st' | Raised => st end) /\
  (h_invoked out = [] -> h_state out = st) /\
  (h_escaped out = true ->
     h_invoked out = [] /\
     exists packet, json_loads buf = Some packet /\
       _verify_signed dumps_sorted fromhex verify_ssh_sig t packet peer_fp = true).
Proof.
  intros out.
  destruct (handle_conn_outcomes Key dumps_sorted fromhex verify_ssh_sig json_loads St
              t peer_fp buf st)
    as [H|[(packet & data & ty & h & Hl & Hv & Hd & Hty & Hh & Hi & He & Hs)|(packet & Hl & Hv & H)]];
    fold out in H || fold out in Hi, He, Hs.
  - rewrite H. simpl. split; [lia|]. split; [intros ? ? ? Hin; inversion Hin|].
    split; [reflexivity|discriminate].
  - rewrite Hi, He. simpl. split; [lia|]. split; [|split; [discriminate|discriminate]].
    intros ty' fp d Hin. apply list_elem_of_singleton in Hin. injection Hin as -> -> ->.
    split; [reflexivity|]. split; [reflexivity|].
    destruct (verify_signed_inv Key dumps_sorted fromhex verify_ssh_sig St t packet peer_fp Hv)
      as (key & _ & _ & _ & _ & Hkey & _).
    exists packet, key, h. repeat split; assumption.
  - rewrite H. simpl. split; [lia|]. split; [intros ? ? ? Hin; inversion Hin|].
    split; [reflexivity|]. intros _. split; [reflexivity|]. exists packet. split; assumption.
Qed.

(** X17. A packet that does not pass the signature check changes nothing.
    When the buffer is empty or is not JSON, when the peer has no key in
    [_known_keys], when the packet has no ['data'] or no string
    ['signature'], when the signature is not hexadecimal, or when
    [verify_ssh_sig] raises, [_handle_conn] calls no handler, leaves the
    handlers' state as it was, and lets no exception out. *)
Theorem rejected_connection_changes_nothing (Key : Type) (dumps_sorted : json -> bytes)
    (fromhex : string -> option bytes)
    (verify_ssh_sig : Key -> bytes -> bytes -> call_result bool)
    (json_loads : bytes -> option json) (St : Type)
    (t : PostmareTransport Key St) (peer_fp : string) (buf : bytes) (st : St) :
  (buf = [] \/
   json_loads buf = None \/
   exists packet,
     json_loads buf = Some packet /\
     (_known_keys t !! peer_fp = None \/
      subscript packet "data" = None \/
      (forall hex, subscript packet "signature" <> Some (JStr hex)) \/
      (exists hex, subscript packet "signature" = Some (JStr hex) /\ fromhex hex = None) \/
      (exists key data hex sig,
         _known_keys t !! peer_fp = Some key /\
         subscript packet "data" = Some data /\
         subscript packet "signature" = Some (JStr hex) /\
         fromhex hex = Some sig /\
         verify_ssh_sig key (dumps_sorted data) sig = Raised))) ->
  _handle_conn dumps_sorted fromhex verify_ssh_sig json_loads t peer_fp buf st
  = mkHandled st [] false.
Proof.
  intros [->|[Hnone|(packet & Hload & Hwhy)]].
  - reflexivity.
  - unfold _handle_conn. destruct buf; [reflexivity|]. now rewrite Hnone.
  - apply rejected_packet_dropped with packet; [exact Hload|].
    destruct (_verify_signed dumps_sorted fromhex verify_ssh_sig t packet peer_fp) eqn:Hver;
      [|reflexivity].
    exfalso.
    destruct (verify_signed_inv Key dumps_sorted fromhex verify_ssh_sig St t packet peer_fp Hver)
      as (key & data & hex & sig & v & Hk & Hd & Hs & Hh & Hv).
    destruct Hwhy as [H|[H|[H|[(hex' & H1 & H2)|(key' & data' & hex' & sig' & H1 & H2 & H3 & H4 & H5)]]]].
    + congruence.
    + congruence.
    + now apply (H hex).
    + congruence.
    + assert (key' = key) by congruence. assert (data' = data) by congruence.
      assert (hex' = hex) by congruence. subst. assert (sig' = sig) by congruence. subst.
      congruence.
Qed.

Lemma rejected_connection_changes_nothing_witness :
  _handle_conn (Key := unit) (fun _ => []) (fun _ => Some []) (fun _ _ _ => Returned true)
    (fun _ => Some (JObj [("data", JObj [("type", JStr "pheromone"); ("value", JNum 0%float)]);
                          ("signature", JStr "00")]))
    (register_handler (mkTransport ({["b" := tt]} : gmap string unit) ∅) "pheromone"
       (pheromone_handler 7%float))
    "mallory" ["{"%byte] (Node.__init__ "A" "H" 0%float)
  = mkHandled (Node.__init__ "A" "H" 0%float) [] false.
Proof.
  apply rejected_connection_changes_nothing.
  right. right. eexists. split; [reflexivity|]. left. reflexivity.
Defined.

(** X18. Registering a handler replaces the one registered for that type
    and touches nothing else: the keys and the handlers of other types are
    as before, the signature check gives the same answers, and a connection
    whose packet is not of that type is handled exactly as before. *)
Theorem register_handler_is_local (Key : Type) (dumps_sorted : json -> bytes)
    (fromhex : string -> option bytes)
    (verify_ssh_sig : Key -> bytes -> bytes -> call_result bool)
    (json_loads : bytes -> option json) (St : Type)
    (t : PostmareTransport Key St) (msg_type : string) (cb : handler St) :
  let t' := register_handler t msg_type cb in
  _handlers t' !! msg_type = Some cb /\
  (forall other, other <> msg_type -> _handlers t' !! other = _handlers t !! other) /\
  _known_keys t' = _known_keys t /\
  (forall packet sender_fp,
     _verify_signed dumps_sorted fromhex verify_ssh_sig t' packet sender_fp
     = _verify_signed dumps_sorted fromhex verify_ssh_sig t packet sender_fp) /\
  (forall peer_fp buf st,
     (forall packet data, json_loads buf = Some packet -> subscript packet "data" = Some data ->
        subscript data "type" <> Some (JStr msg_type)) ->
     _handle_conn dumps_sorted fromhex verify_ssh_sig json_loads t' peer_fp buf st
     = _handle_conn dumps_sorted fromhex verify_ssh_sig json_loads t peer_fp buf st).
Proof.
  intros t'.
  assert (Hsame : forall other, other <> msg_type -> _handlers t' !! other = _handlers t !! other).
  { intros other Hne. unfold t', register_handler. simpl. unfold handler.
    now rewrite lookup_insert_ne by congruence. }
  split; [unfold t', register_handler; simpl; unfold handler; apply lookup_insert_eq|].
  split; [exact Hsame|]. split; [reflexivity|]. split; [reflexivity|].
  intros peer_fp buf st Hother. unfold _handle_conn.
  destruct buf as [|b buf']; [reflexivity|].
  destruct (json_loads (b :: buf')) as [packet|] eqn:Hload; [|reflexivity].
  change (_verify_signed dumps_sorted fromhex verify_ssh_sig t' packet peer_fp)
    with (_verify_signed dumps_sorted fromhex verify_ssh_sig t packet peer_fp).
  destruct (_verify_signed dumps_sorted fromhex verify_ssh_sig t packet peer_fp) eqn:Hver;
    [|reflexivity].
  destruct (verify_signed_inv Key dumps_sorted fromhex verify_ssh_sig St t packet peer_fp Hver)
    as (key & data & hex & sig & v & _ & Hdata & _).
  rewrite Hdata. cbn [negb default from_option id].
  destruct data as [| | | | |items]; try reflexivity.
  destruct (assoc "type" items) as [[| | |ty| |]|] eqn:Htype; try reflexivity.
  assert (Hne : ty <> msg_type).
  { intros ->. apply (Hother packet (JObj items) eq_refl Hdata). exact Htype. }
  unfold handler in *. rewrite (Hsame ty Hne). reflexivity.
Qed.

(** X19. The heartbeat a node sends is the report its neighbour applies.
    If the receiver knows the sender's key and has the ['pheromone']
    handler of the daemon registered, the bytes [send_heartbeat] produces
    for a value [v] -- when they parse back to the packet that was
    serialised, the signature's hexadecimal form reads back, and
    [verify_ssh_sig] returns -- make [_handle_conn] call that handler once,
    and the receiver's node is [update(sender, v)] of what it was: what is
    used is the authenticated fingerprint and the ['value'], not the
    ['sender'], ['target'] or ['timestamp'] written into the message. *)
Theorem heartbeat_reaches_update (PrivKey Key : Type)
    (sign_ssh_data : PrivKey -> bytes -> bytes) (hex : bytes -> string)
    (dumps_sorted json_dumps : json -> bytes)
    (fromhex : string -> option bytes)
    (verify_ssh_sig : Key -> bytes -> bytes -> call_result bool)
    (json_loads : bytes -> option json)
    (priv : PrivKey) (pub : Key) (sender_fp host_fp peer_fp : string)
    (v t_sent t_recv : float) (verdict : bool)
    (t : PostmareTransport Key Node.PostmareNode) (n : Node.PostmareNode) :
  let msg := heartbeat_msg sender_fp host_fp v t_sent in
  let wire := heartbeat_bytes sign_ssh_data hex dumps_sorted json_dumps priv sender_fp host_fp
                v t_sent in
  wire <> [] ->
  json_loads wire = Some (_wrap_signed sign_ssh_data hex dumps_sorted priv msg) ->
  fromhex (hex (sign_ssh_data priv (dumps_sorted msg)))
    = Some (sign_ssh_data priv (dumps_sorted msg)) ->
  _known_keys t !! peer_fp = Some pub ->
  verify_ssh_sig pub (dumps_sorted msg) (sign_ssh_data priv (dumps_sorted msg))
    = Returned verdict ->
  _handlers t !! "pheromone" = Some (pheromone_handler t_recv) ->
  let out := _handle_conn dumps_sorted fromhex verify_ssh_sig json_loads t peer_fp wire n in
  h_invoked out = [("pheromone", peer_fp, msg)] /\
  h_state out = snd (Node.update n peer_fp v t_recv) /\
  h_escaped out = false.
Proof.
  intros msg wire Hne Hload Hhex Hkey Hver Hh out.
  assert (Hacc : _verify_signed dumps_sorted fromhex verify_ssh_sig t
                   (_wrap_signed sign_ssh_data hex dumps_sorted priv msg) peer_fp = true).
  { eapply returned_verification_accepted; [exact Hkey|reflexivity|reflexivity|exact Hhex|exact Hver]. }
  set (items := [("type", JStr "pheromone"); ("sender", JStr sender_fp);
                 ("target", JStr host_fp); ("value", JNum v); ("timestamp", JNum t_sent)]).
  assert (Hmsg : msg = JObj items) by reflexivity.
  assert (Hdata : subscript (_wrap_signed sign_ssh_data hex dumps_sorted priv msg) "data"
                  = Some (JObj items)) by reflexivity.
  assert (Htype : assoc "type" items = Some (JStr "pheromone")) by reflexivity.
  assert (Hvalue : assoc "value" items = Some (JNum v)) by reflexivity.
  subst out. rewrite Hmsg. clearbody items. unfold _handle_conn.
  destruct wire as [|b wire'] eqn:Hw; [contradiction|].
  rewrite Hload, Hacc, Hdata. cbn [negb default from_option id]. rewrite Htype.
  cbv beta iota. unfold handler in *. rewrite Hh.
  unfold pheromone_handler. cbn [subscript]. rewrite Hvalue.
  repeat split.
Qed.

Lemma heartbeat_reaches_update_witness :
  let n := Node.__init__ "B" "H" 0%float in
  let t := register_handler (mkTransport ({["a" := tt]} : gmap string unit) ∅)
             "pheromone" (pheromone_handler 7%float) in
  let wire := heartbeat_bytes (PrivKey := unit) (fun _ b => b) (fun _ => "00") (fun _ => ["d"]%byte)
                (fun _ => ["{"]%byte) tt "a" "H" 0%float 6%float in
  let out := _handle_conn (Key := unit) (fun _ => ["d"]%byte) (fun _ => Some ["d"]%byte)
               (fun _ _ _ => Returned true)
               (fun _ => Some (_wrap_signed (PrivKey := unit) (fun _ b => b) (fun _ => "00")
                                 (fun _ => ["d"]%byte) tt
                                 (heartbeat_msg "a" "H" 0%float 6%float)))
               t "a" wire n in
  Node.get_pheromone_value (h_state out) "H" = 1%float /\
  Node.get_next_hop (h_state out) "H" = Some "a".
Proof.
  intros n t wire out.
  pose proof (heartbeat_reaches_update unit unit (fun _ b => b) (fun _ => "00")
                (fun _ => ["d"]%byte) (fun _ => ["{"]%byte) (fun _ => Some ["d"]%byte)
                (fun _ _ _ => Returned true)
                (fun _ => Some (_wrap_signed (PrivKey := unit) (fun _ b => b) (fun _ => "00")
                                  (fun _ => ["d"]%byte) tt
                                  (heartbeat_msg "a" "H" 0%float 6%float)))
                tt tt "a" "H" "a" 0%float 6%float 7%float true t n
                ltac:(discriminate) eq_refl eq_refl eq_refl eq_refl eq_refl) as (_ & Hs & _).
  fold wire in Hs. fold out in Hs. rewrite Hs. split; reflexivity.
Defined.

(** X20. A heartbeat that reports no cost changes nothing: when the data
    has no ['value'] the handler reports [float('inf')], which [update]
    turns down, and so it does a reported [+inf]; the node is left as it
    was, whatever its table holds. *)
Theorem heartbeat_without_cost_is_ignored (now : float) (sender_fp : string) (data : json)
    (n : Node.PostmareNode) :
  subscript data "value" = None \/ subscript data "value" = Some (JNum PyFloat.INF) ->
  pheromone_handler now sender_fp data n = Returned n.
Proof.
  intros [H|H]; unfold pheromone_handler; rewrite H; reflexivity.
Qed.

Lemma heartbeat_without_cost_is_ignored_witness :
  pheromone_handler 7%float "b" (JObj [("type", JStr "pheromone")])
    (Node.__init__ "A" "H" 0%float)
  = Returned (Node.__init__ "A" "H" 0%float).
Proof.
  apply heartbeat_without_cost_is_ignored. left. reflexivity.
Defined.

(** *** Authentication *)

Section Authentication.

Variable Key : Type.
Variable PubKey : Type.
Variable fingerprint_of : PubKey -> string.

Lemma authenticate_known (known : gmap string Key) (keys : list PubKey) :
  _known (authenticate fingerprint_of known keys) = known.
Proof.
  unfold authenticate.
  assert (H : forall iface : server_interface Key, _known (foldl (fun iface key =>
               snd (check_auth_publickey fingerprint_of iface key)) iface keys) = _known iface).
  { induction keys as [|key keys IH]; intros iface; [reflexivity|].
    simpl. rewrite IH. unfold check_auth_publickey.
    destruct (_known iface !! fingerprint_of key); reflexivity. }
  apply H.
Qed.

(** The fingerprint recorded is that of the last offered key that is
    known. *)
Lemma authenticate_peer (known : gmap string Key) (keys : list PubKey) :
  peer_fp (authenticate fingerprint_of known keys)
  = last (filter (fun fp => is_Some (known !! fp)) (fingerprint_of <$> keys)).
Proof.
  unfold authenticate.
  assert (H : forall iface : server_interface Key, _known iface = known ->
            peer_fp (foldl (fun iface key =>
               snd (check_auth_publickey fingerprint_of iface key)) iface keys)
            = match last (filter (fun fp => is_Some (known !! fp)) (fingerprint_of <$> keys)) with
              | Some fp => Some fp
              | None => peer_fp iface
              end).
  { induction keys as [|key keys IH]; intros iface Hk; [reflexivity|].
    simpl foldl. rewrite IH.
    - unfold check_auth_publickey. rewrite Hk. simpl fmap.
      destruct (known !! fingerprint_of key) as [k|] eqn:E.
      + rewrite filter_cons_True by (rewrite E; eauto). rewrite last_cons.
        destruct (last _); reflexivity.
      + rewrite filter_cons_False by (rewrite E; intros [? ?]; discriminate).
        destruct (last _); reflexivity.
    - unfold check_auth_publickey. rewrite Hk.
      destruct (known !! fingerprint_of key); [reflexivity|exact Hk]. }
  rewrite H by reflexivity. simpl. destruct (last _); reflexivity.
Qed.

End Authentication.

(** X21. Only known peers reach a handler.  On a connection, the
    fingerprint [_handle_conn] works with is that of the last key offered
    whose fingerprint is in [_known_keys]; every handler call carries it,
    so every call is made in the name of a known key that the peer
    offered.  A connection on which no offered key is known, on which no
    channel was accepted, or whose session calls raised, calls no handler
    and changes nothing. *)
Theorem only_known_peers_reach_handlers (Key PubKey : Type) (fingerprint_of : PubKey -> string)
    (dumps_sorted : json -> bytes) (fromhex : string -> option bytes)
    (verify_ssh_sig : Key -> bytes -> bytes -> call_result bool)
    (json_loads : bytes -> option json) (St : Type)
    (t : PostmareTransport Key St) (s : session PubKey) (st : St) :
  let out := _handle_conn_session fingerprint_of dumps_sorted fromhex verify_ssh_sig json_loads
               t s st in
  (forall msg_type fp data, (msg_type, fp, data) ∈ h_invoked out ->
     is_Some (_known_keys t !! fp) /\
     (exists key, key ∈ offered s /\ fingerprint_of key = fp) /\
     last (filter (fun fp => is_Some (_known_keys t !! fp)) (fingerprint_of <$> offered s))
       = Some fp) /\
  ((forall key, key ∈ offered s -> _known_keys t !! fingerprint_of key = None) \/
   accepted s = false \/ received s = None ->
   out = mkHandled st [] false).
Proof.
  intros out. subst out. unfold _handle_conn_session. cbv zeta.
  rewrite authenticate_peer.
  set (fps := filter (fun fp => is_Some (_known_keys t !! fp)) (fingerprint_of <$> offered s)).
  split.
  - intros ty fp data.
    destruct (accepted s); simpl; [|intros Hin; inversion Hin].
    destruct (last fps) as [fp0|] eqn:Hlast; [|intros Hin; inversion Hin].
    destruct (received s) as [chunks|]; [|intros Hin; inversion Hin].
    intros Hin.
    apply handle_conn_invoked_peer in Hin. subst fp.
    apply last_Some_elem_of in Hlast. apply list_elem_of_filter in Hlast as [Hknown Hoff].
    apply list_elem_of_fmap in Hoff as (key & -> & Hkey).
    split; [exact Hknown|]. split; [exists key; split; [exact Hkey|reflexivity]|reflexivity].
  - intros [Hnone|[Hacc|Hrecv]].
    + destruct (accepted s); [|reflexivity]. simpl.
      assert (Hfps : fps = []).
      { unfold fps. destruct (filter _ _) as [|fp l] eqn:E; [reflexivity|].
        assert (Hin : fp ∈ fp :: l) by left. rewrite <- E in Hin.
        apply list_elem_of_filter in Hin as [[k Hk] Hoff].
        apply list_elem_of_fmap in Hoff as (key & -> & Hkey).
        rewrite (Hnone key Hkey) in Hk. discriminate. }
      rewrite Hfps. reflexivity.
    + rewrite Hacc. reflexivity.
    + destruct (accepted s); [|reflexivity]. simpl.
      destruct (last fps); [|reflexivity]. now rewrite Hrecv.
Qed.

End TransportProperties.

(** ** bridge.py: what a delivery takes and writes *)

Module BridgeProperties.
Import PyFloat PyFloatFacts FloatOrder Bridge BridgeFacts.

(** *** The files a delivery takes, and their order *)

Lemma insert_by_mtime_perm x l : insert_by_mtime x l ≡ₚ x :: l.
Proof.
  induction l as [|y l IH]; simpl; [reflexivity|].
  destruct (lt (st_mtime y) (st_mtime x)); [|reflexivity].
  rewrite IH. apply Permutation_swap.
Qed.

Lemma sorted_by_mtime_perm l : sorted_by_mtime l ≡ₚ l.
Proof.
  induction l as [|x l IH]; simpl; [reflexivity|].
  rewrite insert_by_mtime_perm. now rewrite IH.
Qed.

Lemma gt_not_nan a b : gt a b = true -> is_nan a = false.
Proof.
  intros H. destruct (is_nan a) eqn:E; [|reflexivity].
  pose proof (lt_nan_r b a E) as H'. unfold gt in H. unfold lt in H'. congruence.
Qed.

Lemma insert_by_mtime_sorted x l :
  is_nan (st_mtime x) = false ->
  Forall (fun f => is_nan (st_mtime f) = false) l ->
  mtime_sorted l -> mtime_sorted (insert_by_mtime x l).
Proof.
  intros Hx Hl. induction Hl as [|y l Hy Hl IH]; intros Hs; [exact I|].
  simpl insert_by_mtime. destruct (lt (st_mtime y) (st_mtime x)) eqn:Hlt.
  - assert (Hrest : mtime_sorted l) by (destruct l; [exact I|apply Hs]).
    specialize (IH Hrest).
    destruct l as [|z l']; simpl in *.
    + split; [now apply lt_le|exact I].
    + destruct (lt (st_mtime z) (st_mtime x)) eqn:Hlt'.
      * split; [apply Hs|exact IH].
      * split; [now apply lt_le|exact IH].
  - split; [|exact Hs]. apply not_lt_le; assumption.
Qed.

Lemma sorted_by_mtime_sorted l :
  Forall (fun f => is_nan (st_mtime f) = false) l -> mtime_sorted (sorted_by_mtime l).
Proof.
  induction 1 as [|x l Hx Hl IH]; [exact I|].
  simpl. apply insert_by_mtime_sorted; [exact Hx| |exact IH].
  rewrite sorted_by_mtime_perm. exact Hl.
Qed.

(** X22. What a delivery takes.  [_collect_new_files] returns the entries
    of the directory that are regular files, carry one of the recognised
    suffixes and are strictly newer than the marker -- each as often as the
    listing has it, nothing else -- ordered by modification time, oldest
    first.  A file whose time is not after the marker is never taken. *)
Theorem collected_files_are_new_and_sorted (listing : list file_info) (since_ts : float) :
  let files := _collect_new_files listing since_ts in
  files ≡ₚ filter (fun f => is_new since_ts f = true) listing /\
  (forall f, f ∈ files <->
     f ∈ listing /\ f_is_file f = true /\ f_suffix f ∈ exts /\
     gt (st_mtime f) since_ts = true) /\
  (forall f, le (st_mtime f) since_ts = true -> f ∉ files) /\
  mtime_sorted files.
Proof.
  intros files.
  assert (Hperm : files ≡ₚ filter (fun f => is_new since_ts f = true) listing)
    by apply sorted_by_mtime_perm.
  assert (Hmem : forall f, f ∈ files <->
            f ∈ listing /\ f_is_file f = true /\ f_suffix f ∈ exts /\
            gt (st_mtime f) since_ts = true).
  { intros f. rewrite Hperm, list_elem_of_filter. unfold is_new.
    rewrite !andb_true_iff, bool_decide_eq_true. tauto. }
  split; [exact Hperm|]. split; [exact Hmem|]. split.
  - intros f Hle Hin. apply Hmem in Hin as (_ & _ & _ & Hgt).
    rewrite (le_not_gt _ _ Hle) in Hgt. discriminate.
  - apply sorted_by_mtime_sorted. apply Forall_forall. intros f Hf.
    apply list_elem_of_filter in Hf as [Hnew _]. unfold is_new in Hnew.
    apply andb_true_iff in Hnew as [_ Hgt]. now apply gt_not_nan in Hgt.
Qed.

Section DeliverProperties.

Variable strftime : float -> string.
Variable node_id : string.
Variable unlink_ok : file_info -> bool.

(** What a call that returns a path has done. *)
Lemma deliver_Some b project export_dir t_pack t_mark w tar_path w' :
  deliver strftime node_id unlink_ok b project export_dir t_pack t_mark w = (Some tar_path, w') ->
  exists listing,
    dirs w !! scan_dir_of b project export_dir = Some listing /\
    let files := _collect_new_files listing (_read_marker w project) in
    let ts := strftime t_pack in
    let tar_name := project +:+ "_" +:+ ts +:+ ".tar.gz" in
    let names := f_name <$> files in
    files <> [] /\
    tar_path = mailbag_dir b +:+ "/" +:+ tar_name /\
    outbox w' = <[tar_name := mkPackage (mkManifest project ts names node_id)
                                ("manifest.json" :: names)]> (outbox w) /\
    markers w' = <[project := t_mark]> (markers w) /\
    dirs w' = if keep_original b then dirs w
              else alter (filter (fun f => ~ (f_name f ∈ names /\ unlink_ok f = true)))
                     (scan_dir_of b project export_dir) (dirs w).
Proof.
  unfold deliver. cbv zeta.
  destruct (dirs w !! scan_dir_of b project export_dir) as [listing|] eqn:Hdir; [|discriminate].
  destruct (_collect_new_files listing (_read_marker w project)) as [|g rest] eqn:E;
    [discriminate|].
  unfold _pack. cbv zeta. intros [= <- <-].
  exists listing. split; [reflexivity|]. cbv zeta. rewrite E.
  split; [discriminate|]. split; [reflexivity|].
  destruct (keep_original b); repeat split.
Qed.

End DeliverProperties.

(** X23. What a delivery writes.  A call of [deliver] that returns a path
    found new files; the path is [<mailbag_dir>/<project>_<timestamp>.tar.gz];
    the archive holds [manifest.json] followed by the new files, oldest
    first, and its manifest names the project, the timestamp, those files
    and the node.  Besides that archive the call changes only the marker
    of this project, which becomes the clock value it read: other
    archives, the markers of other projects and, when originals are kept,
    every directory are as they were. *)
Theorem delivery_writes_one_archive_and_one_marker
    (strftime : float -> string) (node_id : string) (unlink_ok : file_info -> bool)
    (b : Bridge) (project : string) (export_dir : option string)
    (t_pack t_mark : float) (w w' : world) (tar_path : string) :
  deliver strftime node_id unlink_ok b project export_dir t_pack t_mark w = (Some tar_path, w') ->
  exists listing pkg,
    dirs w !! scan_dir_of b project export_dir = Some listing /\
    let files := _collect_new_files listing (_read_marker w project) in
    let tar_name := project +:+ "_" +:+ strftime t_pack +:+ ".tar.gz" in
    files <> [] /\
    tar_path = mailbag_dir b +:+ "/" +:+ tar_name /\
    outbox w' !! tar_name = Some pkg /\
    p_members pkg = "manifest.json" :: (f_name <$> files) /\
    p_manifest pkg = mkManifest project (strftime t_pack) (f_name <$> files) node_id /\
    (forall other, other <> tar_name -> outbox w' !! other = outbox w !! other) /\
    _read_marker w' project = t_mark /\
    (forall other, other <> project -> markers w' !! other = markers w !! other) /\
    (forall d, d <> scan_dir_of b project export_dir -> dirs w' !! d = dirs w !! d) /\
    (keep_original b = true -> dirs w' = dirs w).
Proof.
  intros Hd.
  destruct (deliver_Some strftime node_id unlink_ok b project export_dir t_pack t_mark w
              tar_path w' Hd) as (listing & Hdir & Hne & Hpath & Hout & Hmark & Hdirs).
  cbv zeta in Hne, Hpath, Hout, Hmark, Hdirs.
  exists listing, (mkPackage (mkManifest project (strftime t_pack)
                     (f_name <$> _collect_new_files listing (_read_marker w project)) node_id)
                     ("manifest.json" :: (f_name <$> _collect_new_files listing
                                                       (_read_marker w project)))).
  split; [exact Hdir|]. cbv zeta.
  split; [exact Hne|]. split; [exact Hpath|].
  split; [rewrite Hout; apply lookup_insert_eq|].
  split; [reflexivity|]. split; [reflexivity|].
  split; [intros other Hother; rewrite Hout; now apply lookup_insert_ne|].
  split; [unfold _read_marker; rewrite Hmark, lookup_insert_eq; reflexivity|].
  split; [intros other Hother; rewrite Hmark; now apply lookup_insert_ne|].
  split.
  - intros d Hne'. rewrite Hdirs. destruct (keep_original b); [reflexivity|].
    now apply lookup_alter_ne.
  - intros Hk. rewrite Hdirs, Hk. reflexivity.
Qed.

Lemma delivery_writes_one_archive_and_one_marker_witness :
  let w := mkWorld {["./logs/demo" := [mkFile "b.json" true ".json" 6%float;
                                       mkFile "a.csv" true ".csv" 5%float;
                                       mkFile "notes.txt" true ".txt" 7%float]]}
             {["other" := 3%float]} ∅ in
  let b := mkBridge "./mailbag" "./logs" true in
  let r := deliver (fun _ => "20260101_000000") "node" (fun _ => true) b "demo" None
             10%float 11%float w in
  exists listing pkg,
    dirs w !! scan_dir_of b "demo" None = Some listing /\
    _collect_new_files listing (_read_marker w "demo") <> [] /\
    fst r = Some "./mailbag/demo_20260101_000000.tar.gz" /\
    outbox (snd r) !! "demo_20260101_000000.tar.gz" = Some pkg /\
    p_members pkg = "manifest.json" :: (f_name <$> _collect_new_files listing (_read_marker w "demo")).
Proof.
  intros w b r.
  destruct (delivery_writes_one_archive_and_one_marker (fun _ => "20260101_000000") "node"
              (fun _ => true) b "demo" None 10%float 11%float w (snd r)
              "./mailbag/demo_20260101_000000.tar.gz" eq_refl)
    as (listing & pkg & H1 & H2 & H3 & H4 & H5 & _).
  exists listing, pkg. repeat split; assumption.
Defined.

(** X24. With [keep_original] off, a delivery removes what it packed and
    nothing else: the export directory afterwards holds exactly the entries
    that were not packed, or whose [unlink] failed, in their old order.
    When every [unlink] succeeds, no packed file is left, and every entry
    that is left was not packed. *)
Theorem delivery_removes_packed_originals
    (strftime : float -> string) (node_id : string) (unlink_ok : file_info -> bool)
    (b : Bridge) (project : string) (export_dir : option string)
    (t_pack t_mark : float) (w w' : world) (tar_path : string) (listing : list file_info) :
  keep_original b = false ->
  dirs w !! scan_dir_of b project export_dir = Some listing ->
  deliver strftime node_id unlink_ok b project export_dir t_pack t_mark w = (Some tar_path, w') ->
  let packed := _collect_new_files listing (_read_marker w project) in
  exists listing',
    dirs w' !! scan_dir_of b project export_dir = Some listing' /\
    listing' = filter (fun f => ~ (f_name f ∈ (f_name <$> packed) /\ unlink_ok f = true)) listing /\
    (forall f, f ∈ listing' -> f ∈ listing) /\
    ((forall f, unlink_ok f = true) ->
     forall f, f ∈ listing' -> (f ∉ packed) /\ (f_name f ∉ (f_name <$> packed))).
Proof.
  intros Hkeep Hdir Hd packed.
  destruct (deliver_Some strftime node_id unlink_ok b project export_dir t_pack t_mark w
              tar_path w' Hd) as (listing0 & Hdir0 & _ & _ & _ & _ & Hdirs).
  cbv zeta in Hdirs. rewrite Hdir in Hdir0. injection Hdir0 as <-. rewrite Hkeep in Hdirs.
  eexists. split; [rewrite Hdirs, lookup_alter_eq, Hdir; reflexivity|].
  split; [reflexivity|]. split.
  - intros f Hf. apply list_elem_of_filter in Hf. tauto.
  - intros Hall f Hf. apply list_elem_of_filter in Hf as [Hnot _].
    assert (Hname : f_name f ∉ (f_name <$> packed)).
    { intros Hin. apply Hnot. split; [exact Hin|apply Hall]. }
    split; [|exact Hname]. intros Hin. apply Hname.
    apply list_elem_of_fmap. exists f. split; [reflexivity|exact Hin].
Qed.

Lemma delivery_removes_packed_originals_witness :
  let w := mkWorld {["./logs/demo" := [mkFile "b.json" true ".json" 6%float;
                                       mkFile "notes.txt" true ".txt" 7%float]]} ∅ ∅ in
  let b := mkBridge "./mailbag" "./logs" false in
  let r := deliver (fun _ => "20260101_000000") "node" (fun _ => true) b "demo" None
             10%float 11%float w in
  exists listing',
    dirs (snd r) !! scan_dir_of b "demo" None = Some listing' /\
    listing' = filter (fun f => ~ (f_name f ∈ (f_name <$> _collect_new_files
                                     [mkFile "b.json" true ".json" 6%float;
                                      mkFile "notes.txt" true ".txt" 7%float]
                                     (_read_marker w "demo")) /\ (fun _ => true) f = true))
                 [mkFile "b.json" true ".json" 6%float; mkFile "notes.txt" true ".txt" 7%float].
Proof.
  intros w b r.
  destruct (delivery_removes_packed_originals (fun _ => "20260101_000000") "node"
              (fun _ => true) b "demo" None 10%float 11%float w (snd r)
              "./mailbag/demo_20260101_000000.tar.gz"
              [mkFile "b.json" true ".json" 6%float; mkFile "notes.txt" true ".txt" 7%float]
              eq_refl eq_refl eq_refl) as (listing' & H1 & H2 & _).
  exists listing'. split; assumption.
Defined.

(** X25. The archive name has a resolution of one second.  Two deliveries
    of a project whose clock readings format to the same timestamp write
    the same path, and the second archive replaces the first: afterwards
    the mailbag holds what it held before both, and under that name the
    files of the second delivery only. *)
Theorem same_timestamp_replaces_archive
    (strftime : float -> string) (node_id : string) (unlink_ok : file_info -> bool)
    (b : Bridge) (project : string) (export_dir export_dir' : option string)
    (t_pack t_mark t_pack' t_mark' : float) (w w1 v w2 : world) (p1 p2 : string) :
  deliver strftime node_id unlink_ok b project export_dir t_pack t_mark w = (Some p1, w1) ->
  outbox v = outbox w1 ->
  deliver strftime node_id unlink_ok b project export_dir' t_pack' t_mark' v = (Some p2, w2) ->
  strftime t_pack = strftime t_pack' ->
  p2 = p1 /\
  exists listing pkg,
    dirs v !! scan_dir_of b project export_dir' = Some listing /\
    outbox w2 = <[project +:+ "_" +:+ strftime t_pack +:+ ".tar.gz" := pkg]> (outbox w) /\
    p_members pkg
    = "manifest.json" :: (f_name <$> _collect_new_files listing (_read_marker v project)).
Proof.
  intros H1 Hv H2 Hts.
  destruct (deliver_Some strftime node_id unlink_ok b project export_dir t_pack t_mark w
              p1 w1 H1) as (l1 & _ & _ & Hp1 & Ho1 & _).
  destruct (deliver_Some strftime node_id unlink_ok b project export_dir' t_pack' t_mark' v
              p2 w2 H2) as (l2 & Hd2 & _ & Hp2 & Ho2 & _).
  cbv zeta in Hp1, Ho1, Hp2, Ho2. rewrite <- Hts in Hp2, Ho2.
  split; [congruence|].
  exists l2, (mkPackage (mkManifest project (strftime t_pack)
                (f_name <$> _collect_new_files l2 (_read_marker v project)) node_id)
                ("manifest.json" :: (f_name <$> _collect_new_files l2 (_read_marker v project)))).
  split; [exact Hd2|]. split; [|reflexivity].
  rewrite Ho2, Hv, Ho1. apply insert_insert_eq.
Qed.

Lemma same_timestamp_replaces_archive_witness :
  let b := mkBridge "./mailbag" "./logs" true in
  let w := mkWorld {["./logs/demo" := [mkFile "a.json" true ".json" 5%float]]} ∅ ∅ in
  let first := deliver (fun _ => "20260101_000000") "node" (fun _ => true) b "demo" None
                 10%float 10.25%float w in
  let v := mkWorld {["./logs/demo" := [mkFile "a.json" true ".json" 5%float;
                                       mkFile "b.json" true ".json" 10.5%float]]}
             (markers (snd first)) (outbox (snd first)) in
  let second := deliver (fun _ => "20260101_000000") "node" (fun _ => true) b "demo" None
                  10.75%float 10.875%float v in
  fst second = fst first.
Proof.
  intros b w first v second.
  destruct (same_timestamp_replaces_archive (fun _ => "20260101_000000") "node" (fun _ => true)
              b "demo" None None 10%float 10.25%float 10.75%float 10.875%float w (snd first) v
              (snd second) "./mailbag/demo_20260101_000000.tar.gz"
              "./mailbag/demo_20260101_000000.tar.gz" eq_refl eq_refl eq_refl eq_refl)
    as [_ _].
  reflexivity.
Defined.

(** X26. [export_and_deliver] delivers what the export wrote.  When
    [primelog.export] raises, the call returns [None] and does nothing
    after it: no archive, no marker.  When it returns, the call is
    [deliver(project)] on [log_base/project], so a regular file with a
    recognised suffix that the export left there, newer than the marker, is
    in the archive the call returns. *)
Theorem export_and_deliver_packs_the_export
    (strftime : float -> string) (node_id : string) (unlink_ok : file_info -> bool)
    (primelog_export : string -> world -> bool * world)
    (b : Bridge) (project : string) (t_pack t_mark : float) (w : world) :
  let exported := primelog_export project w in
  let r := export_and_deliver strftime node_id unlink_ok primelog_export b project
             t_pack t_mark w in
  (exported.1 = false -> r = (None, exported.2)) /\
  (exported.1 = true ->
   r = deliver strftime node_id unlink_ok b project None t_pack t_mark exported.2 /\
   forall listing f,
     dirs exported.2 !! (log_base b +:+ "/" +:+ project) = Some listing ->
     f ∈ listing -> f_is_file f = true -> f_suffix f ∈ exts ->
     gt (st_mtime f) (_read_marker exported.2 project) = true ->
     exists tar_name pkg,
       r.1 = Some (mailbag_dir b +:+ "/" +:+ tar_name) /\
       outbox r.2 !! tar_name = Some pkg /\
       f_name f ∈ m_files (p_manifest pkg) /\
       _read_marker r.2 project = t_mark).
Proof.
  intros exported r. subst r. unfold export_and_deliver. fold exported.
  destruct exported as [ok w1]. simpl. split; [intros ->; reflexivity|].
  intros ->. split; [reflexivity|].
  intros listing f Hdir Hin Hfile Hext Hgt.
  destruct (deliver strftime node_id unlink_ok b project None t_pack t_mark w1)
    as [[tar_path|] w'] eqn:Hd.
  - destruct (deliver_Some strftime node_id unlink_ok b project None t_pack t_mark w1
                tar_path w' Hd) as (listing0 & Hdir0 & _ & Hpath & Hout & Hmark & _).
    cbv zeta in Hpath, Hout, Hmark.
    assert (listing0 = listing) as -> by (simpl in Hdir0; congruence).
    eexists _, _. simpl. split; [rewrite Hpath; reflexivity|].
    split; [rewrite Hout; apply lookup_insert_eq|]. split.
    + simpl. apply list_elem_of_fmap. exists f. split; [reflexivity|].
      unfold _collect_new_files. rewrite sorted_by_mtime_perm. apply list_elem_of_filter.
      split; [|exact Hin]. unfold is_new.
      rewrite Hfile, Hgt, (bool_decide_eq_true_2 _ Hext). reflexivity.
    + unfold _read_marker. rewrite Hmark, lookup_insert_eq. reflexivity.
  - exfalso.
    pose proof (deliver_packs strftime node_id unlink_ok b project None t_pack t_mark w1
                  listing Hdir) as Hp.
    cbv zeta in Hp. rewrite Hp in Hd; [discriminate|].
    exists f. split; [exact Hin|]. unfold is_new.
    rewrite Hfile, Hgt, (bool_decide_eq_true_2 _ Hext). reflexivity.
Qed.

End BridgeProperties.
